(** * Epic OAuth callback server: state store, token exchange and routing

    A shallow embedding of [src/state-manager.js], [src/oauth.js],
    [src/pages/home.js], [src/pages/authSuccess.js], [src/logger.js] and
    [src/index.js] of the Epic OAuth integration script, with the
    properties of its specification proved or refuted on the embedding,
    and further properties of the code after them.

    Conventions of the embedding.
    - A JavaScript string is the Rocq [string] of its UTF-8 bytes.
    - A point in time ([new Date()], [Date.now()]) is its number of
      milliseconds since the epoch, a [Z].
    - What the program reads from outside (the clock, the UUID generator,
      the network, the JWT decoder) is an explicit input.
    - The lines the handlers write to the log are not among their
      effects, but what is evaluated to build them is (the awaited text
      of a response, the conversion of a value to text); the logger is
      embedded on its own ([Logger]). *)

From Stdlib Require Import ZArith Lia Ascii String List.
From stdpp Require Import base option list gmap strings pretty.

Local Open Scope string_scope.
Local Open Scope Z_scope.

Set Warnings "-register-all".

(** ** src/state-manager.js *)

Module StateManager.

(** [const STATE_TTL_MS = 5 * 60 * 1000 // 5 minutes] *)
Definition STATE_TTL_MS : Z := 5 * 60 * 1000.

(** [const stateStore = {}]: the own properties of the object, each
    holding the [Date] of issuance.  The object is a plain object, so a
    property read that finds no own property continues in
    [Object.prototype]. *)
Abbreviation stateStore := (gmap string Z).

(** The property names of [Object.prototype]. *)
Definition Object_prototype_names : list string :=
  [ "constructor"; "__defineGetter__"; "__defineSetter__"; "hasOwnProperty";
    "__lookupGetter__"; "__lookupSetter__"; "isPrototypeOf";
    "propertyIsEnumerable"; "toString"; "valueOf"; "__proto__";
    "toLocaleString" ].

Definition Object_prototype_has (k : string) : bool :=
  bool_decide (k ∈ Object_prototype_names).

(** What [stateStore[state]] evaluates to. *)
Inductive slot : Type :=
  | SUndefined              (* no such property anywhere on the chain *)
  | SDate (t : Z)           (* an own property: the issuance [Date] *)
  | SInherited.             (* a member of [Object.prototype]: a function,
                               or [Object.prototype] itself for [__proto__] *)

Definition js_get (s : stateStore) (k : string) : slot :=
  match s !! k with
  | Some t => SDate t
  | None => if Object_prototype_has k then SInherited else SUndefined
  end.

(** [!timestamp]: only [undefined] is falsy among the three. *)
Definition falsy (v : slot) : bool :=
  match v with SUndefined => true | _ => false end.

(** [new Date() - timestamp] as a number; [None] is [NaN], the result of
    subtracting a function or a plain object. *)
Definition date_minus (now : Z) (v : slot) : option Z :=
  match v with
  | SDate t => Some (now - t)
  | _ => None
  end.

(** [x <= STATE_TTL_MS]; any comparison with [NaN] is [false]. *)
Definition number_le (x : option Z) (y : Z) : bool :=
  match x with
  | Some n => n <=? y
  | None => false
  end.

(** The canonical text printed by [uuidv4()]: 36 characters, hyphens at
    offsets 8, 13, 18 and 23, lower-case hexadecimal digits elsewhere. *)
Definition is_hex_digit (c : ascii) : bool :=
  let n := N_of_ascii c in
  ((48 <=? n) && (n <=? 57) || (97 <=? n) && (n <=? 102))%N.

Fixpoint uuid_chars (i : nat) (s : string) : bool :=
  match s with
  | EmptyString => true
  | String c rest =>
      (if bool_decide (i ∈ [8; 13; 18; 23]%nat)
       then bool_decide (c = "-"%char)
       else is_hex_digit c)
      && uuid_chars (S i) rest
  end.

Definition is_uuid (s : string) : bool :=
  (String.length s =? 36)%nat && uuid_chars 0 s.

(** [generateState()].  The result [u] of [uuidv4()] and the reading [now]
    of the clock are inputs.  [stateStore[state] = new Date()] creates or
    overwrites an own property for every key except [__proto__]; a UUID
    is never that key ([is_uuid]). *)
Definition generateState (u : string) (now : Z) (s : stateStore)
  : string * stateStore :=
  let state := u in
  (state, <[state := now]> s).

(** [validateState(state)], with the reading [now] of the clock taken by
    [new Date()] on the last line. *)
Definition validateState (state : string) (now : Z) (s : stateStore)
  : bool * stateStore :=
  let timestamp := js_get s state in
  if falsy timestamp then (false, s)
  else
    let s' := delete state s in
    (number_le (date_minus now timestamp) STATE_TTL_MS, s').

(** A run of the module: calls of its two exported functions, in order. *)
Inductive call : Type :=
  | Generate (u : string) (now : Z)
  | Validate (state : string) (now : Z).

(** The value a call returns: the token, or the verdict. *)
Inductive returned : Type :=
  | Token (state : string)
  | Verdict (ok : bool).

Definition step (c : call) (s : stateStore) : returned * stateStore :=
  match c with
  | Generate u now => let '(t, s') := generateState u now s in (Token t, s')
  | Validate k now => let '(b, s') := validateState k now s in (Verdict b, s')
  end.

Fixpoint run (cs : list call) (s : stateStore) : list returned * stateStore :=
  match cs with
  | [] => ([], s)
  | c :: cs' =>
      let '(r, s1) := step c s in
      let '(rs, s2) := run cs' s1 in
      (r :: rs, s2)
  end.

(** The verdicts of the validations of [tok] in a run, in order. *)
Fixpoint verdicts_of (tok : string) (cs : list call) (rs : list returned)
  : list bool :=
  match cs, rs with
  | Validate k _ :: cs', Verdict b :: rs' =>
      if bool_decide (k = tok) then b :: verdicts_of tok cs' rs'
      else verdicts_of tok cs' rs'
  | _ :: cs', _ :: rs' => verdicts_of tok cs' rs'
  | _, _ => []
  end.

(** [tok] is not handed out again by a later [generateState()]
    (identifier generation is collision-free). *)
Definition not_reissued (tok : string) (cs : list call) : bool :=
  forallb (fun c => match c with
                    | Generate u _ => negb (String.eqb u tok)
                    | Validate _ _ => true
                    end) cs.

(** No call of the run validates [tok]. *)
Definition not_validated (tok : string) (cs : list call) : bool :=
  forallb (fun c => match c with
                    | Validate k _ => negb (String.eqb k tok)
                    | Generate _ _ => true
                    end) cs.

(** Every token the run hands out is the text of a UUID, as [uuidv4()]
    returns them. *)
Definition issues_uuids (cs : list call) : bool :=
  forallb (fun c => match c with
                    | Generate u _ => is_uuid u
                    | Validate _ _ => true
                    end) cs.

End StateManager.

(** ** JavaScript values and built-ins used by the program *)

Module Js.

(** A value read from JSON.  A number is an integer here: the grammar of
    JSON numbers with a fraction or an exponent, and integers beyond the
    safe range of a double, are outside the embedding ([safe]). An
    object is the list of its own properties in enumeration order. *)
Inductive json : Type :=
  | JNull
  | JBool (b : bool)
  | JNumber (n : Z)
  | JString (s : string)
  | JArray (items : list json)
  | JObject (props : list (string * json)).

(** A JavaScript value of the program: [None] is [undefined]. *)
Definition value : Type := option json.

(** An exception value, as far as the program looks at it: what
    [`${error.cause}`] needs ([None] when the property is [undefined])
    and [error.message]. Messages of errors raised by the engine are in
    V8's wording. *)
Record JsError : Type := mkError {
  name : string;
  cause : option string;
  message : string
}.

(** The completion of an evaluation: a value, or a thrown exception (a
    rejected promise, for an awaited call). *)
Inductive completion (A : Type) : Type :=
  | Normal (a : A)
  | Throw (e : JsError).
Arguments Normal {A} a.
Arguments Throw {A} e.

Definition dq : string := String (ascii_of_nat 34) EmptyString.
Definition nl : string := String (ascii_of_nat 10) EmptyString.

Fixpoint join (sep : string) (parts : list string) : string :=
  match parts with
  | [] => EmptyString
  | [p] => p
  | p :: rest => p ++ sep ++ join sep rest
  end.

(** [new Error(message, { cause })]: an [undefined] message leaves the
    inherited empty message. *)
Definition new_Error (msg : option string) (c : option string) : JsError :=
  mkError "Error" c (default EmptyString msg).

Definition ReferenceError_not_defined (ident : string) : JsError :=
  mkError "ReferenceError" None (ident ++ " is not defined").

Definition TypeError (msg : string) : JsError :=
  mkError "TypeError" None msg.

(** [`${x}`] for a string or [undefined]. *)
Definition show (x : option string) : string := default "undefined" x.

(** Truthiness of a string or [undefined], as in [if (error)],
    [if (!code)], [launch ? .. : ..], [CLIENT_SECRET && ..]. *)
Definition truthy_string (x : option string) : bool :=
  match x with
  | Some (String _ _) => true
  | _ => false
  end.

(** Truthiness of a value, as in [profile ? profileHtml : ''] *)
Definition truthy (v : value) : bool :=
  match v with
  | None | Some JNull => false
  | Some (JBool b) => b
  | Some (JNumber n) => negb (n =? 0)
  | Some (JString s) => truthy_string (Some s)
  | Some (JArray _) | Some (JObject _) => true
  end.

(** An own property of an object read from JSON; the first entry of a
    name is the property (parsing leaves no second one). *)
Fixpoint own (props : list (string * json)) (k : string) : value :=
  match props with
  | [] => None
  | (k', v) :: rest => if String.eqb k' k then Some v else own rest k
  end.

(** [ToString], as applied by a template literal.  An object is printed
    by [Object.prototype.toString] unless it has an own [toString]
    property, which (read from JSON) is not callable: then the
    conversion throws.  An array is printed by [join]. *)
Fixpoint ToString_json (v : json) : option string :=
  match v with
  | JNull => Some "null"
  | JBool true => Some "true"
  | JBool false => Some "false"
  | JNumber n => Some (pretty n)
  | JString s => Some s
  | JArray items =>
      (fix elems (l : list json) : option string :=
         match l with
         | [] => Some EmptyString
         | x :: rest =>
             let piece := match x with JNull => Some EmptyString | _ => ToString_json x end in
             match piece, elems rest with
             | Some p, Some r =>
                 Some (match rest with [] => p | _ => p ++ "," ++ r end)
             | _, _ => None
             end
         end) items
  | JObject props =>
      match own props "toString" with
      | Some _ => None
      | None => Some "[object Object]"
      end
  end.

Definition ToString (v : value) : completion string :=
  match v with
  | None => Normal "undefined"
  | Some j =>
      match ToString_json j with
      | Some s => Normal s
      | None => Throw (TypeError "Cannot convert object to primitive value")
      end
  end.

(** The property [k] of a value read from JSON, for the names the
    program reads ([id_token], [access_token], [fhirUser]): none of
    them is inherited by any kind of value.  [null] has no properties
    ([None]); the property may be [undefined] ([Some None]). *)
Definition property (v : json) (k : string) : option value :=
  match v with
  | JNull => None
  | JObject props => Some (own props k)
  | _ => Some None
  end.

(** [const { k } = v] and [v.k]: reading from [null] throws [err]. *)
Definition get (err : JsError) (v : json) (k : string) : completion value :=
  match property v k with
  | Some x => Normal x
  | None => Throw err
  end.

Definition cannot_destructure (k src : string) : JsError :=
  TypeError ("Cannot destructure property '" ++ k ++ "' of '" ++ src ++ "' as it is null.").

Definition cannot_read (k : string) : JsError :=
  TypeError ("Cannot read properties of null (reading '" ++ k ++ "')").

(** *** JSON.stringify(value, null, 2) *)

Definition hex_digit (n : N) : ascii :=
  ascii_of_N (if (n <? 10)%N then 48 + n else 87 + n)%N.

(** [QuoteJSONString]: the two-character escapes, [\u00xx] for the other
    control characters, every other byte as it is. *)
Definition quote_char (c : ascii) : string :=
  let n := N_of_ascii c in
  if (n =? 8)%N then "\b"
  else if (n =? 9)%N then "\t"
  else if (n =? 10)%N then "\n"
  else if (n =? 12)%N then "\f"
  else if (n =? 13)%N then "\r"
  else if (n =? 34)%N then "\" ++ dq
  else if (n =? 92)%N then "\\"
  else if (n <? 32)%N
       then "\u00" ++ String (hex_digit (n / 16)) (String (hex_digit (n mod 16)) EmptyString)
  else String c EmptyString.

Fixpoint quote_chars (s : string) : string :=
  match s with
  | EmptyString => EmptyString
  | String c rest => quote_char c ++ quote_chars rest
  end.

Definition QuoteJSONString (s : string) : string := dq ++ quote_chars s ++ dq.

(** [SerializeJSONProperty] with a non-empty [gap]: [indent] is the
    current indentation. *)
Fixpoint SerializeJSONProperty (gap indent : string) (v : json) : string :=
  match v with
  | JNull => "null"
  | JBool true => "true"
  | JBool false => "false"
  | JNumber n => pretty n
  | JString s => QuoteJSONString s
  | JArray items =>
      let stepback := indent in
      let indent := indent ++ gap in
      match items with
      | [] => "[]"
      | _ =>
          let partial := map (SerializeJSONProperty gap indent) items in
          "[" ++ nl ++ indent ++ join ("," ++ nl ++ indent) partial
              ++ nl ++ stepback ++ "]"
      end
  | JObject props =>
      let stepback := indent in
      let indent := indent ++ gap in
      match props with
      | [] => "{}"
      | _ =>
          let partial :=
            map (fun kv => QuoteJSONString (fst kv) ++ ": "
                           ++ SerializeJSONProperty gap indent (snd kv)) props in
          "{" ++ nl ++ indent ++ join ("," ++ nl ++ indent) partial
              ++ nl ++ stepback ++ "}"
      end
  end.

(** [JSON.stringify(v, null, 2)]; of [undefined] it is [undefined]. *)
Definition JSON_stringify_2 (v : json) : string :=
  SerializeJSONProperty "  " EmptyString v.

Definition JSON_stringify_2_value (v : value) : option string :=
  JSON_stringify_2 <$> v.

(** *** JSON.parse

    A parser for the JSON texts whose value is a [json] of this
    embedding read without loss: [None] is a syntax error or a text
    outside it (a number with a fraction, an exponent or beyond the
    safe integers; an escape of a character beyond U+007F; an object
    with a repeated name or a name made of digits, whose properties
    JavaScript would reorder). *)

Definition is_ws (c : ascii) : bool :=
  let n := N_of_ascii c in
  ((n =? 32) || (n =? 9) || (n =? 10) || (n =? 13))%N.

Definition is_digit (c : ascii) : bool :=
  let n := N_of_ascii c in ((48 <=? n) && (n <=? 57))%N.

Fixpoint skip_ws (s : string) : string :=
  match s with
  | String c rest => if is_ws c then skip_ws rest else s
  | EmptyString => s
  end.

(** The longest prefix of digits, and what follows it. *)
Fixpoint span_digits (s : string) : string * string :=
  match s with
  | String c rest =>
      if is_digit c
      then let '(ds, r) := span_digits rest in (String c ds, r)
      else (EmptyString, s)
  | EmptyString => (EmptyString, s)
  end.

Fixpoint digits_value (acc : N) (ds : string) : N :=
  match ds with
  | String c rest => digits_value (acc * 10 + (N_of_ascii c - 48))%N rest
  | EmptyString => acc
  end.

(** The character continues a number: a digit, a point or an exponent. *)
Definition continues_number (s : string) : bool :=
  match s with
  | String c _ =>
      let n := N_of_ascii c in
      (is_digit c || (n =? 46) || (n =? 101) || (n =? 69))%N
  | EmptyString => false
  end.

Definition MAX_SAFE_INTEGER : N := 2 ^ 53 - 1.

(** An integer: an optional minus sign and the digits of a natural
    number in canonical form (no leading zero). *)
Definition parse_number (s : string) : option (Z * string) :=
  let '(negative, s1) :=
    match s with
    | String c r => if (N_of_ascii c =? 45)%N then (true, r) else (false, s)
    | EmptyString => (false, s)
    end in
  let '(ds, rest) := span_digits s1 in
  let n := digits_value 0 ds in
  if negb (String.eqb ds (pretty n)) then None
  else if continues_number rest then None
  else if (MAX_SAFE_INTEGER <? n)%N then None
  else Some (if negative then (- Z.of_N n)%Z else Z.of_N n, rest).

Definition hex_value (c : ascii) : option N :=
  let n := N_of_ascii c in
  if ((48 <=? n) && (n <=? 57))%N then Some (n - 48)%N
  else if ((97 <=? n) && (n <=? 102))%N then Some (n - 87)%N
  else if ((65 <=? n) && (n <=? 70))%N then Some (n - 55)%N
  else None.

(** The character a two-character escape stands for. *)
Definition unescape (e : ascii) : option ascii :=
  let m := N_of_ascii e in
  if (m =? 34)%N then Some e
  else if (m =? 92)%N then Some e
  else if (m =? 47)%N then Some e
  else if (m =? 98)%N then Some (ascii_of_nat 8)
  else if (m =? 102)%N then Some (ascii_of_nat 12)
  else if (m =? 110)%N then Some (ascii_of_nat 10)
  else if (m =? 114)%N then Some (ascii_of_nat 13)
  else if (m =? 116)%N then Some (ascii_of_nat 9)
  else None.

Definition cons_char (c : ascii) (r : option (string * string)) : option (string * string) :=
  match r with
  | Some (s, rest) => Some (String c s, rest)
  | None => None
  end.

(** The characters of a string after its opening quote, up to the
    closing one. *)
Fixpoint parse_chars (s : string) : option (string * string) :=
  match s with
  | EmptyString => None
  | String c rest =>
      let n := N_of_ascii c in
      if (n =? 34)%N then Some (EmptyString, rest)
      else if (n =? 92)%N then
        match rest with
        | String e rest1 =>
            if (N_of_ascii e =? 117)%N then
              match rest1 with
              | String h1 (String h2 (String h3 (String h4 rest2))) =>
                  match hex_value h1, hex_value h2, hex_value h3, hex_value h4 with
                  | Some a, Some b, Some c', Some d =>
                      let v := (((a * 16 + b) * 16 + c') * 16 + d)%N in
                      if (v <? 128)%N then cons_char (ascii_of_N v) (parse_chars rest2)
                      else None
                  | _, _, _, _ => None
                  end
              | _ => None
              end
            else
              match unescape e with
              | Some ch => cons_char ch (parse_chars rest1)
              | None => None
              end
        | EmptyString => None
        end
      else if (n <? 32)%N then None
      else cons_char c (parse_chars rest)
  end.

(** [s] without the prefix [p]. *)
Fixpoint strip (p s : string) : option string :=
  match p, s with
  | EmptyString, _ => Some s
  | String a p', String b s' => if Ascii.eqb a b then strip p' s' else None
  | _, _ => None
  end.

Definition all_digits (s : string) : bool :=
  match s with
  | EmptyString => false
  | _ => String.eqb (fst (span_digits s)) s
  end.

(** The names of an object that JavaScript keeps as they are written:
    no name twice, none made of digits. *)
Fixpoint names_kept (names : list string) : bool :=
  match names with
  | [] => true
  | k :: rest =>
      negb (all_digits k) && negb (existsb (String.eqb k) rest) && names_kept rest
  end.

Fixpoint parse_value (fuel : nat) (s : string) {struct fuel} : option (json * string) :=
  match fuel with
  | O => None
  | S fuel' =>
      match skip_ws s with
      | EmptyString => None
      | String c rest =>
          let n := N_of_ascii c in
          if (n =? 110)%N then
            match strip "ull" rest with Some r => Some (JNull, r) | None => None end
          else if (n =? 116)%N then
            match strip "rue" rest with Some r => Some (JBool true, r) | None => None end
          else if (n =? 102)%N then
            match strip "alse" rest with Some r => Some (JBool false, r) | None => None end
          else if (n =? 34)%N then
            match parse_chars rest with
            | Some (str, r) => Some (JString str, r)
            | None => None
            end
          else if (n =? 91)%N then
            match skip_ws rest with
            | String c2 rest2 =>
                if (N_of_ascii c2 =? 93)%N then Some (JArray [], rest2)
                else match parse_items fuel' rest with
                     | Some (items, r) => Some (JArray items, r)
                     | None => None
                     end
            | EmptyString => None
            end
          else if (n =? 123)%N then
            match skip_ws rest with
            | String c2 rest2 =>
                if (N_of_ascii c2 =? 125)%N then Some (JObject [], rest2)
                else match parse_members fuel' rest with
                     | Some (props, r) =>
                         if names_kept (map fst props) then Some (JObject props, r)
                         else None
                     | None => None
                     end
            | EmptyString => None
            end
          else
            match parse_number (String c rest) with
            | Some (z, r) => Some (JNumber z, r)
            | None => None
            end
      end
  end
with parse_items (fuel : nat) (s : string) {struct fuel} : option (list json * string) :=
  match fuel with
  | O => None
  | S fuel' =>
      match parse_value fuel' s with
      | None => None
      | Some (x, s1) =>
          match skip_ws s1 with
          | String c rest =>
              if (N_of_ascii c =? 44)%N then
                match parse_items fuel' rest with
                | Some (items, r) => Some (x :: items, r)
                | None => None
                end
              else if (N_of_ascii c =? 93)%N then Some ([x], rest)
              else None
          | EmptyString => None
          end
      end
  end
with parse_members (fuel : nat) (s : string) {struct fuel}
  : option (list (string * json) * string) :=
  match fuel with
  | O => None
  | S fuel' =>
      match skip_ws s with
      | String q s0 =>
          if negb (N_of_ascii q =? 34)%N then None
          else
            match parse_chars s0 with
            | None => None
            | Some (k, s1) =>
                match skip_ws s1 with
                | String colon s2 =>
                    if negb (N_of_ascii colon =? 58)%N then None
                    else
                      match parse_value fuel' s2 with
                      | None => None
                      | Some (v, s3) =>
                          match skip_ws s3 with
                          | String c rest =>
                              if (N_of_ascii c =? 44)%N then
                                match parse_members fuel' rest with
                                | Some (props, r) => Some ((k, v) :: props, r)
                                | None => None
                                end
                              else if (N_of_ascii c =? 125)%N then Some ([(k, v)], rest)
                              else None
                          | EmptyString => None
                          end
                      end
                | EmptyString => None
                end
            end
      | EmptyString => None
      end
  end.

(** [JSON.parse(text)] *)
Definition JSON_parse (text : string) : option json :=
  match parse_value (S (String.length text)) text with
  | Some (v, rest) =>
      match skip_ws rest with
      | EmptyString => Some v
      | _ => None
      end
  | None => None
  end.

(** The values [JSON_parse] yields: safe integers, and objects whose
    names are kept as written. *)
Fixpoint safe (v : json) : bool :=
  match v with
  | JNull | JBool _ | JString _ => true
  | JNumber n => (Z.abs n <=? Z.of_N MAX_SAFE_INTEGER)%Z
  | JArray items => forallb safe items
  | JObject props =>
      names_kept (map fst props) && forallb (fun kv => safe (snd kv)) props
  end.

(** A bound on the fuel [parse_value] needs for the text of [v]. *)
Fixpoint size (v : json) : nat :=
  match v with
  | JArray items => S (fold_right (fun x acc => S (size x + acc)) 0%nat items)
  | JObject props =>
      S (fold_right (fun kv acc => S (size (snd kv) + acc)) 0%nat props)
  | _ => 1%nat
  end.

(** The string is made of spaces: an indentation. *)
Fixpoint blank (s : string) : bool :=
  match s with
  | String c rest => (N_of_ascii c =? 32)%N && blank rest
  | EmptyString => true
  end.

(** The text of [v] at any indentation, followed by [rest], parses as
    [v] and leaves [rest]. *)
Definition parses_back (v : json) : Prop :=
  forall (fuel : nat) (indent rest : string),
    (size v <= fuel)%nat ->
    blank indent = true ->
    continues_number rest = false ->
    parse_value fuel (SerializeJSONProperty "  " indent v ++ rest) = Some (v, rest).

(** The first character of the text of a value: no white space, and
    not a closing bracket. *)
Definition opens_value (c : ascii) : Prop :=
  is_ws c = false
  /\ (N_of_ascii c =? 93)%N = false /\ (N_of_ascii c =? 125)%N = false.

(** *** URLSearchParams *)

(** The byte serializer of application/x-www-form-urlencoded. *)
Definition urlencode_byte (c : ascii) : string :=
  let n := N_of_ascii c in
  if ((48 <=? n) && (n <=? 57) || (65 <=? n) && (n <=? 90)
      || (97 <=? n) && (n <=? 122)
      || (n =? 42) || (n =? 45) || (n =? 46) || (n =? 95))%N
  then String c EmptyString
  else if (n =? 32)%N then "+"
  else
    let hex d := ascii_of_N (if (d <? 10)%N then 48 + d else 55 + d)%N in
    String "%"%char (String (hex (n / 16)%N) (String (hex (n mod 16)%N) EmptyString)).

Fixpoint urlencode (s : string) : string :=
  match s with
  | EmptyString => EmptyString
  | String c rest => urlencode_byte c ++ urlencode rest
  end.

(** [new URLSearchParams(init).toString()], [init] being the own
    properties of the object in order. *)
Definition URLSearchParams_toString (init : list (string * string)) : string :=
  join "&" (map (fun kv => urlencode (fst kv) ++ "=" ++ urlencode (snd kv)) init).

(** The number of times the character [c] occurs in [s]. *)
Fixpoint occurrences (c : ascii) (s : string) : nat :=
  match s with
  | EmptyString => 0%nat
  | String c' rest => ((if Ascii.eqb c' c then 1 else 0) + occurrences c rest)%nat
  end.

(** Every character of [s] satisfies [p]. *)
Fixpoint all_chars (p : ascii -> bool) (s : string) : bool :=
  match s with
  | EmptyString => true
  | String c rest => p c && all_chars p rest
  end.

(** The characters the form serializer leaves or produces in a name or
    a value: letters, digits, [*], [-], [.], [_], the [+] of a space
    and the [%] of an escape. *)
Definition form_char (c : ascii) : bool :=
  let n := N_of_ascii c in
  ((48 <=? n) && (n <=? 57) || (65 <=? n) && (n <=? 90)
   || (97 <=? n) && (n <=? 122)
   || (n =? 42) || (n =? 45) || (n =? 46) || (n =? 95)
   || (n =? 43) || (n =? 37))%N.

(** The characters of a serialized form: those of the names and the
    values, [=] between a name and its value and [&] between two
    fields. *)
Definition query_char (c : ascii) : bool :=
  form_char c || Ascii.eqb c "&" || Ascii.eqb c "=".

(** *** Property reads on values of any kind, and lodash's [_.get] *)

(** What a property read yields: [undefined], a value read from JSON,
    or one UTF-16 code unit of a string, the string of length one that
    an index of a string reads. *)
Inductive operand : Type :=
  | Undefined
  | Json (v : json)
  | CodeUnit.

Definition of_value (v : value) : operand :=
  match v with
  | Some j => Json j
  | None => Undefined
  end.

(** A property key: a name, or an array index (the key ['0'] and the
    index [0] are the same key). *)
Inductive key : Type :=
  | Name (n : string)
  | Index (i : nat).

Definition key_text (k : key) : string :=
  match k with
  | Name n => n
  | Index i => pretty i
  end.

(** [null] and [undefined], the values with no properties. *)
Definition nullish (o : operand) : bool :=
  match o with
  | Undefined | Json JNull => true
  | _ => false
  end.

(** The length of a string in UTF-16 code units, from its UTF-8 bytes:
    a continuation byte adds none, the first byte of a character one,
    or two when the character is beyond U+FFFF. *)
Definition utf16_units (c : ascii) : nat :=
  let n := N_of_ascii c in
  if (n <? 128)%N then 1%nat
  else if (n <? 192)%N then 0%nat
  else if (n <? 240)%N then 1%nat
  else 2%nat.

Fixpoint utf16_length (s : string) : nat :=
  match s with
  | EmptyString => 0%nat
  | String c rest => (utf16_units c + utf16_length rest)%nat
  end.

(** [object[key]] for an [object] that is neither [null] nor
    [undefined] and the keys [fetchURIs] reads ([rest], [security],
    [extension], [valueUri] and the indices), none of which a prototype
    defines: an own property of an object, an element of an array, a
    code unit of a string. *)
Definition member (object : operand) (k : key) : operand :=
  match object, k with
  | Json (JObject props), _ => of_value (own props (key_text k))
  | Json (JArray items), Index i => of_value (items !! i)
  | Json (JString s), Index i =>
      if (i <? utf16_length s)%nat then CodeUnit else Undefined
  | CodeUnit, Index O => CodeUnit
  | _, _ => Undefined
  end.

Definition cannot_read_undefined (k : string) : JsError :=
  TypeError ("Cannot read properties of undefined (reading '" ++ k ++ "')").

(** [object[key]] in the program: reading from [null] or [undefined]
    throws. *)
Definition read (object : operand) (k : key) : completion operand :=
  match object with
  | Undefined => Throw (cannot_read_undefined (key_text k))
  | Json JNull => Throw (cannot_read (key_text k))
  | _ => Normal (member object k)
  end.

(** lodash's [baseGet]: [object = object[key]] along the path while
    [object != null]; the value reached counts when the whole path has
    been walked. *)
Fixpoint baseGet (object : operand) (path : list key) : operand :=
  match path with
  | [] => object
  | k :: rest =>
      if nullish object then Undefined else baseGet (member object k) rest
  end.

(** [_.get(object, text)] for a path [text] with a dot in it, which
    [stringToPath] splits into [path].  The text itself is the path
    when it is a property of the object ([isKey]: [text in
    Object(object)]), which only an object read from JSON can have. *)
Definition lodash_get (object : json) (text : string) (path : list key) : operand :=
  if nullish (Json object) then Undefined
  else
    match object with
    | JObject props =>
        match own props text with
        | Some v => Json v
        | None => baseGet (Json object) path
        end
    | _ => baseGet (Json object) path
    end.

(** *** Base64, as [atob] reads it after [-] and [_] have been replaced *)

(** The six bits of a character of the alphabet, the variants of the
    URL-safe alphabet included. *)
Definition base64_value (c : ascii) : option N :=
  let n := N_of_ascii c in
  if ((65 <=? n) && (n <=? 90))%N then Some (n - 65)%N
  else if ((97 <=? n) && (n <=? 122))%N then Some (n - 71)%N
  else if ((48 <=? n) && (n <=? 57))%N then Some (n + 4)%N
  else if ((n =? 45) || (n =? 43))%N then Some 62%N
  else if ((n =? 95) || (n =? 47))%N then Some 63%N
  else None.

Fixpoint base64_values (s : string) : option (list N) :=
  match s with
  | EmptyString => Some []
  | String c rest =>
      match base64_value c, base64_values rest with
      | Some v, Some vs => Some (v :: vs)
      | _, _ => None
      end
  end.

(** Four characters give three bytes; of a last group of three or two
    characters the bits that fill no byte are dropped; a last group of
    one character is an error. *)
Fixpoint base64_bytes (vs : list N) : option string :=
  match vs with
  | [] => Some EmptyString
  | [_] => None
  | [a; b] =>
      let n := (a * 64 + b)%N in
      Some (String (ascii_of_N (n / 16)) EmptyString)
  | [a; b; c] =>
      let n := ((a * 64 + b) * 64 + c)%N in
      Some (String (ascii_of_N (n / 1024))
              (String (ascii_of_N ((n / 4) mod 256)) EmptyString))
  | a :: b :: c :: d :: rest =>
      match base64_bytes rest with
      | Some bytes =>
          let n := (((a * 64 + b) * 64 + c) * 64 + d)%N in
          Some (String (ascii_of_N (n / 65536))
                  (String (ascii_of_N ((n / 256) mod 256))
                     (String (ascii_of_N (n mod 256)) bytes)))
      | None => None
      end
  end.

(** The bytes a text of the URL-safe alphabet without padding stands
    for. *)
Definition base64UrlDecode (s : string) : option string :=
  match base64_values s with
  | Some vs => base64_bytes vs
  | None => None
  end.

End Js.

(** ** The world the request handlers act on *)

Module World.
Import Js.

(** [fetch(url, { method, headers, body })]. *)
Record FetchRequest : Type := mkRequest {
  url : value;
  method : string;
  headers : list (string * string);
  body : option string
}.

(** The [Response] a fetch resolves with: [body_text] is the body as
    text, [body_json] how [json()] completes, [body_failure] the
    rejection of [text()] when the body cannot be read (the stream
    breaks, the body has been used). *)
Record Response : Type := {
  status : Z;
  body_text : string;
  body_json : completion json;
  body_failure : option JsError
}.

(** A response whose body can be read. *)
Definition mkResponse (status : Z) (body_text : string) (body_json : completion json)
  : Response :=
  Build_Response status body_text body_json None.

(** [await res.text()] *)
Definition Response_text (r : Response) : completion string :=
  match body_failure r with
  | Some e => Throw e
  | None => Normal (body_text r)
  end.

(** [res.ok]: the status is in the range 200 to 299. *)
Definition ok (r : Response) : bool :=
  (200 <=? status r) && (status r <=? 299).

Inductive FetchOutcome : Type :=
  | Rejected (e : JsError)       (* no response: the promise rejects *)
  | Resolved (r : Response).

(** What one run of a request handler reads from outside. *)
Record Env : Type := mkEnv {
  clock : nat -> Z;                              (* successive clock readings *)
  uuidv4 : string;                               (* the UUID drawn, if one is *)
  network : nat -> FetchRequest -> FetchOutcome; (* outcome of the k-th fetch *)
  jwtDecode : value -> completion json;          (* the jwt-decode library *)
  disk_error : string -> option JsError          (* a path that cannot be written *)
}.

(** The effects of a handler, in the order they happen. *)
Inductive Event : Type :=
  | EFetch (req : FetchRequest)
  | EMkdir (path : string)
  | EWriteFile (path content : string)
  | EWriteHead (code : Z) (hs : list (string * string))
  | EEnd (payload : option string)
  | EClose.

Record World : Type := mkWorld {
  stateStore : gmap string Z;      (* state-manager.js *)
  authUri : value;                 (* oauth.js: let authUri, tokenUri *)
  tokenUri : value;
  files : gmap string string;      (* the disk: files written, directories *)
  dirs : gset string;
  res_head : option Z;             (* the response: status line sent *)
  res_body : option (option string); (* the response: ended, with this body *)
  listening : bool;                (* the HTTP server accepts connections *)
  ticks : nat;                     (* clock readings taken *)
  fetched : nat;                   (* fetches issued *)
  trace : list Event
}.

(** A computation of a handler: it may change the world and completes
    normally or by throwing. *)
Definition M (A : Type) : Type := World -> completion A * World.

Definition ret {A} (a : A) : M A := fun w => (Normal a, w).

Definition bind {A B} (m : M A) (k : A -> M B) : M B := fun w =>
  match m w with
  | (Normal a, w') => k a w'
  | (Throw e, w') => (Throw e, w')
  end.

Definition throw {A} (e : JsError) : M A := fun w => (Throw e, w).

(** [try { body } catch (error) { handler }] *)
Definition try_catch {A} (body : M A) (handler : JsError -> M A) : M A := fun w =>
  match body w with
  | (Normal a, w') => (Normal a, w')
  | (Throw e, w') => handler e w'
  end.

(** A pure evaluation inside a handler. *)
Definition lift {A} (c : completion A) : M A := fun w => (c, w).

(** A computation that depends on the current world. *)
Definition reading {A} (f : World -> M A) : M A := fun w => f w w.

Declare Scope handler_scope.
Delimit Scope handler_scope with handler.
Notation "x <- m ;; k" := (bind m (fun x => k))
  (at level 100, m at next level, right associativity) : handler_scope.
Notation "m ;; k" := (bind m (fun _ => k))
  (at level 100, right associativity) : handler_scope.

Definition log (ev : Event) (w : World) : list Event := trace w ++ [ev].

(** Every event [m] adds to the trace satisfies [P]. *)
Definition emits {A} (P : Event -> Prop) (m : M A) : Prop :=
  forall w, exists evs, trace (m w).2 = (trace w ++ evs)%list /\ Forall P evs.

(** [m] leaves the component [f] of the world as it is. *)
Definition keeps {A X} (f : World -> X) (m : M A) : Prop :=
  forall w, f (m w).2 = f w.

(** [m] maintains the property [I] of the world. *)
Definition preserves {A} (I : World -> Prop) (m : M A) : Prop :=
  forall w, I w -> I (m w).2.

(** [new Date()], [Date.now()] *)
Definition now (env : Env) : M Z := fun w =>
  (Normal (clock env (ticks w)),
   mkWorld (stateStore w) (authUri w) (tokenUri w) (files w) (dirs w)
           (res_head w) (res_body w) (listening w) (S (ticks w)) (fetched w)
           (trace w)).

(** [await fetch(..)] *)
Definition fetch (env : Env) (req : FetchRequest) : M Response := fun w =>
  let w' := mkWorld (stateStore w) (authUri w) (tokenUri w) (files w) (dirs w)
                    (res_head w) (res_body w) (listening w) (ticks w)
                    (S (fetched w)) (log (EFetch req) w) in
  match network env (fetched w) req with
  | Rejected e => (Throw e, w')
  | Resolved r => (Normal r, w')
  end.

(** [fs.existsSync(path)] *)
Definition existsSync (path : string) : M bool := fun w =>
  (Normal (bool_decide (path ∈ dirs w)), w).

(** [fs.mkdirSync(path)] *)
Definition mkdirSync (env : Env) (path : string) : M unit := fun w =>
  match disk_error env path with
  | Some e => (Throw e, w)
  | None =>
      (Normal tt,
       mkWorld (stateStore w) (authUri w) (tokenUri w) (files w)
               ({[path]} ∪ dirs w) (res_head w) (res_body w) (listening w)
               (ticks w) (fetched w) (log (EMkdir path) w))
  end.

(** [fs.writeFileSync(path, content)] *)
Definition writeFileSync (env : Env) (path content : string) : M unit := fun w =>
  match disk_error env path with
  | Some e => (Throw e, w)
  | None =>
      (Normal tt,
       mkWorld (stateStore w) (authUri w) (tokenUri w)
               (<[path := content]> (files w)) (dirs w) (res_head w)
               (res_body w) (listening w) (ticks w) (fetched w)
               (log (EWriteFile path content) w))
  end.

(** The characters a header value may hold: a tab, 0x20 to 0x7e, and
    U+0080 to U+00FF, whose UTF-8 bytes are 0x80 to 0xc3. *)
Definition header_byte_ok (c : ascii) : bool :=
  let n := N_of_ascii c in
  ((n =? 9) || (32 <=? n) && (n <=? 126) || (128 <=? n) && (n <=? 195))%N.

Fixpoint header_value_ok (s : string) : bool :=
  match s with
  | EmptyString => true
  | String c rest => header_byte_ok c && header_value_ok rest
  end.

Definition ERR_HTTP_HEADERS_SENT : JsError :=
  mkError "Error" None "Cannot write headers after they are sent to the client".

Definition ERR_INVALID_CHAR (header : string) : JsError :=
  mkError "TypeError" None
    ("Invalid character in header content [" ++ dq ++ header ++ dq ++ "]").

(** [res.writeHead(code, headers)]: throws once the head has been
    written, and on a header value with a forbidden character. *)
Definition writeHead (code : Z) (hs : list (string * string)) : M unit := fun w =>
  match res_head w with
  | Some _ => (Throw ERR_HTTP_HEADERS_SENT, w)
  | None =>
      match List.find (fun h => negb (header_value_ok (snd h))) hs with
      | Some h => (Throw (ERR_INVALID_CHAR (fst h)), w)
      | None =>
          (Normal tt,
           mkWorld (stateStore w) (authUri w) (tokenUri w) (files w) (dirs w)
                   (Some code) (res_body w) (listening w) (ticks w)
                   (fetched w) (log (EWriteHead code hs) w))
      end
  end.

(** [res.end(payload)] *)
Definition end_ (payload : option string) : M unit := fun w =>
  (Normal tt,
   mkWorld (stateStore w) (authUri w) (tokenUri w) (files w) (dirs w)
           (res_head w) (Some payload) (listening w) (ticks w) (fetched w)
           (log (EEnd payload) w)).

(** [server.close(..)] *)
Definition server_close : M unit := fun w =>
  (Normal tt,
   mkWorld (stateStore w) (authUri w) (tokenUri w) (files w) (dirs w)
           (res_head w) (res_body w) false (ticks w) (fetched w)
           (log EClose w)).

(** The two functions of state-manager.js on the world. *)
Definition generateState (env : Env) : M string := fun w =>
  let '(state, store) :=
    StateManager.generateState (uuidv4 env) (clock env (ticks w)) (stateStore w) in
  (Normal state,
   mkWorld store (authUri w) (tokenUri w) (files w) (dirs w) (res_head w)
           (res_body w) (listening w) (S (ticks w)) (fetched w) (trace w)).

(** The clock is read on the last line of [validateState] only. *)
Definition validateState (env : Env) (state : string) : M bool := fun w =>
  let '(valid, store) :=
    StateManager.validateState state (clock env (ticks w)) (stateStore w) in
  let found := negb (StateManager.falsy (StateManager.js_get (stateStore w) state)) in
  (Normal valid,
   mkWorld store (authUri w) (tokenUri w) (files w) (dirs w) (res_head w)
           (res_body w) (listening w)
           (if found then S (ticks w) else ticks w) (fetched w) (trace w)).

(** The assignments to the module variables [authUri] and [tokenUri]. *)
Definition set_authUri (v : value) : M unit := fun w =>
  (Normal tt,
   mkWorld (stateStore w) v (tokenUri w) (files w) (dirs w) (res_head w)
           (res_body w) (listening w) (ticks w) (fetched w) (trace w)).

Definition set_tokenUri (v : value) : M unit := fun w =>
  (Normal tt,
   mkWorld (stateStore w) (authUri w) v (files w) (dirs w) (res_head w)
           (res_body w) (listening w) (ticks w) (fetched w) (trace w)).

End World.

(** ** src/oauth.js, src/pages/authSuccess.js, src/pages/home.js *)

Module Oauth.
Import Js World.

(** One entry of test-requests.json: a resource name and its search
    parameters. *)
Record ResourceRequest : Type := mkResourceRequest {
  resource : string;
  params : list (string * string)
}.

(** [process.env] as the modules read it ([None]: the variable is not
    set), and the content of test-requests.json. *)
Record Config : Type := mkConfig {
  env_EPIC_BASE_URL : option string;
  env_CLIENT_ID : option string;
  env_CLIENT_SECRET : option string;
  env_HOST : option string;
  env_PORT : option string;
  env_CALLBACK_PATH : option string;
  env_INITIALIZATION_PATH : option string;
  env_SCOPE : option string;
  env_FETCH_PROFILE : option string;
  env_FETCH_ADDITIONAL_RESOURCES : option string;
  env_SHOW_TOKEN_IN_BROWSER : option string;
  requests : list ResourceRequest
}.

(** The parsed request: [url.parse(req.url, true)].  The query object
    has no prototype; a parameter given several times is held as the
    text its array converts to. *)
Record Request : Type := mkReq {
  pathname : option string;
  query : gmap string string
}.

Section Handlers.

Context (cfg : Config) (env : Env).

Local Open Scope handler_scope.

Definition HOST : string := default "localhost" (env_HOST cfg).
Definition PORT : string := default "4005" (env_PORT cfg).
Definition SCOPE : string := default "openid fhirUser profile" (env_SCOPE cfg).
Definition REDIRECT_URI : string :=
  "http://" ++ HOST ++ ":" ++ PORT ++ show (env_CALLBACK_PATH cfg).
Definition FETCH_PROFILE : bool :=
  bool_decide (env_FETCH_PROFILE cfg = Some "true").
Definition FETCH_ADDITIONAL_RESOURCES : bool :=
  bool_decide (env_FETCH_ADDITIONAL_RESOURCES cfg = Some "true").
Definition SHOW_TOKEN_IN_BROWSER : bool :=
  bool_decide (env_SHOW_TOKEN_IN_BROWSER cfg = Some "true").
Definition RESPONSE_DIRECTORY : string := "./responses".

(** [...CLIENT_SECRET && { secret: CLIENT_SECRET }] *)
Definition secret_entry : list (string * string) :=
  if truthy_string (env_CLIENT_SECRET cfg)
  then [("secret", show (env_CLIENT_SECRET cfg))] else [].

(** *** pages/home.js *)
Definition homePage : string :=
  nl ++ "<!DOCTYPE html>" ++ nl ++ "<h1>Welcome!</h1>" ++ nl
  ++ "<p>To authenticate with Epic, please click the button below:</p>" ++ nl
  ++ "<button onclick=" ++ dq ++ "location.href='"
  ++ show (env_INITIALIZATION_PATH cfg) ++ "'" ++ dq ++ ">" ++ nl
  ++ "Authenticate with Epic" ++ nl ++ "</button>" ++ nl.

(** *** pages/authSuccess.js *)
Definition successPage (token : json) (profile : value) : completion string :=
  match get (cannot_read "id_token") token "id_token" with
  | Throw e => Throw e
  | Normal id_token =>
      match jwtDecode env id_token with
      | Throw e => Throw e
      | Normal decodedIDToken =>
          let tokenHTML :=
            nl ++ "<h2>Review token below</h2>" ++ nl ++ "<pre>" ++ nl
            ++ JSON_stringify_2 token ++ nl ++ "</pre>" ++ nl ++ nl
            ++ "<h3>Decoded ID Token</h3>" ++ nl ++ "<pre>" ++ nl
            ++ JSON_stringify_2 decodedIDToken ++ nl ++ "</pre>" ++ nl in
          let profileHtml :=
            nl ++ "<h2>Profile Information</h2>" ++ nl ++ "<pre>" ++ nl
            ++ show (JSON_stringify_2_value profile) ++ nl ++ "</pre>" ++ nl in
          Normal
            (nl ++ "<!DOCTYPE html>" ++ nl
             ++ "<h1>Authentication successful!</h1>" ++ nl
             ++ (if SHOW_TOKEN_IN_BROWSER then tokenHTML else EmptyString) ++ nl
             ++ (if truthy profile then profileHtml else EmptyString) ++ nl)
      end
  end.

(** *** requestEpicAuthorization(res, req) *)
Definition requestEpicAuthorization (req : Request) : M unit :=
  let launch := query req !! "launch" in
  let iss := query req !! "iss" in
  let scope := if truthy_string launch then SCOPE ++ " launch" else SCOPE in
  state <- World.generateState env ;;
  let params := URLSearchParams_toString
    ([ ("response_type", "code");
       ("client_id", show (env_CLIENT_ID cfg));
       ("scope", scope);
       ("redirect_uri", REDIRECT_URI);
       ("state", state) ]
     ++ (if truthy_string iss then [("aud", show iss)] else [])
     ++ (if truthy_string launch then [("launch", show launch)] else [])
     ++ secret_entry) in
  baseUrl <- reading (fun w => lift (ToString (authUri w))) ;;
  let authUrl := baseUrl ++ "?" ++ params in
  writeHead 302 [("Location", authUrl)] ;;
  end_ None.

(** *** requestProfile(token) *)
Definition profile_request (url : value) (bearer : string) : FetchRequest :=
  mkRequest url "GET"
    [ ("Content-Type", "application/x-www-form-urlencoded");
      ("Accept", "application/json");
      ("Authorization", "Bearer " ++ bearer) ] None.

Definition requestProfile (token : json) : M value :=
  id_token <- lift (get (cannot_destructure "id_token" "token") token "id_token") ;;
  access_token <- lift (get (cannot_destructure "access_token" "token") token "access_token") ;;
  decoded <- lift (jwtDecode env id_token) ;;
  url <- lift (get (cannot_destructure "fhirUser" "jwtDecode(...)") decoded "fhirUser") ;;
  bearer <- lift (ToString access_token) ;;
  res <- fetch env (profile_request url bearer) ;;
  if negb (ok res) then
    (* the line for the log is built first: it awaits [res.text()] *)
    _ <- lift (Response_text res) ;;
    ret None
  else
    profile <- lift (body_json res) ;;
    ret (Some profile).

(** [Bluebird.each(items, iterator)]: one item after the other, the
    next one once the promise of the previous one is fulfilled; a
    rejection ends the iteration. *)
Fixpoint Bluebird_each {A} (items : list A) (iterator : A -> M unit) : M unit :=
  match items with
  | [] => ret tt
  | x :: rest => iterator x ;; Bluebird_each rest iterator
  end.

(** The request the iterator of [testRequests] sends for an entry. *)
Definition resource_request (bearer : string) (request : ResourceRequest) : FetchRequest :=
  let encodedParams := URLSearchParams_toString (params request) in
  let url := show (env_EPIC_BASE_URL cfg) ++ "/" ++ resource request
             ++ "?" ++ encodedParams in
  mkRequest (Some (JString url)) "GET"
    [ ("Accept", "application/json");
      ("Authorization", "Bearer " ++ bearer) ] None.

(** The file a response is written to. *)
Definition response_file (t : Z) (request : ResourceRequest) : string :=
  RESPONSE_DIRECTORY ++ "/" ++ pretty t ++ "-" ++ resource request ++ ".json".

(** The iterator of [testRequests]. *)
Definition testRequest (access_token : value) (request : ResourceRequest) : M unit :=
  bearer <- lift (ToString access_token) ;;
  res <- fetch env (resource_request bearer request) ;;
  if negb (ok res) then
    (* the arguments of the log call are evaluated first: the last
       one awaits [res.text()] *)
    _ <- lift (Response_text res) ;;
    ret tt
  else
    jsonRes <- lift (body_json res) ;;
    t <- now env ;;
    writeFileSync env (response_file t request) (JSON_stringify_2 jsonRes).

(** *** testRequests(token) *)
Definition testRequests (token : json) : M unit :=
  access_token <- lift (get (cannot_destructure "access_token" "token") token "access_token") ;;
  present <- existsSync RESPONSE_DIRECTORY ;;
  (if negb present then mkdirSync env RESPONSE_DIRECTORY else ret tt) ;;
  Bluebird_each (requests cfg) (testRequest access_token).

(** The names bound where line 126 of oauth.js is evaluated: the
    parameters and locals of [exchangeCodeForToken] and the imports,
    constants, variables and functions of the module. *)
Definition bindings_at_line_126 : list string :=
  [ "req"; "res"; "parsedUrl"; "returnedState"; "code"; "error";
    "errorDescription";
    "Bluebird"; "fs"; "jwtDecode"; "_"; "url"; "logger"; "successPage";
    "generateState"; "validateState"; "requests";
    "EPIC_BASE_URL"; "CLIENT_ID"; "CLIENT_SECRET"; "HOST"; "PORT";
    "CALLBACK_PATH"; "SCOPE"; "REDIRECT_URI"; "METADATA_URL"; "FETCH_PROFILE";
    "FETCH_ADDITIONAL_RESOURCES"; "RESPONSE_DIRECTORY"; "authUri"; "tokenUri";
    "fetchURIs"; "requestEpicAuthorization"; "exchangeCodeForToken";
    "requestProfile"; "testRequests" ].

(** The error line 126 means to throw:
    [new Error(`Invalid state parameter: expected ${state}, but got
    ${returnedState}`, { cause: 'Invalid State' })], for a text
    [expected] of [state]. *)
Definition invalid_state_error (expected : string) (returnedState : option string) : JsError :=
  new_Error
    (Some ("Invalid state parameter: expected " ++ expected ++ ", but got "
           ++ show returnedState))
    (Some "Invalid State").

(** Reading an identifier that is bound nowhere (and is no property of
    the global object) throws. *)
Definition read_unbound {A} (ident : string) : M A :=
  throw (ReferenceError_not_defined ident).

(** The request to the token endpoint (lines 140 to 156). *)
Definition token_request (tokenUri : value) (code : option string) : FetchRequest :=
  let baseUrl := tokenUri in
  let params := URLSearchParams_toString
    ([ ("grant_type", "authorization_code");
       ("code", show code);
       ("redirect_uri", REDIRECT_URI);
       ("client_id", show (env_CLIENT_ID cfg)) ]
     ++ secret_entry) in
  mkRequest baseUrl "POST"
    [("Content-Type", "application/x-www-form-urlencoded")] (Some params).

(** Lines 167 to 179: the optional profile, the success page, the
    optional additional requests. *)
Definition deliver (token : json) : M unit :=
  profile <- (if FETCH_PROFILE then requestProfile token else ret None) ;;
  writeHead 200 [("Content-Type", "text/html")] ;;
  page <- lift (successPage token profile) ;;
  end_ (Some page) ;;
  if FETCH_ADDITIONAL_RESOURCES then testRequests token else ret tt.

(** Lines 158 to 165: the token response is checked, parsed and saved. *)
Definition receive (tokenResponse : Response) : M unit :=
  if negb (ok tokenResponse) then
    text <- lift (Response_text tokenResponse) ;;
    throw (new_Error
             (Some ("Token exchange failed: " ++ pretty (status tokenResponse)
                    ++ " " ++ text))
             (Some "Failed to get token from Epic"))
  else
    token <- lift (body_json tokenResponse) ;;
    writeFileSync env "./token.json" (JSON_stringify_2 token) ;;
    deliver token.

(** The body of the [try] of [exchangeCodeForToken]. *)
Definition exchange (req : Request) : M unit :=
  let returnedState := query req !! "state" in
  let code := query req !! "code" in
  let error := query req !! "error" in
  let errorDescription := query req !! "error_description" in
  valid <- World.validateState env (show returnedState) ;;
  if negb valid then
    (* line 126: the template literal that is the first argument of
       [new Error] reads [state], which is not among
       [bindings_at_line_126]; the error object is never built *)
    read_unbound "state"
  else if truthy_string error then
    throw (new_Error errorDescription error)
  else if negb (truthy_string code) then
    throw (new_Error (Some "Missing authorization code") (Some "Missing code"))
  else
    tokenResponse <- reading (fun w => fetch env (token_request (tokenUri w) code)) ;;
    receive tokenResponse.

(** The [catch] of [exchangeCodeForToken]. *)
Definition report (error : JsError) : M unit :=
  writeHead 500 [] ;;
  end_ (Some (show (cause error) ++ ": " ++ message error)).

(** *** exchangeCodeForToken(req, res) *)
Definition exchangeCodeForToken (req : Request) : M unit :=
  try_catch (exchange req) report.

(** *** fetchURIs() *)
Definition METADATA_URL : string := show (env_EPIC_BASE_URL cfg) ++ "/metadata".

(** [fetch(METADATA_URL, { headers: { Accept: 'application/json' } })]:
    with no method given the request is a GET. *)
Definition metadata_request : FetchRequest :=
  mkRequest (Some (JString METADATA_URL)) "GET" [("Accept", "application/json")] None.

(** The path ['rest[0].security.extension[0].extension'] and the keys
    it is split into. *)
Definition extension_path_text : string := "rest[0].security.extension[0].extension".

Definition extension_path : list key :=
  [Name "rest"; Index 0; Name "security"; Name "extension"; Index 0; Name "extension"].

(** [extensions[i].valueUri]: the value read is a property of an object
    read from JSON, or [undefined] (of a number, a boolean, a string or
    an array, none of which has such a property). *)
Definition valueUri_at (extensions : operand) (i : nat) : completion value :=
  match read extensions (Index i) with
  | Throw e => Throw e
  | Normal entry =>
      match read entry (Name "valueUri") with
      | Throw e => Throw e
      | Normal (Json v) => Normal (Some v)
      | Normal _ => Normal None
      end
  end.

(** The response is parsed whatever its status is.  The two lines for
    the log, [`Authorization URI: ${authUri}`] and [`Token URI:
    ${tokenUri}`], are built after the assignments, whatever the level
    of the logger is: the conversion of a URI to text can throw. *)
Definition fetchURIs : M unit :=
  metadataRes <- fetch env metadata_request ;;
  metadata <- lift (body_json metadataRes) ;;
  let extensions := lodash_get metadata extension_path_text extension_path in
  first <- lift (valueUri_at extensions 0) ;;
  set_authUri first ;;
  second <- lift (valueUri_at extensions 1) ;;
  set_tokenUri second ;;
  _ <- reading (fun w => lift (ToString (authUri w))) ;;
  _ <- reading (fun w => lift (ToString (tokenUri w))) ;;
  ret tt.

End Handlers.

(** The state parameter of a callback names no pending token: the
    store has no slot for it (the parameter is absent or unknown), or
    the slot is older than the TTL when the clock is read (expired). *)
Definition state_invalid (env : Env) (w : World) (returnedState : option string) : Prop :=
  let key := show returnedState in
  stateStore w !! key = None
  \/ exists t, stateStore w !! key = Some t
             /\ StateManager.STATE_TTL_MS < clock env (ticks w) - t.

(** The state parameter names a pending token that has not expired. *)
Definition state_valid (env : Env) (w : World) (returnedState : option string) : Prop :=
  exists t, stateStore w !! show returnedState = Some t
            /\ clock env (ticks w) - t <= StateManager.STATE_TTL_MS.

(** The event is a POST request. *)
Definition is_post (ev : Event) : bool :=
  match ev with
  | EFetch req => String.eqb (method req) "POST"
  | _ => false
  end.

(** The world after the state check of a callback. *)
Definition checked (env : Env) (key : string) (w : World) : World :=
  (World.validateState env key w).2.

(** The events that can follow the saving of the token: GET requests,
    the directory and the files of the responses, the success head and
    the end of the response. *)
Definition follows_token (cfg : Config) (ev : Event) : Prop :=
  match ev with
  | EFetch req => method req = "GET"
  | EMkdir path => path = RESPONSE_DIRECTORY
  | EWriteFile path _ => exists t request, path = response_file t request
  | EWriteHead code _ => code = 200
  | EEnd _ => True
  | EClose => False
  end.

(** The request [requestProfile] sends for a token, when it gets as far
    as sending one. *)
Definition profile_request_of (env : Env) (token : json) : option FetchRequest :=
  id_token ← property token "id_token";
  access_token ← property token "access_token";
  decoded ← (match jwtDecode env id_token with Normal d => Some d | Throw _ => None end);
  url ← property decoded "fhirUser";
  bearer ← (match ToString access_token with Normal b => Some b | Throw _ => None end);
  Some (profile_request url bearer).

(** The token exchange of a callback succeeds with [token]: the state
    is valid, there is no error and there is a code, the token endpoint
    answers with [tokenResponse], whose status is from 200 to 299 and
    whose body parses as [token], and token.json can be written. *)
Definition exchange_succeeds (cfg : Config) (env : Env) (req : Request)
    (w : World) (tokenResponse : Response) (token : json) : Prop :=
  state_valid env w (query req !! "state")
  /\ truthy_string (query req !! "error") = false
  /\ truthy_string (query req !! "code") = true
  /\ network env (fetched w)
              (token_request cfg (tokenUri w) (query req !! "code"))
     = Resolved tokenResponse
  /\ ok tokenResponse = true
  /\ body_json tokenResponse = Normal token
  /\ disk_error env "./token.json" = None.

(** The token record on the disk. *)
Definition token_record (w : World) : option string :=
  files w !! "./token.json".

(** The world once the token of a successful exchange has been saved. *)
Definition saved (cfg : Config) (env : Env) (req : Request) (w : World)
    (token : json) : World :=
  let w1 := checked env (show (query req !! "state")) w in
  mkWorld (stateStore w1) (authUri w1) (tokenUri w1)
          (<["./token.json" := JSON_stringify_2 token]> (files w1)) (dirs w1)
          (res_head w1) (res_body w1) (listening w1) (ticks w1)
          (S (fetched w1))
          (trace w1 ++ [EFetch (token_request cfg (tokenUri w1) (query req !! "code"));
                        EWriteFile "./token.json" (JSON_stringify_2 token)]).

(** The [k]-th request of the handler is the one for the resource
    [request] and gets an answer; [chunk] is what the iterator of
    [testRequests] does with it: the request alone when the status is
    outside 200 to 299, the request and the file of the parsed body
    otherwise. *)
Definition handled (cfg : Config) (env : Env) (bearer : string) (k : nat)
    (request : ResourceRequest) (chunk : list Event) : Prop :=
  exists res,
    network env k (resource_request cfg bearer request) = Resolved res
    /\ if ok res
       then exists jsonRes t,
              body_json res = Normal jsonRes
              /\ chunk = [ EFetch (resource_request cfg bearer request);
                           EWriteFile (response_file t request)
                                      (JSON_stringify_2 jsonRes) ]
       else chunk = [ EFetch (resource_request cfg bearer request) ].

(** Every request for the resources [items], the first of them being
    the [k]-th request of the handler, is answered (with any status);
    an answer with a status from 200 to 299 has a JSON body, and the
    body of an answer with another status can be read as text. *)
Definition all_answered (cfg : Config) (env : Env) (bearer : string) (k : nat)
    (items : list ResourceRequest) : Prop :=
  forall (i : nat) (request : ResourceRequest),
    items !! i = Some request ->
    exists res,
      network env (k + i) (resource_request cfg bearer request) = Resolved res
      /\ (ok res = true -> exists jsonRes, body_json res = Normal jsonRes)
      /\ (ok res = false -> body_failure res = None).

(** The head and the body of the response, as far as they are sent. *)
Definition response (w : World) : option Z * option (option string) :=
  (res_head w, res_body w).

(** The requests of a list of events, in order. *)
Fixpoint requests_of (evs : list Event) : list FetchRequest :=
  match evs with
  | [] => []
  | EFetch req :: rest => req :: requests_of rest
  | _ :: rest => requests_of rest
  end.


(** The events of the [catch] block. *)
Definition reports_error (ev : Event) : Prop :=
  match ev with
  | EWriteHead code _ => code = 500
  | EEnd _ => True
  | _ => False
  end.

End Oauth.

(** ** src/index.js *)

Module Server.
Import Js World Oauth.

(** The branch the [switch (pathname)] of the request listener takes. *)
Inductive route : Type := Home | Initialization | Callback | Unknown.

(** [case] labels are compared with [===], in order; a path that is not
    set in the environment ([undefined]) equals no pathname. *)
Definition dispatch (cfg : Config) (pathname : option string) : route :=
  if bool_decide (pathname = Some EmptyString) then Home
  else if bool_decide (pathname = Some "/") then Home
  else if bool_decide (is_Some pathname ∧ pathname = env_INITIALIZATION_PATH cfg)
       then Initialization
  else if bool_decide (is_Some pathname ∧ pathname = env_CALLBACK_PATH cfg)
       then Callback
  else Unknown.

(** The request listener given to [http.createServer]. *)
Definition listener (cfg : Config) (env : Env) (req : Request) : M unit :=
  (match dispatch cfg (pathname req) with
   | Home =>
       writeHead 200 [("Content-Type", "text/html")] ;;
       end_ (Some (homePage cfg))                  (* return *)
   | Initialization =>
       requestEpicAuthorization cfg env req        (* return *)
   | Callback =>
       exchangeCodeForToken cfg env req ;;         (* break *)
       server_close
   | Unknown =>
       writeHead 404 [] ;;
       end_ (Some "Not Found") ;;
       server_close
   end)%handler.

(** An exception that escapes the listener rejects the promise of the
    async function; nothing handles the rejection, and Node (from
    version 15 on; the README asks for 16 or higher) ends the process.
    The server accepts connections when it listens and the process is
    alive. *)
Definition accepting (outcome : completion unit * World) : bool :=
  match outcome with
  | (Normal _, w) => listening w
  | (Throw _, _) => false
  end.

(** The server as a connection reaches it: listening, with the response
    of the connection not begun. *)
Definition incoming (w : World) : World :=
  mkWorld (stateStore w) (authUri w) (tokenUri w) (files w) (dirs w)
          None None (listening w) (ticks w) (fetched w) (trace w).

End Server.

(** ** src/logger.js *)

Module Logger.
Import Js.

(** [const LogLevels = { ERROR: 'error', INFO: 'info', DEBUG: 'debug' }] *)
Definition ERROR : string := "error".
Definition INFO : string := "info".
Definition DEBUG : string := "debug".

(** [const LOG_LEVEL = process.env.LOG_LEVEL || 'info'] *)
Definition LOG_LEVEL (env_LOG_LEVEL : option string) : string :=
  if truthy_string env_LOG_LEVEL then show env_LOG_LEVEL else "info".

(** [const levels = [LogLevels.ERROR, LogLevels.INFO, LogLevels.DEBUG]] *)
Definition levels : list string := [ERROR; INFO; DEBUG].

(** [String.prototype.toLowerCase] on the letters of ASCII.  The bytes
    of a character outside ASCII are left as they are: no such character
    has a lower case that is a letter of a level name, so a text with
    one is no member of [levels] either way, which is all the program
    asks of the result. *)
Definition lower (c : ascii) : ascii :=
  let n := N_of_ascii c in
  if ((65 <=? n) && (n <=? 90))%N then ascii_of_N (n + 32) else c.

Fixpoint toLowerCase (s : string) : string :=
  match s with
  | EmptyString => EmptyString
  | String c rest => String (lower c) (toLowerCase rest)
  end.

(** [Array.prototype.indexOf]: the first index of [x], or -1. *)
Fixpoint indexOf_from (i : Z) (l : list string) (x : string) : Z :=
  match l with
  | [] => -1
  | y :: rest => if String.eqb y x then i else indexOf_from (i + 1) rest x
  end.

Definition indexOf (l : list string) (x : string) : Z := indexOf_from 0 l x.

(** The method of [console] a message goes through: [console.error]
    writes to the standard error, [console.info] to the standard
    output. *)
Inductive console_method : Type := console_error | console_info.

(** The escape sequence ESC [code]. *)
Definition esc (code : string) : string := String (ascii_of_nat 27) code.

Section Logger.

(** The values handed to the logger. *)
Context {V : Type}.

(** An argument of a call of [console]: a text of the logger, or one of
    the values it was given. *)
Inductive argument : Type :=
  | Text (s : string)
  | Value (v : V).

(** A call of [console], when one is made. *)
Record console_call : Type := mkCall {
  via : console_method;
  arguments : list argument
}.

(** [const log = (lvl, ...args) => { .. }] of a logger whose level has
    the index [current]. *)
Definition log (current : Z) (lvl : string) (args : list V) : option console_call :=
  if current <? indexOf levels lvl then None
  else
    let errorColor := esc "[31m" in
    let infoColor := esc "[32m" in
    let debugColor := esc "[34m" in
    if String.eqb lvl ERROR then
      Some (mkCall console_error
              ([Text errorColor; Text "[ERROR]"] ++ map Value args ++ [Text (esc "[0m")])%list)
    else if String.eqb lvl INFO then
      Some (mkCall console_info
              ([Text infoColor; Text "[INFO]"] ++ map Value args ++ [Text (esc "[0m")])%list)
    else if String.eqb lvl DEBUG then
      Some (mkCall console_info
              ([Text debugColor; Text "[DEBUG]"] ++ map Value args ++ [Text (esc "[0m")])%list)
    else None.

(** The object [createLogger] returns. *)
Record Logger : Type := mkLogger {
  error : list V -> option console_call;
  info : list V -> option console_call;
  debug : list V -> option console_call
}.

(** [createLogger(level = LogLevels.INFO)] *)
Definition createLogger (level : option string) : Logger :=
  let level := default INFO level in
  let current := indexOf levels (toLowerCase level) in
  mkLogger (log current "error") (log current "info") (log current "debug").

(** [export const logger = createLogger(LOG_LEVEL)] *)
Definition logger (env_LOG_LEVEL : option string) : Logger :=
  createLogger (Some (LOG_LEVEL env_LOG_LEVEL)).

End Logger.

End Logger.

(** ** Concrete inputs used to exercise the statements *)

Module Samples.
Import Js World Oauth.

Definition sample_uuid : string := "9b1deb4d-3b7d-4bad-9bdd-2b0d7b3dcb6d".
Definition other_uuid : string := "1b9d6bcd-bbfd-4b2d-9b5d-ab8dfbbd4bed".

Definition Patient : ResourceRequest :=
  mkResourceRequest "Patient" [("identifier", "p1")].
Definition Appointment : ResourceRequest :=
  mkResourceRequest "Appointment" [("patient", "p1"); ("status", "arrived")].
Definition Observation : ResourceRequest :=
  mkResourceRequest "Observation" [("patient", "p1")].

(** Profile and additional resources enabled, three resources. *)
Definition sample_cfg : Config :=
  mkConfig (Some "https://fhir.example/api/FHIR/R4") (Some "client-1") None
           None None (Some "/oauth/callback") (Some "/init") None
           (Some "true") (Some "true") None
           [Patient; Appointment; Observation].

(** The same without the optional requests. *)
Definition plain_cfg : Config :=
  mkConfig (Some "https://fhir.example/api/FHIR/R4") (Some "client-1") None
           None None (Some "/oauth/callback") (Some "/init") None
           (Some "false") None None [].

(** A token in the form of a JWT: the header [{"alg":"RS256","typ":"JWT"}],
    the claims [sample_claims] below and a signature, each in base64url. *)
Definition sample_id_token : string :=
  "eyJhbGciOiJSUzI1NiIsInR5cCI6IkpXVCJ9"
  ++ ".eyJzdWIiOiJ1c2VyLTEiLCJmaGlyVXNlciI6Imh0dHBzOi8vZmhpci5leGFtcGxlL2FwaS9GSElSL1I0L1ByYWN0aXRpb25lci83In0"
  ++ ".c2lnbmF0dXJl".

Definition sample_token : json :=
  JObject [ ("access_token", JString "AT-1");
            ("id_token", JString sample_id_token);
            ("expires_in", JNumber 3600) ].

Definition sample_claims : json :=
  JObject [ ("sub", JString "user-1");
            ("fhirUser", JString "https://fhir.example/api/FHIR/R4/Practitioner/7") ].

(** The body the token endpoint sends for [sample_token], compact. *)
Definition sample_token_body : string :=
  "{" ++ dq ++ "access_token" ++ dq ++ ":" ++ dq ++ "AT-1" ++ dq ++ ","
  ++ dq ++ "id_token" ++ dq ++ ":" ++ dq ++ sample_id_token ++ dq ++ ","
  ++ dq ++ "expires_in" ++ dq ++ ":3600}".

Definition token_response : Response :=
  mkResponse 200 sample_token_body (Normal sample_token).

Definition bundle_response : Response :=
  mkResponse 200 "[]" (Normal (JArray [])).

Definition not_found_response : Response :=
  mkResponse 404 "Not Found" (Throw (mkError "SyntaxError" None "Unexpected token")).

Definition bad_request_response : Response :=
  mkResponse 400 "invalid_grant" (Throw (mkError "SyntaxError" None "Unexpected token")).

(** An answer whose body cannot be read: the connection is lost once
    the head has arrived, and [res.text()] rejects. *)
Definition terminated : JsError :=
  mkError "TypeError" (Some "SocketError: other side closed") "terminated".

Definition unreadable_response : Response :=
  Build_Response 502 EmptyString (Throw terminated) (Some terminated).

Definition connection_refused : JsError :=
  mkError "TypeError" (Some "Error: connect ECONNREFUSED 127.0.0.1:443") "fetch failed".

(** The text up to the first dot of [s], and the text after that dot
    when there is one. *)
Fixpoint upto_dot (s : string) : string * option string :=
  match s with
  | EmptyString => (EmptyString, None)
  | String c rest =>
      if (N_of_ascii c =? 46)%N then (EmptyString, Some rest)
      else let '(before, after) := upto_dot rest in (String c before, after)
  end.

(** [token.split(".")[1]] *)
Definition second_part (token : string) : option string :=
  match upto_dot token with
  | (_, Some rest) => Some (fst (upto_dot rest))
  | (_, None) => None
  end.

Definition InvalidTokenError (what : string) : JsError :=
  mkError "InvalidTokenError" None ("Invalid token specified: " ++ what).

(** [jwtDecode(token)] of the jwt-decode library: the second part of
    the token, read as base64url and parsed as JSON.  (To the messages
    of the last two errors the library adds the message of the error
    it caught, which is left out here; a part that carries padding
    characters is taken as invalid.) *)
Definition decode (id_token : value) : completion json :=
  match id_token with
  | Some (JString token) =>
      match second_part token with
      | None => Throw (InvalidTokenError "missing part #2")
      | Some part =>
          match base64UrlDecode part with
          | None => Throw (InvalidTokenError "invalid base64 for part #2")
          | Some text =>
              match JSON_parse text with
              | Some claims => Normal claims
              | None => Throw (InvalidTokenError "invalid json for part #2")
              end
          end
      end
  | _ => Throw (InvalidTokenError "must be a string")
  end.

(** An environment with the outcomes of the successive requests given
    by [outcomes] (every further request is answered with an empty
    bundle), a clock that advances by one millisecond per reading from
    1000, and a writable disk. *)
Definition sample_env (outcomes : list FetchOutcome) : Env :=
  mkEnv (fun k => 1000 + Z.of_nat k) other_uuid
        (fun k _ => default (Resolved bundle_response) (outcomes !! k))
        decode
        (fun _ => None).

(** A server that has resolved its endpoints, with one pending state
    token issued at time 0, and a response not yet begun. *)
Definition sample_world : World :=
  mkWorld {[ sample_uuid := 0 ]}
          (Some (JString "https://fhir.example/oauth2/authorize"))
          (Some (JString "https://fhir.example/oauth2/token"))
          ∅ ∅ None None true 0 0 [].

Definition callback (params : list (string * string)) : Request :=
  mkReq (Some "/oauth/callback") (list_to_map params).

(** A token with no ID token, as the token endpoint sends one when the
    scope does not ask for [openid]. *)
Definition opaque_token : json :=
  JObject [ ("access_token", JString "AT-2"); ("token_type", JString "Bearer") ].

Definition opaque_token_response : Response :=
  mkResponse 200
    ("{" ++ dq ++ "access_token" ++ dq ++ ":" ++ dq ++ "AT-2" ++ dq ++ ","
     ++ dq ++ "token_type" ++ dq ++ ":" ++ dq ++ "Bearer" ++ dq ++ "}")
    (Normal opaque_token).

(** The OAuth extension of a capability statement with the entries
    [entries]. *)
Definition oauth_uris (entries : list json) : json :=
  JObject
    [ ("url", JString "http://fhir-registry.smarthealthit.org/StructureDefinition/oauth-uris");
      ("extension", JArray entries) ].

Definition uri_entry (name uri : string) : json :=
  JObject [ ("url", JString name); ("valueUri", JString uri) ].

(** A capability statement whose first [rest] entry carries the
    security extensions [extensions]. *)
Definition capability_statement (extensions : list json) : json :=
  JObject
    [ ("resourceType", JString "CapabilityStatement");
      ("rest",
       JArray [ JObject [ ("mode", JString "server");
                          ("security", JObject [ ("extension", JArray extensions) ]) ] ]) ].

Definition sample_metadata : json :=
  capability_statement
    [ oauth_uris [ uri_entry "authorize" "https://fhir.example/oauth2/authorize";
                   uri_entry "token" "https://fhir.example/oauth2/token" ] ].

(** The same with the authorization entry only. *)
Definition half_metadata : json :=
  capability_statement
    [ oauth_uris [ uri_entry "authorize" "https://fhir.example/oauth2/authorize" ] ].

(** The body of an error answer: an operation outcome. *)
Definition operation_outcome : json :=
  JObject [ ("resourceType", JString "OperationOutcome"); ("issue", JArray []) ].

(** A server that has not resolved its endpoints yet. *)
Definition starting_world : World :=
  mkWorld ∅ None None ∅ ∅ None None true 0 0 [].

End Samples.

(** * Properties *)

(** ** The state store *)

Section StateStoreProperties.
Import StateManager Samples.

Implicit Types (s : gmap string Z) (u tok k : string) (cs : list call).

Lemma STATE_TTL_MS_value : STATE_TTL_MS = 300000.
Proof. reflexivity. Qed.

(** A UUID is not the one key whose assignment creates no own property. *)
Lemma is_uuid_not_proto u : is_uuid u = true -> u ≠ "__proto__".
Proof. intros H ->. discriminate H. Qed.

Lemma is_uuid_not_inherited u : is_uuid u = true -> Object_prototype_has u = false.
Proof.
  intros H. unfold Object_prototype_has. apply bool_decide_eq_false.
  intros Hin. unfold Object_prototype_names in Hin.
  repeat (apply elem_of_cons in Hin as [-> | Hin]; [discriminate H|]).
  by apply elem_of_nil in Hin.
Qed.

(** Validation of a key that is no own property: [false], store
    unchanged, whether the read finds nothing or an inherited member. *)
Lemma validateState_absent s k now :
  s !! k = None -> validateState k now s = (false, s).
Proof.
  intros Hk. unfold validateState, js_get. rewrite Hk.
  destruct (Object_prototype_has k); simpl; [|done].
  by rewrite delete_id.
Qed.

(** Validation of an own property: the verdict is the TTL test, and the
    property is removed whatever the verdict. *)
Lemma validateState_present s k t now :
  s !! k = Some t ->
  validateState k now s = (now - t <=? STATE_TTL_MS, delete k s).
Proof. intros Hk. unfold validateState, js_get. by rewrite Hk. Qed.

Lemma validateState_removes s k now : (validateState k now s).2 !! k = None.
Proof.
  destruct (s !! k) as [t|] eqn:Hk.
  - rewrite (validateState_present _ _ t) by done. apply lookup_delete_eq.
  - by rewrite validateState_absent.
Qed.

Lemma validateState_other s k k' now :
  k ≠ k' -> (validateState k now s).2 !! k' = s !! k'.
Proof.
  intros Hne. destruct (s !! k) as [t|] eqn:Hk.
  - rewrite (validateState_present _ _ t) by done. by apply lookup_delete_ne.
  - by rewrite validateState_absent.
Qed.

Lemma eqb_false_ne (a b : string) : negb (String.eqb a b) = true -> a ≠ b.
Proof. intros H ->. by rewrite String.eqb_refl in H. Qed.

(** A call that neither issues nor validates [tok] leaves its slot. *)
Lemma step_other tok c s :
  not_reissued tok [c] = true -> not_validated tok [c] = true ->
  (step c s).2 !! tok = s !! tok.
Proof.
  destruct c as [u now | k now]; simpl; rewrite !andb_true_r; intros H1 H2.
  - apply lookup_insert_ne. by apply eqb_false_ne.
  - destruct (validateState k now s) as [b s'] eqn:E. simpl.
    change s' with (b, s').2. rewrite <- E.
    apply validateState_other. by apply eqb_false_ne.
Qed.

Lemma run_other tok cs : forall s,
  not_reissued tok cs = true -> not_validated tok cs = true ->
  (run cs s).2 !! tok = s !! tok.
Proof.
  induction cs as [|c cs IH]; intros s H1 H2; [done|].
  simpl in H1, H2. apply andb_true_iff in H1 as [H1 H1'].
  apply andb_true_iff in H2 as [H2 H2'].
  simpl. destruct (step c s) as [r s1] eqn:E1.
  destruct (run cs s1) as [rs s2] eqn:E2. simpl.
  change s2 with (rs, s2).2. rewrite <- E2, IH by done.
  change s1 with (r, s1).2. rewrite <- E1.
  apply step_other; simpl; by rewrite ?H1, ?H2.
Qed.

(** Once [tok] is no own property, it stays none while it is not
    reissued, and every validation of it answers [false]. *)
Lemma verdicts_after_removal tok cs : forall s,
  s !! tok = None -> not_reissued tok cs = true ->
  Forall (fun b => b = false) (verdicts_of tok cs (run cs s).1).
Proof.
  induction cs as [|c cs IH]; intros s Hs Hre; [constructor|].
  simpl in Hre. apply andb_true_iff in Hre as [Hc Hre].
  simpl. destruct (step c s) as [r s1] eqn:E1.
  destruct (run cs s1) as [rs s2] eqn:E2.
  assert (Hrs : rs = (run cs s1).1) by by rewrite E2.
  destruct c as [u now | k now]; simpl in E1.
  - injection E1 as <- <-. simpl. rewrite Hrs. apply IH; [|done].
    rewrite lookup_insert_ne; [done|]. by apply eqb_false_ne.
  - destruct (validateState k now s) as [b s'] eqn:E.
    injection E1 as <- <-. simpl. case_bool_decide as Hk.
    + subst k. rewrite validateState_absent in E by done.
      injection E as <- <-. constructor; [done|]. rewrite Hrs. by apply IH.
    + rewrite Hrs. apply IH; [|done].
      change s' with (b, s').2. rewrite <- E.
      by rewrite validateState_other.
Qed.

(** In any run that does not reissue [tok], all verdicts on [tok] but
    the first are [false]. *)
Lemma verdicts_single_use tok cs : forall s,
  not_reissued tok cs = true ->
  Forall (fun b => b = false) (tail (verdicts_of tok cs (run cs s).1)).
Proof.
  induction cs as [|c cs IH]; intros s Hre; [constructor|].
  simpl in Hre. apply andb_true_iff in Hre as [Hc Hre].
  simpl. destruct (step c s) as [r s1] eqn:E1.
  destruct (run cs s1) as [rs s2] eqn:E2.
  assert (Hrs : rs = (run cs s1).1) by by rewrite E2.
  destruct c as [u now | k now]; simpl in E1.
  - injection E1 as <- <-. simpl. rewrite Hrs. by apply IH.
  - destruct (validateState k now s) as [b s'] eqn:E.
    injection E1 as <- <-. simpl. case_bool_decide as Hk.
    + subst k. simpl. rewrite Hrs. apply verdicts_after_removal; [|done].
      change s' with (b, s').2. rewrite <- E. apply validateState_removes.
    + rewrite Hrs. by apply IH.
Qed.

Lemma count_true_all_false (bs : list bool) :
  Forall (fun b => b = false) bs -> count_occ bool_dec bs true = 0%nat.
Proof.
  induction 1 as [|b bs -> _ IH]; [done|]. simpl. exact IH.
Qed.


(** C2. For every state token returned by [generateState], in any
    sequence of [validateState] calls on that token (interleaved with
    any other calls that do not hand the same token out again),
    [validateState] returns [true] at most once, and every call after
    the first returns [false], whatever the times of the calls. *)
Theorem validateState_single_use u t0 s cs :
  is_uuid u = true ->
  not_reissued u cs = true ->
  let tok := (generateState u t0 s).1 in
  let verdicts := verdicts_of tok cs (run cs (generateState u t0 s).2).1 in
  (count_occ bool_dec verdicts true <= 1)%nat ∧
  ∀ (i : nat) (b : bool), (0 < i)%nat -> verdicts !! i = Some b -> b = false.
Proof.
  intros _ Hre. simpl.
  pose proof (verdicts_single_use u cs (<[u:=t0]> s) Hre) as Htl.
  destruct (verdicts_of u cs (run cs (<[u:=t0]> s)).1) as [|b0 bs]; simpl in *.
  - split; [lia|]. intros i b _ Hi. by rewrite lookup_nil in Hi.
  - split.
    + rewrite (count_true_all_false bs Htl). destruct (bool_dec b0 true); lia.
    + intros [|i] b Hi Hb; [lia|]. simpl in Hb.
      rewrite Forall_lookup in Htl. exact (Htl i b Hb).
Qed.

Lemma validateState_single_use_witness :
  is_uuid sample_uuid = true ∧
  not_reissued sample_uuid
    [Validate sample_uuid 1000; Generate other_uuid 1500;
     Validate sample_uuid 2000; Validate other_uuid 2500;
     Validate sample_uuid 400000] = true ∧
  let cs := [Validate sample_uuid 1000; Generate other_uuid 1500;
             Validate sample_uuid 2000; Validate other_uuid 2500;
             Validate sample_uuid 400000] in
  let tok := (generateState sample_uuid 0 ∅).1 in
  let verdicts := verdicts_of tok cs (run cs (generateState sample_uuid 0 ∅).2).1 in
  (count_occ bool_dec verdicts true <= 1)%nat ∧
  ∀ (i : nat) (b : bool), (0 < i)%nat -> verdicts !! i = Some b -> b = false.
Proof.
  split; [reflexivity|]. split; [reflexivity|].
  apply (validateState_single_use sample_uuid 0 ∅); reflexivity.
Defined.

(** The slot of a freshly issued token survives a run that neither
    reissues nor validates it. *)
Lemma issued_slot_kept u t0 s cs :
  not_reissued u cs = true -> not_validated u cs = true ->
  (run cs (generateState u t0 s).2).2 !! u = Some t0.
Proof.
  intros H1 H2. rewrite run_other by done. simpl. apply lookup_insert_eq.
Qed.

(** C5. For every state token, if more than the 5-minute TTL has
    elapsed between [generateState] and the first [validateState] of
    that token, [validateState] returns [false], although the token was
    never validated before. *)
Theorem validateState_expired u t0 s cs now :
  is_uuid u = true ->
  not_reissued u cs = true ->
  not_validated u cs = true ->
  5 * 60 * 1000 < now - t0 ->
  let tok := (generateState u t0 s).1 in
  let s' := (run cs (generateState u t0 s).2).2 in
  (validateState tok now s').1 = false.
Proof.
  intros _ H1 H2 Hlate. cbv zeta. change (generateState u t0 s).1 with u.
  rewrite (validateState_present _ _ t0) by by apply issued_slot_kept.
  simpl. apply Z.leb_gt. unfold STATE_TTL_MS. lia.
Qed.

Lemma validateState_expired_witness :
  is_uuid sample_uuid = true ∧
  not_reissued sample_uuid [Generate other_uuid 10; Validate other_uuid 20] = true ∧
  not_validated sample_uuid [Generate other_uuid 10; Validate other_uuid 20] = true ∧
  5 * 60 * 1000 < 300001 - 0 ∧
  (validateState (generateState sample_uuid 0 ∅).1 300001
     (run [Generate other_uuid 10; Validate other_uuid 20]
          (generateState sample_uuid 0 ∅).2).2).1 = false.
Proof.
  split; [reflexivity|]. split; [reflexivity|]. split; [reflexivity|].
  split; [lia|].
  apply (validateState_expired sample_uuid 0 ∅
           [Generate other_uuid 10; Validate other_uuid 20] 300001);
    [reflexivity | reflexivity | reflexivity | lia].
Defined.

(** C9. The TTL boundary is inclusive: a token presented for its first
    validation exactly 5 minutes after it was issued is accepted, and
    the first validation answers [false] only when strictly more than
    5 minutes have elapsed. *)
Theorem validateState_ttl_inclusive u t0 s cs now :
  is_uuid u = true ->
  not_reissued u cs = true ->
  not_validated u cs = true ->
  let tok := (generateState u t0 s).1 in
  let s' := (run cs (generateState u t0 s).2).2 in
  (now - t0 = 5 * 60 * 1000 -> (validateState tok now s').1 = true) ∧
  ((validateState tok now s').1 = true <-> now - t0 <= 5 * 60 * 1000) ∧
  ((validateState tok now s').1 = false <-> 5 * 60 * 1000 < now - t0).
Proof.
  intros _ H1 H2. cbv zeta. change (generateState u t0 s).1 with u.
  rewrite (validateState_present _ _ t0) by by apply issued_slot_kept.
  simpl. unfold STATE_TTL_MS.
  rewrite Z.leb_le, Z.leb_gt. repeat split; lia.
Qed.

Lemma validateState_ttl_inclusive_witness :
  is_uuid sample_uuid = true ∧
  not_reissued sample_uuid [Generate other_uuid 10] = true ∧
  not_validated sample_uuid [Generate other_uuid 10] = true ∧
  (validateState (generateState sample_uuid 7 ∅).1 300007
     (run [Generate other_uuid 10] (generateState sample_uuid 7 ∅).2).2).1 = true.
Proof.
  split; [reflexivity|]. split; [reflexivity|]. split; [reflexivity|].
  apply (validateState_ttl_inclusive sample_uuid 7 ∅ [Generate other_uuid 10] 300007);
    [reflexivity | reflexivity | reflexivity | lia].
Defined.

End StateStoreProperties.

(** ** The handler monad *)

Section Framework.
Import Js World.
Local Open Scope handler_scope.

Context {A B : Type}.
Implicit Types (P : Event -> Prop) (m : M A) (k : A -> M B).

Lemma bind_normal m k w a w' :
  m w = (Normal a, w') -> bind m k w = k a w'.
Proof. intros H. unfold bind. by rewrite H. Qed.

Lemma bind_throw m k w e w' :
  m w = (Throw e, w') -> bind m k w = (Throw e, w').
Proof. intros H. unfold bind. by rewrite H. Qed.

Lemma try_catch_ext m (m' : M A) (h : JsError -> M A) w w' :
  m w = m' w' -> try_catch m h w = try_catch m' h w'.
Proof. intros H. unfold try_catch. by rewrite H. Qed.

Lemma emits_ret P (a : A) : emits P (ret a).
Proof. intros w. exists []. by rewrite app_nil_r. Qed.

Lemma emits_throw P e : emits P (@throw A e).
Proof. intros w. exists []. by rewrite app_nil_r. Qed.

Lemma emits_lift P (c : completion A) : emits P (lift c).
Proof. intros w. exists []. by rewrite app_nil_r. Qed.

Lemma emits_bind P m k :
  emits P m -> (forall a, emits P (k a)) -> emits P (bind m k).
Proof.
  intros Hm Hk w. unfold bind. destruct (Hm w) as (evs & Et & HP).
  destruct (m w) as [[a|e] w1]; simpl in *.
  - destruct (Hk a w1) as (evs' & Et' & HP').
    exists (evs ++ evs')%list. rewrite Et', Et, app_assoc.
    split; [done|]. by apply Forall_app.
  - by exists evs.
Qed.

Lemma emits_try_catch P m (h : JsError -> M A) :
  emits P m -> (forall e, emits P (h e)) -> emits P (try_catch m h).
Proof.
  intros Hm Hh w. unfold try_catch. destruct (Hm w) as (evs & Et & HP).
  destruct (m w) as [[a|e] w1]; simpl in *.
  - by exists evs.
  - destruct (Hh e w1) as (evs' & Et' & HP').
    exists (evs ++ evs')%list. rewrite Et', Et, app_assoc.
    split; [done|]. by apply Forall_app.
Qed.

Lemma emits_reading P (f : World -> M A) :
  (forall w0, emits P (f w0)) -> emits P (reading f).
Proof. intros Hf w. exact (Hf w w). Qed.

Lemma emits_weaken P (Q : Event -> Prop) m :
  (forall ev, P ev -> Q ev) -> emits P m -> emits Q m.
Proof.
  intros HPQ Hm w. destruct (Hm w) as (evs & Et & HP).
  exists evs. split; [done|]. eapply Forall_impl; eauto.
Qed.

Lemma keeps_ret {X} (f : World -> X) (a : A) : keeps f (ret a).
Proof. by intros w. Qed.

Lemma keeps_throw {X} (f : World -> X) e : keeps f (@throw A e).
Proof. by intros w. Qed.

Lemma keeps_lift {X} (f : World -> X) (c : completion A) : keeps f (lift c).
Proof. by intros w. Qed.

Lemma keeps_bind {X} (f : World -> X) m k :
  keeps f m -> (forall a, keeps f (k a)) -> keeps f (bind m k).
Proof.
  intros Hm Hk w. unfold bind. specialize (Hm w).
  destruct (m w) as [[a|e] w1]; simpl in *; [|done].
  by rewrite Hk.
Qed.

Lemma keeps_try_catch {X} (f : World -> X) m (h : JsError -> M A) :
  keeps f m -> (forall e, keeps f (h e)) -> keeps f (try_catch m h).
Proof.
  intros Hm Hh w. unfold try_catch. specialize (Hm w).
  destruct (m w) as [[a|e] w1]; simpl in *; [done|].
  by rewrite Hh.
Qed.

Lemma keeps_reading {X} (f : World -> X) (g : World -> M A) :
  (forall w0, keeps f (g w0)) -> keeps f (reading g).
Proof. intros Hg w. exact (Hg w w). Qed.





Lemma preserves_reading (I : World -> Prop) (g : World -> M A) :
  (forall w0, preserves I (g w0)) -> preserves I (reading g).
Proof. intros Hg w. exact (Hg w w). Qed.

Lemma keeps_preserves {X} (f : World -> X) (Q : X -> Prop) m :
  keeps f m -> preserves (fun w => Q (f w)) m.
Proof. intros Hk w HQ. by rewrite Hk. Qed.

End Framework.

Section Iteration.
Import Js World Oauth.

Lemma emits_each {A} (P : Event -> Prop) (it : A -> M unit) items :
  (forall x, emits P (it x)) -> emits P (Bluebird_each items it).
Proof.
  intros Hit. induction items as [|x rest IH]; simpl.
  - apply emits_ret.
  - apply emits_bind; [apply Hit | intros _; exact IH].
Qed.

Lemma keeps_each {A X} (f : World -> X) (it : A -> M unit) items :
  (forall x, keeps f (it x)) -> keeps f (Bluebird_each items it).
Proof.
  intros Hit. induction items as [|x rest IH]; simpl.
  - apply keeps_ret.
  - apply keeps_bind; [apply Hit | intros _; exact IH].
Qed.

End Iteration.

(** The events of the primitives. *)
Section Primitives.
Import Js World.

Implicit Types (P : Event -> Prop).

Lemma emits_now P env : emits P (now env).
Proof. intros w. exists []. by rewrite app_nil_r. Qed.

Lemma emits_existsSync P path : emits P (existsSync path).
Proof. intros w. exists []. by rewrite app_nil_r. Qed.

Lemma emits_validateState P env k : emits P (World.validateState env k).
Proof.
  intros w. exists []. unfold World.validateState.
  destruct (StateManager.validateState _ _ _). by rewrite app_nil_r.
Qed.

Lemma emits_generateState P env : emits P (World.generateState env).
Proof. intros w. exists []. by rewrite app_nil_r. Qed.

Lemma emits_fetch P env req : P (EFetch req) -> emits P (fetch env req).
Proof.
  intros HP w. exists [EFetch req]. unfold fetch.
  destruct (network env (fetched w) req); simpl; split; auto.
Qed.

Lemma emits_mkdirSync P env path : P (EMkdir path) -> emits P (mkdirSync env path).
Proof.
  intros HP w. unfold mkdirSync. destruct (disk_error env path); simpl.
  - exists []. by rewrite app_nil_r.
  - exists [EMkdir path]. split; auto.
Qed.

Lemma emits_writeFileSync P env path content :
  P (EWriteFile path content) -> emits P (writeFileSync env path content).
Proof.
  intros HP w. unfold writeFileSync. destruct (disk_error env path); simpl.
  - exists []. by rewrite app_nil_r.
  - exists [EWriteFile path content]. split; auto.
Qed.

Lemma emits_writeHead P code hs : P (EWriteHead code hs) -> emits P (writeHead code hs).
Proof.
  intros HP w. unfold writeHead. destruct (res_head w); simpl.
  - exists []. by rewrite app_nil_r.
  - destruct (List.find _ hs); simpl.
    + exists []. by rewrite app_nil_r.
    + exists [EWriteHead code hs]. split; auto.
Qed.

Lemma emits_end P payload : P (EEnd payload) -> emits P (end_ payload).
Proof. intros HP w. exists [EEnd payload]. split; auto. Qed.

Lemma emits_server_close P : P EClose -> emits P server_close.
Proof. intros HP w. exists [EClose]. split; auto. Qed.

End Primitives.

(** Tactics for [keeps]: a primitive is unfolded, a composed computation
    is taken apart along its structure. *)
Ltac keeps_primitive :=
  intros ?w;
  cbv [World.fetch World.now World.existsSync World.mkdirSync
       World.writeFileSync World.writeHead World.end_
       World.validateState World.generateState Oauth.read_unbound World.throw];
  repeat case_match; reflexivity.

Ltac keeps_step :=
  lazymatch goal with
  | |- World.keeps _ (World.ret _) => apply keeps_ret
  | |- World.keeps _ (World.throw _) => apply keeps_throw
  | |- World.keeps _ (World.lift _) => apply keeps_lift
  | |- World.keeps _ (World.bind _ _) => apply keeps_bind; [|intros ?]
  | |- World.keeps _ (World.reading _) => apply keeps_reading; intros ?
  | |- World.keeps _ (World.try_catch _ _) => apply keeps_try_catch; [|intros ?]
  | |- World.keeps _ (Oauth.Bluebird_each _ _) => apply keeps_each; intros ?
  | |- World.keeps _ (if _ then _ else _) => case_match
  | |- World.keeps _ _ => keeps_primitive
  end.


(** ** JSON: what is written parses back *)

Section JsonProperties.
Import Js.

Implicit Types (s rest indent : string) (c : ascii) (v : json).

Local Arguments String.append : simpl nomatch.

(** Induction on values, through the lists of arrays and objects. *)
Lemma json_induction (P : json -> Prop) :
  P JNull -> (forall b, P (JBool b)) -> (forall n, P (JNumber n)) ->
  (forall s, P (JString s)) ->
  (forall items, Forall P items -> P (JArray items)) ->
  (forall props, Forall (fun kv => P (snd kv)) props -> P (JObject props)) ->
  forall v, P v.
Proof.
  intros Hnull Hbool Hnum Hstr Harr Hobj.
  fix IH 1. intros [ | b | n | s | items | props ].
  - exact Hnull.
  - apply Hbool.
  - apply Hnum.
  - apply Hstr.
  - apply Harr. induction items as [|x items IHitems]; constructor; [apply IH | exact IHitems].
  - apply Hobj. induction props as [|[k x] props IHprops]; constructor;
      [apply IH | exact IHprops].
Qed.

Lemma append_assoc (a b d : string) : (a ++ b) ++ d = a ++ (b ++ d).
Proof. induction a as [|c a IH]; simpl; [done|]. by rewrite IH. Qed.

Lemma append_nil_r (a : string) : a ++ EmptyString = a.
Proof. induction a as [|c a IH]; simpl; [done|]. by rewrite IH. Qed.

Lemma length_append (a b : string) :
  String.length (a ++ b) = (String.length a + String.length b)%nat.
Proof. induction a as [|c a IH]; simpl; [done|]. by rewrite IH. Qed.

(** *** White space *)

Lemma skip_ws_blank indent s : blank indent = true -> skip_ws (indent ++ s) = skip_ws s.
Proof.
  induction indent as [|c indent IH]; simpl; [done|].
  intros [Hc Hrest]%andb_true_iff. apply N.eqb_eq in Hc.
  unfold is_ws. rewrite Hc. simpl. by apply IH.
Qed.

Lemma skip_ws_idem s : skip_ws (skip_ws s) = skip_ws s.
Proof.
  induction s as [|c s IH]; simpl; [done|].
  destruct (is_ws c) eqn:E; [done|]. simpl. by rewrite E.
Qed.

Lemma parse_value_skip fuel s : parse_value fuel (skip_ws s) = parse_value fuel s.
Proof. destruct fuel; simpl; [done|]. by rewrite skip_ws_idem. Qed.

Lemma parse_value_indented fuel indent s :
  blank indent = true ->
  parse_value fuel (nl ++ indent ++ s) = parse_value fuel s.
Proof.
  intros Hb. rewrite <- (parse_value_skip fuel (nl ++ indent ++ s)).
  simpl. rewrite skip_ws_blank by done. apply parse_value_skip.
Qed.

Lemma blank_app a b : blank (a ++ b) = blank a && blank b.
Proof. induction a as [|c a IH]; simpl; [done|]. by rewrite IH, andb_assoc. Qed.


(** *** Numbers *)

Lemma pretty_N_char_digit (d : N) :
  (d < 10)%N ->
  is_digit (pretty_N_char d) = true
  /\ (N_of_ascii (pretty_N_char d) - 48)%N = d.
Proof.
  intros Hd.
  assert (d = 0 \/ d = 1 \/ d = 2 \/ d = 3 \/ d = 4 \/ d = 5 \/ d = 6
          \/ d = 7 \/ d = 8 \/ d = 9)%N as Hcases by lia.
  repeat (destruct Hcases as [-> | Hcases]; [done|]). by subst.
Qed.

Lemma span_digits_pretty_go (x : N) : forall s rest,
  span_digits (s ++ rest) = (s, rest) ->
  span_digits (pretty_N_go x s ++ rest) = (pretty_N_go x s, rest).
Proof.
  induction (N.lt_wf_0 x) as [x _ IH]. intros s rest Hs.
  assert (x = 0 \/ 0 < x)%N as [-> | Hpos] by lia; [done|].
  rewrite pretty_N_go_step by done.
  apply IH; [by apply N.div_lt|].
  destruct (pretty_N_char_digit (x `mod` 10)) as [Hd _];
    [by apply N.mod_lt|].
  simpl. by rewrite Hd, Hs.
Qed.

Lemma span_digits_stop rest :
  continues_number rest = false -> span_digits rest = (EmptyString, rest).
Proof.
  destruct rest as [|c rest]; simpl; [done|].
  intros H. by destruct (is_digit c).
Qed.

Lemma span_digits_pretty (n : N) rest :
  continues_number rest = false ->
  span_digits (pretty n ++ rest) = (pretty n, rest).
Proof.
  intros Hrest%span_digits_stop. unfold pretty, pretty_N.
  case_decide as Hn; [simpl; by rewrite Hrest|].
  by apply span_digits_pretty_go.
Qed.

Lemma digits_value_pretty_go (x : N) : forall s,
  digits_value 0 (pretty_N_go x s) = digits_value x s.
Proof.
  induction (N.lt_wf_0 x) as [x _ IH]. intros s.
  assert (x = 0 \/ 0 < x)%N as [-> | Hpos] by lia; [done|].
  rewrite pretty_N_go_step by done.
  rewrite IH by (by apply N.div_lt). simpl.
  destruct (pretty_N_char_digit (x `mod` 10)) as [_ ->];
    [by apply N.mod_lt|].
  f_equal. pose proof (N.div_mod x 10 ltac:(done)). lia.
Qed.

Lemma digits_value_pretty (n : N) : digits_value 0 (pretty n) = n.
Proof.
  unfold pretty, pretty_N. case_decide as Hn; [by subst|].
  by rewrite digits_value_pretty_go.
Qed.

Lemma pretty_go_head (x : N) : forall s,
  (0 < x)%N -> exists c r, pretty_N_go x s = String c r /\ is_digit c = true.
Proof.
  induction (N.lt_wf_0 x) as [x _ IH]. intros s Hpos.
  rewrite pretty_N_go_step by done.
  destruct (N.eq_dec (x `div` 10)%N 0%N) as [-> | Hdiv%N.neq_0_lt_0].
  - rewrite pretty_N_go_0. eexists _, _. split; [done|].
    by apply pretty_N_char_digit, N.mod_lt.
  - apply IH; [by apply N.div_lt | done].
Qed.

Lemma pretty_N_head (n : N) :
  exists c r, pretty n = String c r /\ is_digit c = true.
Proof.
  unfold pretty, pretty_N. case_decide as Hn; [by eexists _, _|].
  apply pretty_go_head. lia.
Qed.

(** A digit is none of the characters that open another kind of value,
    and no white space. *)
Lemma digit_code c :
  is_digit c = true -> (48 <= N_of_ascii c <= 57)%N.
Proof. unfold is_digit. intros [?%N.leb_le ?%N.leb_le]%andb_true_iff. lia. Qed.

Lemma parse_number_natural (n : N) rest :
  (n <= MAX_SAFE_INTEGER)%N ->
  continues_number rest = false ->
  parse_number (pretty n ++ rest) = Some (Z.of_N n, rest).
Proof.
  intros Hmax Hrest. unfold parse_number.
  destruct (pretty_N_head n) as (c & r & Hp & Hc).
  pose proof (digit_code c Hc) as Hcode.
  assert (Hminus : (N_of_ascii c =? 45)%N = false) by (apply N.eqb_neq; lia).
  rewrite Hp. simpl. rewrite Hminus.
  change (String c (r ++ rest)) with (String c r ++ rest). rewrite <- Hp.
  rewrite span_digits_pretty, digits_value_pretty by done.
  rewrite String.eqb_refl, Hrest. simpl.
  by apply N.ltb_ge in Hmax as ->.
Qed.

Lemma parse_number_pretty (z : Z) rest :
  (Z.abs z <= Z.of_N MAX_SAFE_INTEGER)%Z ->
  continues_number rest = false ->
  parse_number (pretty z ++ rest) = Some (z, rest).
Proof.
  intros Hmax Hrest. destruct z as [|p|p].
  - apply (parse_number_natural 0 rest); [done | done].
  - change (pretty (Z.pos p)) with (pretty (N.pos p)).
    rewrite parse_number_natural; [done | lia | done].
  - change (pretty (Z.neg p)) with ("-" ++ pretty (N.pos p)).
    unfold parse_number. simpl.
    rewrite span_digits_pretty, digits_value_pretty by done.
    rewrite String.eqb_refl, Hrest. simpl.
    assert (Hle : (N.pos p <= MAX_SAFE_INTEGER)%N) by lia.
    by apply N.ltb_ge in Hle as ->.
Qed.


(** *** Strings *)

(** An escaped character reads back as the character. *)
Lemma parse_chars_quote_char c tail :
  parse_chars (quote_char c ++ tail) = cons_char c (parse_chars tail).
Proof. destruct c as [[] [] [] [] [] [] [] []]; reflexivity. Qed.

Lemma parse_chars_quote s rest :
  parse_chars (quote_chars s ++ dq ++ rest) = Some (s, rest).
Proof.
  induction s as [|c s IH]; [reflexivity|].
  change (quote_chars (String c s)) with (quote_char c ++ quote_chars s).
  by rewrite append_assoc, parse_chars_quote_char, IH.
Qed.


(** *** Values *)

Abbreviation ser indent := (SerializeJSONProperty "  " indent).

Lemma parse_value_null fuel rest :
  parse_value (S fuel) ("null" ++ rest) = Some (JNull, rest).
Proof. reflexivity. Qed.

Lemma parse_value_true fuel rest :
  parse_value (S fuel) ("true" ++ rest) = Some (JBool true, rest).
Proof. reflexivity. Qed.

Lemma parse_value_false fuel rest :
  parse_value (S fuel) ("false" ++ rest) = Some (JBool false, rest).
Proof. reflexivity. Qed.

Lemma parse_value_string fuel s0 :
  parse_value (S fuel) (dq ++ s0) =
  match parse_chars s0 with
  | Some (str, r) => Some (JString str, r)
  | None => None
  end.
Proof. reflexivity. Qed.

Lemma parse_value_array fuel s0 :
  parse_value (S fuel) ("[" ++ s0) =
  match skip_ws s0 with
  | String c2 rest2 =>
      if (N_of_ascii c2 =? 93)%N then Some (JArray [], rest2)
      else match parse_items fuel s0 with
           | Some (items, r) => Some (JArray items, r)
           | None => None
           end
  | EmptyString => None
  end.
Proof. reflexivity. Qed.

Lemma parse_value_object fuel s0 :
  parse_value (S fuel) ("{" ++ s0) =
  match skip_ws s0 with
  | String c2 rest2 =>
      if (N_of_ascii c2 =? 125)%N then Some (JObject [], rest2)
      else match parse_members fuel s0 with
           | Some (props, r) =>
               if names_kept (map fst props) then Some (JObject props, r)
               else None
           | None => None
           end
  | EmptyString => None
  end.
Proof. reflexivity. Qed.

Lemma parse_value_number fuel c r :
  (48 <= N_of_ascii c <= 57 \/ N_of_ascii c = 45)%N ->
  parse_value (S fuel) (String c r) =
  match parse_number (String c r) with
  | Some (z, r') => Some (JNumber z, r')
  | None => None
  end.
Proof.
  intros Hc.
  assert (Hb : ((48 <=? N_of_ascii c) && (N_of_ascii c <=? 57)
                || (N_of_ascii c =? 45))%N = true).
  { destruct Hc as [[H1%N.leb_le H2%N.leb_le] | H3%N.eqb_eq].
    - by rewrite H1, H2.
    - rewrite H3. apply orb_true_r. }
  clear Hc.
  destruct c as [[] [] [] [] [] [] [] []];
    first [ reflexivity | vm_compute in Hb; discriminate Hb ].
Qed.

Lemma parse_items_unfold fuel s :
  parse_items (S fuel) s =
  match parse_value fuel s with
  | None => None
  | Some (x, s1) =>
      match skip_ws s1 with
      | String c rest =>
          if (N_of_ascii c =? 44)%N then
            match parse_items fuel rest with
            | Some (items, r) => Some (x :: items, r)
            | None => None
            end
          else if (N_of_ascii c =? 93)%N then Some ([x], rest)
          else None
      | EmptyString => None
      end
  end.
Proof. reflexivity. Qed.

Lemma parse_members_quoted fuel k s1 :
  parse_members (S fuel) (QuoteJSONString k ++ ": " ++ s1) =
  match parse_value fuel s1 with
  | None => None
  | Some (v, s3) =>
      match skip_ws s3 with
      | String c rest =>
          if (N_of_ascii c =? 44)%N then
            match parse_members fuel rest with
            | Some (props, r) => Some ((k, v) :: props, r)
            | None => None
            end
          else if (N_of_ascii c =? 125)%N then Some ([(k, v)], rest)
          else None
      | EmptyString => None
      end
  end.
Proof.
  unfold QuoteJSONString. rewrite !append_assoc.
  change (parse_members (S fuel) (dq ++ quote_chars k ++ dq ++ ": " ++ s1))
    with (match parse_chars (quote_chars k ++ dq ++ ": " ++ s1) with
          | None => None
          | Some (k', s1') =>
              match skip_ws s1' with
              | String colon s2 =>
                  if negb (N_of_ascii colon =? 58)%N then None
                  else
                    match parse_value fuel s2 with
                    | None => None
                    | Some (v, s3) =>
                        match skip_ws s3 with
                        | String c rest =>
                            if (N_of_ascii c =? 44)%N then
                              match parse_members fuel rest with
                              | Some (props, r) => Some ((k', v) :: props, r)
                              | None => None
                              end
                            else if (N_of_ascii c =? 125)%N then Some ([(k', v)], rest)
                            else None
                        | EmptyString => None
                        end
                    end
              | EmptyString => None
              end
          end).
  rewrite parse_chars_quote.
  change (skip_ws (": " ++ s1)) with (String ":" (String " " s1)).
  change (negb (N_of_ascii ":" =? 58)%N) with false. cbv iota.
  rewrite <- (parse_value_skip fuel (String " " s1)).
  change (skip_ws (String " " s1)) with (skip_ws s1).
  by rewrite parse_value_skip.
Qed.


Lemma parse_members_skip fuel s : parse_members fuel (skip_ws s) = parse_members fuel s.
Proof. destruct fuel; simpl; [done|]. by rewrite skip_ws_idem. Qed.

Lemma parse_members_indented fuel indent s :
  blank indent = true ->
  parse_members fuel (nl ++ indent ++ s) = parse_members fuel s.
Proof.
  intros Hb. rewrite <- (parse_members_skip fuel (nl ++ indent ++ s)).
  simpl. rewrite skip_ws_blank by done. apply parse_members_skip.
Qed.

Lemma parse_items_indented fuel indent s :
  blank indent = true ->
  parse_items fuel (nl ++ indent ++ s) = parse_items fuel s.
Proof.
  intros Hb. destruct fuel; [done|].
  by rewrite !parse_items_unfold, parse_value_indented.
Qed.

Lemma digit_opens_value c : is_digit c = true -> opens_value c.
Proof.
  intros Hc%digit_code. unfold opens_value, is_ws.
  rewrite !(proj2 (N.eqb_neq _ _)) by lia. done.
Qed.

Lemma serialize_head indent v :
  exists c r, ser indent v = String c r /\ opens_value c.
Proof.
  destruct v as [ | [] | n | s | [|x items] | [|kv props] ];
    try (by eexists _, _; split; [reflexivity | done]).
  destruct n as [|p|p].
  - by eexists _, _; split; [reflexivity | done].
  - destruct (pretty_N_head (N.pos p)) as (c & r & Hp & Hc).
    exists c, r. split; [exact Hp | by apply digit_opens_value].
  - by eexists _, _; split; [reflexivity | done].
Qed.

Lemma join_cons sep p q ps :
  join sep (p :: q :: ps) = p ++ sep ++ join sep (q :: ps).
Proof. reflexivity. Qed.

Lemma skip_ws_opens c r : opens_value c -> skip_ws (String c r) = String c r.
Proof. intros (Hws & _). simpl. by rewrite Hws. Qed.

Lemma items_progress (items : list json) (f : nat) x xs :
  items = x :: xs ->
  (fold_right (fun y acc => S (size y + acc)) 0 items <= f)%nat ->
  exists f', f = S f' /\ (size x <= f')%nat
             /\ (fold_right (fun y acc => S (size y + acc)) 0 xs <= f')%nat.
Proof.
  intros -> Hle. simpl in Hle. destruct f as [|f']; [lia|].
  exists f'. repeat split; lia.
Qed.

Lemma parse_items_next f x s tail :
  parse_value f s = Some (x, "," ++ tail) ->
  parse_items (S f) s =
  match parse_items f tail with
  | Some (items, r) => Some (x :: items, r)
  | None => None
  end.
Proof. intros H. rewrite parse_items_unfold, H. reflexivity. Qed.

Lemma parse_items_last f x s stepback tail :
  blank stepback = true ->
  parse_value f s = Some (x, nl ++ stepback ++ "]" ++ tail) ->
  parse_items (S f) s = Some ([x], tail).
Proof.
  intros Hb H. rewrite parse_items_unfold, H.
  change (skip_ws (nl ++ stepback ++ "]" ++ tail))
    with (skip_ws (stepback ++ "]" ++ tail)).
  rewrite skip_ws_blank by done. reflexivity.
Qed.

Lemma parse_members_next f k v s tail :
  parse_value f s = Some (v, "," ++ tail) ->
  parse_members (S f) (QuoteJSONString k ++ ": " ++ s) =
  match parse_members f tail with
  | Some (props, r) => Some ((k, v) :: props, r)
  | None => None
  end.
Proof. intros H. rewrite parse_members_quoted, H. reflexivity. Qed.

Lemma parse_members_last f k v s stepback tail :
  blank stepback = true ->
  parse_value f s = Some (v, nl ++ stepback ++ "}" ++ tail) ->
  parse_members (S f) (QuoteJSONString k ++ ": " ++ s) = Some ([(k, v)], tail).
Proof.
  intros Hb H. rewrite parse_members_quoted, H.
  change (skip_ws (nl ++ stepback ++ "}" ++ tail))
    with (skip_ws (stepback ++ "}" ++ tail)).
  rewrite skip_ws_blank by done. reflexivity.
Qed.

(** The elements of an array, once each of them parses back. *)
Lemma parse_items_serialized indent stepback rest : forall items fuel,
  items <> [] ->
  Forall (fun x => safe x = true -> parses_back x) items ->
  forallb safe items = true ->
  (fold_right (fun x acc => S (size x + acc)) 0 items <= fuel)%nat ->
  blank indent = true -> blank stepback = true ->
  parse_items fuel
    (nl ++ indent
     ++ join ("," ++ nl ++ indent) (map (ser indent) items)
     ++ nl ++ stepback ++ "]" ++ rest)
  = Some (items, rest).
Proof.
  induction items as [|x xs IH]; intros fuel Hne HP Hsafe Hfuel Hi Hs; [done|].
  destruct (items_progress (x :: xs) fuel x xs eq_refl Hfuel)
    as (f & -> & Hx & Hxs).
  apply Forall_cons in HP as [Px HPxs].
  simpl in Hsafe. apply andb_true_iff in Hsafe as [Sx Sxs].
  rewrite parse_items_indented by done.
  destruct xs as [|y ys].
  - apply (parse_items_last f x _ stepback rest Hs).
    by apply (Px Sx f indent).
  - cbn [map]. rewrite join_cons, !append_assoc.
    erewrite parse_items_next; cycle 1.
    { by apply (Px Sx f indent). }
    change (ser indent y :: map (ser indent) ys) with (map (ser indent) (y :: ys)).
    by rewrite (IH f).
Qed.

Lemma members_progress (props : list (string * json)) (f : nat) (k : string) v ps :
  props = (k, v) :: ps ->
  (fold_right (fun kv acc => S (size (snd kv) + acc)) 0 props <= f)%nat ->
  exists f', f = S f' /\ (size v <= f')%nat
             /\ (fold_right (fun kv acc => S (size (snd kv) + acc)) 0 ps <= f')%nat.
Proof.
  intros -> Hle. simpl in Hle. destruct f as [|f']; [lia|].
  exists f'. repeat split; lia.
Qed.

(** The text of a property. *)
Abbreviation member indent :=
  (fun kv : string * json =>
     QuoteJSONString (fst kv) ++ ": " ++ SerializeJSONProperty "  " indent (snd kv)).

(** The properties of an object, once each value parses back. *)
Lemma parse_members_serialized indent stepback rest : forall props fuel,
  props <> [] ->
  Forall (fun kv => safe (snd kv) = true -> parses_back (snd kv)) props ->
  forallb (fun kv => safe (snd kv)) props = true ->
  (fold_right (fun kv acc => S (size (snd kv) + acc)) 0 props <= fuel)%nat ->
  blank indent = true -> blank stepback = true ->
  parse_members fuel
    (nl ++ indent
     ++ join ("," ++ nl ++ indent) (map (member indent) props)
     ++ nl ++ stepback ++ "}" ++ rest)
  = Some (props, rest).
Proof.
  induction props as [|[k v] ps IH]; intros fuel Hne HP Hsafe Hfuel Hi Hs; [done|].
  destruct (members_progress ((k, v) :: ps) fuel k v ps eq_refl Hfuel)
    as (f & -> & Hv & Hps).
  apply Forall_cons in HP as [Pv HPps]. simpl in Pv.
  simpl in Hsafe. apply andb_true_iff in Hsafe as [Sv Sps].
  rewrite parse_members_indented by done.
  destruct ps as [|q qs].
  - cbn [map join fst snd]. rewrite !append_assoc.
    apply (parse_members_last f k v _ stepback rest Hs).
    by apply (Pv Sv f indent).
  - cbn [map]. rewrite join_cons. cbn [fst snd]. rewrite !append_assoc.
    erewrite parse_members_next; cycle 1.
    { by apply (Pv Sv f indent). }
    assert (Hqs := IH f ltac:(done) HPps Sps Hps Hi Hs).
    cbn [map] in Hqs. by rewrite Hqs.
Qed.

Lemma pretty_Z_head (z : Z) :
  exists c r, pretty z = String c r
              /\ (48 <= N_of_ascii c <= 57 \/ N_of_ascii c = 45)%N.
Proof.
  destruct z as [|p|p].
  - exists "0"%char, EmptyString. split; [reflexivity|]. left. by compute.
  - destruct (pretty_N_head (N.pos p)) as (c & r & Hp & Hc%digit_code).
    exists c, r. split; [exact Hp | by left].
  - exists "-"%char, (pretty (N.pos p)). split; [reflexivity | by right].
Qed.

(** What [JSON.stringify] writes for a safe value parses back as the
    value, whatever the indentation and whatever follows. *)
Lemma serialized_parses_back v : safe v = true -> parses_back v.
Proof.
  induction v as [ | b | n | s | items IH | props IH ] using json_induction;
    intros Hsafe fuel indent rest Hfuel Hindent Hrest;
    (destruct fuel as [|f]; [simpl in Hfuel; lia|]).
  - apply parse_value_null.
  - destruct b; [apply parse_value_true | apply parse_value_false].
  - destruct (pretty_Z_head n) as (c & r & Hp & Hc).
    cbn [SerializeJSONProperty]. 
    assert (Htext : pretty n ++ rest = String c (r ++ rest)) by (by rewrite Hp).
    rewrite Htext, parse_value_number, <- Htext by done.
    rewrite parse_number_pretty; [done | | done].
    simpl in Hsafe. by apply Z.leb_le.
  - cbn [SerializeJSONProperty]. unfold QuoteJSONString.
    rewrite !append_assoc, parse_value_string. by rewrite parse_chars_quote.
  - destruct items as [|x xs]; [reflexivity|].
    cbn [SerializeJSONProperty]. rewrite !append_assoc, parse_value_array.
    destruct (serialize_head (indent ++ "  ") x) as (c & r & Hx & Hopen).
    assert (Hskip : exists r',
      skip_ws (nl ++ (indent ++ "  ")
               ++ join ("," ++ nl ++ indent ++ "  ")
                    (map (ser (indent ++ "  ")) (x :: xs))
               ++ nl ++ indent ++ "]" ++ rest) = String c r').
    { change (skip_ws (nl ++ ?t)) with (skip_ws t).
      rewrite skip_ws_blank by (by rewrite blank_app, Hindent).
      destruct xs as [|y ys]; cbn [map].
      - cbn [join]. rewrite Hx. eexists. by apply skip_ws_opens.
      - rewrite join_cons, Hx. eexists. by apply skip_ws_opens. }
    destruct Hskip as (r' & Hskip).
    rewrite <- !append_assoc in Hskip. rewrite !append_assoc in Hskip.
    rewrite Hskip. destruct Hopen as (_ & -> & _).
    rewrite <- (append_assoc indent "  ").
    rewrite (parse_items_serialized (indent ++ "  ") indent rest (x :: xs) f);
      try done.
    + simpl in Hfuel. simpl. lia.
    + by rewrite blank_app, Hindent.
  - destruct props as [|[k x] ps]; [reflexivity|].
    cbn [SerializeJSONProperty]. rewrite !append_assoc, parse_value_object.
    assert (Hskip : exists r',
      skip_ws (nl ++ (indent ++ "  ")
               ++ join ("," ++ nl ++ indent ++ "  ")
                    (map (member (indent ++ "  ")) ((k, x) :: ps))
               ++ nl ++ indent ++ "}" ++ rest) = String (ascii_of_nat 34) r').
    { change (skip_ws (nl ++ ?t)) with (skip_ws t).
      rewrite skip_ws_blank by (by rewrite blank_app, Hindent).
      destruct ps as [|y ys]; cbn [map fst snd]; unfold QuoteJSONString.
      - cbn [join]. rewrite !append_assoc. eexists. reflexivity.
      - rewrite join_cons, !append_assoc. eexists. reflexivity. }
    destruct Hskip as (r' & Hskip).
    rewrite <- !append_assoc in Hskip. rewrite !append_assoc in Hskip.
    rewrite Hskip. change (N_of_ascii (ascii_of_nat 34) =? 125)%N with false.
    cbv iota. rewrite <- (append_assoc indent "  ").
    change (safe (JObject ((k, x) :: ps)))
      with (names_kept (map fst ((k, x) :: ps))
            && forallb (fun kv => safe (snd kv)) ((k, x) :: ps)) in Hsafe.
    apply andb_true_iff in Hsafe as [Hnames Hvalues].
    rewrite (parse_members_serialized (indent ++ "  ") indent rest ((k, x) :: ps) f);
      try done.
    + by rewrite Hnames.
    + simpl in Hfuel. simpl. lia.
    + by rewrite blank_app, Hindent.
Qed.


(** *** Enough fuel *)

Lemma length_join sep (parts : list string) :
  (1 <= String.length sep)%nat ->
  (fold_right (fun p acc => S (String.length p + acc)) 0 parts
   <= S (String.length (join sep parts)))%nat.
Proof.
  intros Hsep. induction parts as [|p [|q l] IH]; simpl in *; [lia | lia |].
  rewrite !length_append. lia.
Qed.

Lemma size_le_length v : forall indent,
  (size v <= String.length (ser indent v))%nat.
Proof.
  induction v as [ | b | n | s | items IH | props IH ] using json_induction;
    intros indent.
  - simpl. lia.
  - destruct b; simpl; lia.
  - destruct (pretty_Z_head n) as (c & r & Hp & _).
    cbn [SerializeJSONProperty size]. rewrite Hp. simpl. lia.
  - cbn [SerializeJSONProperty size]. unfold QuoteJSONString.
    rewrite !length_append. simpl. lia.
  - destruct items as [|x xs]; [simpl; lia|].
    cbn [SerializeJSONProperty size]. rewrite !length_append.
    set (parts := map (ser (indent ++ "  ")) (x :: xs)).
    assert (Hparts :
      (fold_right (fun y acc => S (size y + acc)) 0 (x :: xs)
       <= fold_right (fun p acc => S (String.length p + acc)) 0 parts)%nat).
    { unfold parts. clear parts.
      induction IH as [|y ys Hy _ IHys]; cbn [fold_right map]; [lia|].
      specialize (Hy (indent ++ "  ")). lia. }
    assert (Hjoin := length_join ("," ++ nl ++ indent ++ "  ") parts
                       ltac:(simpl; lia)).
    clearbody parts. cbn [String.length] in *. lia.
  - destruct props as [|kv ps]; [simpl; lia|].
    cbn [SerializeJSONProperty size]. rewrite !length_append.
    set (parts := map (member (indent ++ "  ")) (kv :: ps)).
    assert (Hparts :
      (fold_right (fun kv acc => S (size (snd kv) + acc)) 0 (kv :: ps)
       <= fold_right (fun p acc => S (String.length p + acc)) 0 parts)%nat).
    { unfold parts. clear parts.
      induction IH as [|y ys Hy _ IHys]; cbn [fold_right map]; [lia|].
      specialize (Hy (indent ++ "  ")). cbv beta.
      rewrite !length_append. lia. }
    assert (Hjoin := length_join ("," ++ nl ++ indent ++ "  ") parts
                       ltac:(simpl; lia)).
    clearbody parts. cbn [String.length] in *. lia.
Qed.

(** What [JSON.stringify(v, null, 2)] writes parses back as [v]. *)
Lemma JSON_parse_stringify v :
  safe v = true -> JSON_parse (JSON_stringify_2 v) = Some v.
Proof.
  intros Hsafe. unfold JSON_parse, JSON_stringify_2.
  pose proof (serialized_parses_back v Hsafe
                (S (String.length (ser EmptyString v))) EmptyString EmptyString)
    as Hback.
  rewrite append_nil_r in Hback. rewrite Hback; [done | | done | done].
  pose proof (size_le_length v EmptyString). lia.
Qed.

(** *** What the parser yields is safe *)

Lemma parse_number_safe s z r :
  parse_number s = Some (z, r) -> (Z.abs z <=? Z.of_N MAX_SAFE_INTEGER)%Z = true.
Proof.
  unfold parse_number.
  destruct (match s with
            | String c r0 => if (N_of_ascii c =? 45)%N then (true, r0) else (false, s)
            | EmptyString => (false, s)
            end) as [negative s1].
  destruct (span_digits s1) as [ds rest].
  destruct (negb _); [done|]. destruct (continues_number rest); [done|].
  destruct (MAX_SAFE_INTEGER <? digits_value 0 ds)%N eqn:Hmax; [done|].
  apply N.ltb_ge in Hmax. intros [= <- _]. apply Z.leb_le.
  destruct negative; lia.
Qed.

Lemma parse_safe fuel :
  (forall s v r, parse_value fuel s = Some (v, r) -> safe v = true)
  /\ (forall s items r, parse_items fuel s = Some (items, r) ->
                        forallb safe items = true)
  /\ (forall s props r, parse_members fuel s = Some (props, r) ->
                        forallb (fun kv => safe (snd kv)) props = true).
Proof.
  induction fuel as [|f (IHv & IHi & IHm)]; [by repeat split|].
  split; [|split].
  - intros s v r. cbn [parse_value].
    destruct (skip_ws s) as [|c rest]; [done|].
    repeat case_match; try done; intros [= <- _]; try done.
    + by eapply IHi.
    + cbn [safe]. apply andb_true_iff. split; [done|]. by eapply IHm.
    + by eapply parse_number_safe.
  - intros s items r. cbn [parse_items].
    destruct (parse_value f s) as [[x s1]|] eqn:Hx; [|done].
    destruct (skip_ws s1) as [|c rest]; [done|].
    repeat case_match; try done; intros [= <- _]; cbn [forallb].
    + apply andb_true_iff. split; [by eapply IHv | by eapply IHi].
    + rewrite andb_true_r. by eapply IHv.
  - intros s props r. cbn [parse_members].
    destruct (skip_ws s) as [|q s0]; [done|].
    destruct (negb _); [done|].
    destruct (parse_chars s0) as [[k s1]|]; [|done].
    destruct (skip_ws s1) as [|colon s2]; [done|].
    destruct (negb _); [done|].
    destruct (parse_value f s2) as [[v s3]|] eqn:Hv; [|done].
    destruct (skip_ws s3) as [|c rest]; [done|].
    repeat case_match; try done; intros [= <- _]; cbn [forallb snd].
    + apply andb_true_iff. split; [by eapply IHv | by eapply IHm].
    + rewrite andb_true_r. by eapply IHv.
Qed.

Lemma JSON_parse_safe text v : JSON_parse text = Some v -> safe v = true.
Proof.
  unfold JSON_parse.
  destruct (parse_value _ text) as [[v' rest]|] eqn:Hv; [|done].
  destruct (skip_ws rest); [|done]. intros [= <-].
  by eapply (proj1 (parse_safe _)).
Qed.

(** The text that is written for a parsed value parses as the same
    value. *)
Lemma JSON_parse_reserialized text v :
  JSON_parse text = Some v -> JSON_parse (JSON_stringify_2 v) = JSON_parse text.
Proof.
  intros Hparse. rewrite Hparse. by eapply JSON_parse_stringify, JSON_parse_safe.
Qed.

Example parse_sample_token_body :
  JSON_parse Samples.sample_token_body = Some Samples.sample_token.
Proof. vm_compute. reflexivity. Qed.

End JsonProperties.

(** ** The token exchanger *)

Section ExchangeProperties.
Import Js World Oauth Samples.
Local Open Scope handler_scope.

Implicit Types (cfg : Config) (env : Env) (req : Request) (w : World).

(** The verdict of [validateState] on the two kinds of state. *)
Lemma state_invalid_verdict env w returnedState :
  state_invalid env w returnedState <->
  (StateManager.validateState (show returnedState) (clock env (ticks w))
     (stateStore w)).1 = false.
Proof.
  unfold state_invalid. cbv zeta. split.
  - intros [Hnone | (t & Hsome & Hlate)].
    + by rewrite validateState_absent.
    + rewrite (validateState_present _ _ t) by done. simpl.
      by apply Z.leb_gt.
  - intros Hv. destruct (stateStore w !! show returnedState) as [t|] eqn:E.
    + right. exists t. split; [done|].
      rewrite (validateState_present _ _ t) in Hv by done. simpl in Hv.
      by apply Z.leb_gt.
    + by left.
Qed.

Lemma state_valid_verdict env w returnedState :
  state_valid env w returnedState <->
  (StateManager.validateState (show returnedState) (clock env (ticks w))
     (stateStore w)).1 = true.
Proof.
  unfold state_valid. split.
  - intros (t & Hsome & Hin).
    rewrite (validateState_present _ _ t) by done. simpl. by apply Z.leb_le.
  - intros Hv. destruct (stateStore w !! show returnedState) as [t|] eqn:E.
    + exists t. split; [done|].
      rewrite (validateState_present _ _ t) in Hv by done. simpl in Hv.
      by apply Z.leb_le.
    + by rewrite validateState_absent in Hv.
Qed.

Lemma validateState_run env k w :
  World.validateState env k w =
  (Normal (StateManager.validateState k (clock env (ticks w)) (stateStore w)).1,
   checked env k w).
Proof.
  unfold checked, World.validateState.
  by destruct (StateManager.validateState _ _ _).
Qed.

Lemma checked_frame env k w :
  trace (checked env k w) = trace w /\ res_head (checked env k w) = res_head w
  /\ res_body (checked env k w) = res_body w
  /\ files (checked env k w) = files w /\ fetched (checked env k w) = fetched w
  /\ tokenUri (checked env k w) = tokenUri w
  /\ listening (checked env k w) = listening w
  /\ dirs (checked env k w) = dirs w.
Proof.
  unfold checked, World.validateState.
  by destruct (StateManager.validateState _ _ _).
Qed.

(** The [catch] block on a response that has not been begun: a 500
    with the cause and the message of the error. *)
Lemma report_fresh e w :
  res_head w = None ->
  report e w =
  (Normal tt,
   mkWorld (stateStore w) (authUri w) (tokenUri w) (files w) (dirs w)
           (Some 500) (Some (Some (show (cause e) ++ ": " ++ message e)))
           (listening w) (ticks w) (fetched w)
           (trace w ++ [EWriteHead 500 [];
                        EEnd (Some (show (cause e) ++ ": " ++ message e))])).
Proof.
  intros Hfresh. unfold report, bind, writeHead, end_, log. rewrite Hfresh.
  simpl. by rewrite <- app_assoc.
Qed.

(** The [catch] block once the head has been written: [writeHead]
    throws, and nothing else happens. *)
Lemma report_begun e w code :
  res_head w = Some code -> report e w = (Throw ERR_HTTP_HEADERS_SENT, w).
Proof. intros Hsent. unfold report, bind, writeHead. by rewrite Hsent. Qed.

(** What the handler does on a state that is not valid. *)
Lemma exchange_invalid_state cfg env req w :
  state_invalid env w (query req !! "state") ->
  exchangeCodeForToken cfg env req w =
  report (ReferenceError_not_defined "state")
         (checked env (show (query req !! "state")) w).
Proof.
  intros Hinv%state_invalid_verdict.
  unfold exchangeCodeForToken, try_catch, exchange.
  rewrite (bind_normal _ _ _ _ _ (validateState_run _ _ _)), Hinv.
  reflexivity.
Qed.

(** The [try] block on a state that is not valid: the state check, and
    the [ReferenceError] of line 126. *)
Lemma exchange_invalid_state_throws cfg env req w :
  state_invalid env w (query req !! "state") ->
  exchange cfg env req w =
  (Throw (ReferenceError_not_defined "state"),
   checked env (show (query req !! "state")) w).
Proof.
  intros Hinv%state_invalid_verdict. unfold exchange.
  rewrite (bind_normal _ _ _ _ _ (validateState_run _ _ _)), Hinv.
  reflexivity.
Qed.

(** C3. For every callback whose state parameter is absent, unknown or
    expired, the exchanger aborts at the state check, but not with a
    state-invalid error: what the [try] block throws is the
    [ReferenceError] of the undeclared [state] of line 126, which is
    the error of an invalid state for no text of [state], and the
    response is a 500 with the body [undefined: state is not defined].
    Nothing else is done: no request is issued (so no POST to the token
    endpoint), no file is written (so no token record), and the run is
    the same whatever the [error] and [code] parameters are. *)
Theorem invalid_state_aborts cfg env req w :
  res_head w = None ->
  state_invalid env w (query req !! "state") ->
  let outcome := exchangeCodeForToken cfg env req w in
  (exchange cfg env req w).1 = Throw (ReferenceError_not_defined "state")
  /\ (forall expected,
        ReferenceError_not_defined "state"
        <> invalid_state_error expected (query req !! "state"))
  /\ outcome.1 = Normal tt
  /\ response outcome.2 = (Some 500, Some (Some "undefined: state is not defined"))
  /\ trace outcome.2 =
     (trace w ++ [EWriteHead 500 [];
                  EEnd (Some "undefined: state is not defined")])%list
  /\ fetched outcome.2 = fetched w
  /\ files outcome.2 = files w
  /\ forall req', query req' !! "state" = query req !! "state" ->
                  exchangeCodeForToken cfg env req' w = outcome.
Proof.
  intros Hfresh Hinv. cbv zeta.
  destruct (checked_frame env (show (query req !! "state")) w)
    as (Ht & Hh & _ & Hf & Hn & _).
  split; [by rewrite exchange_invalid_state_throws|].
  split; [discriminate|].
  rewrite exchange_invalid_state, report_fresh by congruence. simpl.
  repeat split; try done.
  - by rewrite Ht.
  - intros req' Hsame.
    rewrite exchange_invalid_state, report_fresh; rewrite ?Hsame; try done.
    congruence.
Qed.

Lemma invalid_state_aborts_witness :
  let req := callback [("state", "forged"); ("code", "C1")] in
  let outcome := exchangeCodeForToken sample_cfg (sample_env []) req sample_world in
  res_head sample_world = None
  /\ state_invalid (sample_env []) sample_world (query req !! "state")
  /\ (exchange sample_cfg (sample_env []) req sample_world).1
     = Throw (mkError "ReferenceError" None "state is not defined")
  /\ response outcome.2 = (Some 500, Some (Some "undefined: state is not defined"))
  /\ fetched outcome.2 = 0%nat
  /\ files outcome.2 = ∅.
Proof.
  intros req outcome.
  assert (Hinv : state_invalid (sample_env []) sample_world (query req !! "state")).
  { left. vm_compute. reflexivity. }
  split; [reflexivity|]. split; [exact Hinv|].
  destruct (invalid_state_aborts sample_cfg (sample_env []) req sample_world
              eq_refl Hinv) as (Hthrown & _ & _ & Hresp & _ & Hfetched & Hfiles & _).
  split; [exact Hthrown|]. split; [exact Hresp|].
  split; [exact Hfetched | exact Hfiles].
Defined.

(** An expired state is invalid although its slot is there. *)
Example expired_state_is_invalid :
  state_invalid (sample_env []) 
    (mkWorld {[ sample_uuid := -400000 ]} None None ∅ ∅ None None true 0 0 [])
    (Some sample_uuid).
Proof. right. exists (-400000). split; [reflexivity|]. vm_compute. reflexivity. Qed.

(** *** The events of each part of the handler *)

Lemma emits_requestProfile cfg env token :
  emits (follows_token cfg) (requestProfile env token).
Proof.
  unfold requestProfile.
  repeat (apply emits_bind; [first [apply emits_lift | by apply emits_fetch]|intros ?]).
  case_match; [apply emits_bind; [apply emits_lift | intros ?; apply emits_ret]|].
  apply emits_bind; [apply emits_lift | intros ?; apply emits_ret].
Qed.

Lemma emits_testRequest cfg env access_token request :
  emits (follows_token cfg) (testRequest cfg env access_token request).
Proof.
  unfold testRequest.
  repeat (apply emits_bind; [first [apply emits_lift | by apply emits_fetch]|intros ?]).
  case_match; [apply emits_bind; [apply emits_lift | intros ?; apply emits_ret]|].
  apply emits_bind; [apply emits_lift | intros ?].
  apply emits_bind; [apply emits_now | intros t].
  apply emits_writeFileSync. simpl. by exists t, request.
Qed.

Lemma emits_testRequests cfg env token :
  emits (follows_token cfg) (testRequests cfg env token).
Proof.
  unfold testRequests.
  apply emits_bind; [apply emits_lift | intros access_token].
  apply emits_bind; [apply emits_existsSync | intros present].
  apply emits_bind.
  - case_match; [by apply emits_mkdirSync | apply emits_ret].
  - intros _. apply emits_each. intros request. apply emits_testRequest.
Qed.

Lemma emits_deliver cfg env token :
  emits (follows_token cfg) (deliver cfg env token).
Proof.
  unfold deliver.
  apply emits_bind.
  { case_match; [apply emits_requestProfile | apply emits_ret]. }
  intros profile.
  apply emits_bind; [by apply emits_writeHead | intros _].
  apply emits_bind; [apply emits_lift | intros page].
  apply emits_bind; [by apply emits_end | intros _].
  case_match; [apply emits_testRequests | apply emits_ret].
Qed.

Lemma emits_report e : emits reports_error (report e).
Proof.
  unfold report.
  apply emits_bind; [by apply emits_writeHead | intros _].
  by apply emits_end.
Qed.

Lemma response_file_not_token t request : response_file t request ≠ "./token.json".
Proof. unfold response_file, RESPONSE_DIRECTORY. simpl. discriminate. Qed.

Lemma follows_token_not_post cfg ev : follows_token cfg ev -> is_post ev = false.
Proof. destruct ev as [r| | | | |]; simpl; try done. by intros ->. Qed.

Lemma reports_error_not_post ev : reports_error ev -> is_post ev = false.
Proof. by destruct ev. Qed.

Lemma filter_no_post (evs : list Event) :
  Forall (fun ev => is_post ev = false) evs ->
  filter (fun ev => is_post ev = true) evs = [].
Proof.
  induction 1 as [|ev l Hev _ IH]; [done|].
  rewrite filter_cons_False; [done|]. by rewrite Hev.
Qed.

(** After the token request, the handler issues no other POST. *)
Lemma emits_receive_no_post cfg env tokenResponse :
  emits (fun ev => is_post ev = false)
        (try_catch (receive cfg env tokenResponse) report).
Proof.
  apply emits_try_catch.
  - unfold receive.
    case_match; [apply emits_bind; [apply emits_lift | intros ?; apply emits_throw]|].
    apply emits_bind; [apply emits_lift | intros token].
    apply emits_bind; [by apply emits_writeFileSync | intros _].
    eapply emits_weaken; [apply follows_token_not_post | apply emits_deliver].
  - intros e. eapply emits_weaken; [apply reports_error_not_post | apply emits_report].
Qed.

(** The handler up to the token request, for a valid state, no error
    and a code. *)
Lemma exchange_requests_token cfg env req w :
  state_valid env w (query req !! "state") ->
  truthy_string (query req !! "error") = false ->
  truthy_string (query req !! "code") = true ->
  exchangeCodeForToken cfg env req w =
  try_catch
    (tokenResponse <- reading (fun w1 =>
        fetch env (token_request cfg (tokenUri w1) (query req !! "code"))) ;;
     receive cfg env tokenResponse)
    report
    (checked env (show (query req !! "state")) w).
Proof.
  intros Hvalid%state_valid_verdict Herr Hcode.
  unfold exchangeCodeForToken. apply try_catch_ext. unfold exchange.
  rewrite (bind_normal _ _ _ _ _ (validateState_run _ _ _)), Hvalid, Herr, Hcode.
  reflexivity.
Qed.

(** C4. For every callback that carries a valid, unexpired state token
    and a code, and no error, exactly one POST is issued to the token
    endpoint: the first request of the handler, form-encoded, with
    [grant_type=authorization_code], the code of the callback, the
    configured redirect URI and client id (and the secret when one is
    configured); no later request of the handler is a POST. *)
Theorem one_token_request cfg env req w code :
  state_valid env w (query req !! "state") ->
  truthy_string (query req !! "error") = false ->
  query req !! "code" = Some code ->
  code <> EmptyString ->
  let post :=
    mkRequest (tokenUri w) "POST"
      [("Content-Type", "application/x-www-form-urlencoded")]
      (Some (URLSearchParams_toString
               ([ ("grant_type", "authorization_code");
                  ("code", code);
                  ("redirect_uri", REDIRECT_URI cfg);
                  ("client_id", show (env_CLIENT_ID cfg)) ]
                ++ secret_entry cfg))) in
  exists later,
    trace (exchangeCodeForToken cfg env req w).2 = (trace w ++ EFetch post :: later)%list
    /\ Forall (fun ev => is_post ev = false) later
    /\ length (filter (fun ev => is_post ev = true)
                      (EFetch post :: later)) = 1%nat.
Proof.
  intros Hvalid Herr Hcode Hne. cbv zeta.
  assert (Htruthy : truthy_string (query req !! "code") = true).
  { rewrite Hcode. by destruct code. }
  rewrite exchange_requests_token by done.
  destruct (checked_frame env (show (query req !! "state")) w)
    as (Ht & _ & _ & _ & _ & Hu & _).
  set (w1 := checked env (show (query req !! "state")) w) in *.
  set (post := token_request cfg (tokenUri w1) (query req !! "code")).
  assert (Hpost : post = mkRequest (tokenUri w) "POST"
      [("Content-Type", "application/x-www-form-urlencoded")]
      (Some (URLSearchParams_toString
               ([ ("grant_type", "authorization_code");
                  ("code", code);
                  ("redirect_uri", REDIRECT_URI cfg);
                  ("client_id", show (env_CLIENT_ID cfg)) ]
                ++ secret_entry cfg)))).
  { unfold post, token_request. by rewrite Hu, Hcode. }
  rewrite <- Hpost.
  assert (Hlater : exists later,
    trace (try_catch
             (tokenResponse <- reading (fun w1 =>
                 fetch env (token_request cfg (tokenUri w1) (query req !! "code"))) ;;
              receive cfg env tokenResponse) report w1).2
    = (trace w1 ++ EFetch post :: later)%list
    /\ Forall (fun ev => is_post ev = false) later).
  { unfold try_catch at 1, bind at 1, reading, fetch. fold post.
    destruct (network env (fetched w1) post) as [e | r].
    - destruct (emits_weaken _ _ _ reports_error_not_post (emits_report e)
        (mkWorld (stateStore w1) (authUri w1) (tokenUri w1) (files w1) (dirs w1)
           (res_head w1) (res_body w1) (listening w1) (ticks w1)
           (S (fetched w1)) (log (EFetch post) w1))) as (evs & Et & Hevs).
      exists evs. split; [|done]. rewrite Et. unfold log. simpl.
      by rewrite <- app_assoc.
    - destruct (emits_receive_no_post cfg env r
        (mkWorld (stateStore w1) (authUri w1) (tokenUri w1) (files w1) (dirs w1)
           (res_head w1) (res_body w1) (listening w1) (ticks w1)
           (S (fetched w1)) (log (EFetch post) w1))) as (evs & Et & Hevs).
      exists evs. split; [|done].
      unfold try_catch in Et. unfold log in Et. simpl in Et.
      rewrite <- app_assoc in Et. exact Et. }
  destruct Hlater as (later & Et & Hlater). exists later.
  rewrite Et, Ht. split; [done|]. split; [done|].
  rewrite filter_cons_True by (by rewrite Hpost).
  simpl. by rewrite filter_no_post.
Qed.


Lemma one_token_request_witness :
  state_valid (sample_env [Resolved token_response]) sample_world
    (query (callback [("state", sample_uuid); ("code", "C1")]) !! "state")
  /\ truthy_string (query (callback [("state", sample_uuid); ("code", "C1")]) !! "error") = false
  /\ query (callback [("state", sample_uuid); ("code", "C1")]) !! "code" = Some "C1"
  /\ "C1" <> EmptyString
  /\ exists later,
       trace (exchangeCodeForToken sample_cfg (sample_env [Resolved token_response])
                (callback [("state", sample_uuid); ("code", "C1")]) sample_world).2
       = (trace sample_world
          ++ EFetch (mkRequest (tokenUri sample_world) "POST"
               [("Content-Type", "application/x-www-form-urlencoded")]
               (Some (URLSearchParams_toString
                  ([ ("grant_type", "authorization_code");
                     ("code", "C1");
                     ("redirect_uri", REDIRECT_URI sample_cfg);
                     ("client_id", show (env_CLIENT_ID sample_cfg)) ]
                   ++ secret_entry sample_cfg)))) :: later)%list.
Proof.
  assert (Hvalid : state_valid (sample_env [Resolved token_response]) sample_world
            (query (callback [("state", sample_uuid); ("code", "C1")]) !! "state")).
  { exists 0. split; [reflexivity|]. vm_compute. discriminate. }
  split; [exact Hvalid|]. split; [reflexivity|]. split; [reflexivity|].
  split; [discriminate|].
  destruct (one_token_request sample_cfg (sample_env [Resolved token_response])
              (callback [("state", sample_uuid); ("code", "C1")]) sample_world "C1"
              Hvalid eq_refl eq_refl) as (later & Ht & _); [discriminate|].
  exists later. exact Ht.
Defined.

(** *** The error responses of the aborts *)

(** An error parameter of the provider: its value is the cause, the
    description the message (empty when there is none). *)
Lemma abort_provider_error cfg env req w err :
  res_head w = None ->
  state_valid env w (query req !! "state") ->
  query req !! "error" = Some err -> err <> EmptyString ->
  let outcome := exchangeCodeForToken cfg env req w in
  outcome.1 = Normal tt
  /\ response outcome.2 =
     (Some 500,
      Some (Some (err ++ ": " ++ default EmptyString (query req !! "error_description"))))
  /\ trace outcome.2 =
     (trace w ++ [EWriteHead 500 [];
                  EEnd (Some (err ++ ": "
                        ++ default EmptyString (query req !! "error_description"))%string)])%list.
Proof.
  intros Hfresh Hvalid%state_valid_verdict Herr Hne. cbv zeta.
  destruct (checked_frame env (show (query req !! "state")) w)
    as (Ht & Hh & _).
  assert (Hrun : exchangeCodeForToken cfg env req w =
    report (new_Error (query req !! "error_description") (Some err))
           (checked env (show (query req !! "state")) w)).
  { unfold exchangeCodeForToken, try_catch, exchange.
    rewrite (bind_normal _ _ _ _ _ (validateState_run _ _ _)), Hvalid, Herr.
    simpl. by destruct err. }
  rewrite Hrun, report_fresh by congruence. simpl. by rewrite Ht.
Qed.

(** No code. *)
Lemma abort_missing_code cfg env req w :
  res_head w = None ->
  state_valid env w (query req !! "state") ->
  truthy_string (query req !! "error") = false ->
  truthy_string (query req !! "code") = false ->
  let outcome := exchangeCodeForToken cfg env req w in
  outcome.1 = Normal tt
  /\ response outcome.2 =
     (Some 500, Some (Some "Missing code: Missing authorization code"))
  /\ trace outcome.2 =
     (trace w ++ [EWriteHead 500 [];
                  EEnd (Some "Missing code: Missing authorization code")])%list.
Proof.
  intros Hfresh Hvalid%state_valid_verdict Herr Hcode. cbv zeta.
  destruct (checked_frame env (show (query req !! "state")) w)
    as (Ht & Hh & _).
  assert (Hrun : exchangeCodeForToken cfg env req w =
    report (new_Error (Some "Missing authorization code") (Some "Missing code"))
           (checked env (show (query req !! "state")) w)).
  { unfold exchangeCodeForToken, try_catch, exchange.
    rewrite (bind_normal _ _ _ _ _ (validateState_run _ _ _)), Hvalid, Herr, Hcode.
    reflexivity. }
  rewrite Hrun, report_fresh by congruence. simpl. by rewrite Ht.
Qed.

(** A token endpoint that answers with a status outside 200 to 299 and
    a body that can be read. *)
Lemma abort_exchange_failed cfg env req w tokenResponse :
  res_head w = None ->
  body_failure tokenResponse = None ->
  state_valid env w (query req !! "state") ->
  truthy_string (query req !! "error") = false ->
  truthy_string (query req !! "code") = true ->
  network env (fetched w) (token_request cfg (tokenUri w) (query req !! "code"))
    = Resolved tokenResponse ->
  ok tokenResponse = false ->
  let outcome := exchangeCodeForToken cfg env req w in
  outcome.1 = Normal tt
  /\ response outcome.2 =
     (Some 500,
      Some (Some ("Failed to get token from Epic: Token exchange failed: "
                  ++ pretty (status tokenResponse) ++ " " ++ body_text tokenResponse)))
  /\ files outcome.2 = files w.
Proof.
  intros Hfresh Hread Hvalid Herr Hcode Hnet Hok. cbv zeta.
  rewrite exchange_requests_token by done.
  destruct (checked_frame env (show (query req !! "state")) w)
    as (Ht & Hh & Hb & Hf & Hn & Hu & _).
  set (w1 := checked env (show (query req !! "state")) w) in *.
  unfold try_catch, bind, reading, fetch. rewrite Hu, Hn, Hnet.
  unfold receive. rewrite Hok. simpl.
  unfold bind, lift, Response_text. rewrite Hread. simpl.
  rewrite report_fresh by (simpl; congruence). simpl. by rewrite Hf.
Qed.

(** An invalid state: the response carries the [ReferenceError] raised
    while the intended error was being built. *)
Lemma abort_invalid_state cfg env req w :
  res_head w = None ->
  state_invalid env w (query req !! "state") ->
  (exchangeCodeForToken cfg env req w).1 = Normal tt
  /\ response (exchangeCodeForToken cfg env req w).2 =
     (Some 500, Some (Some "undefined: state is not defined")).
Proof.
  intros Hfresh Hinv.
  destruct (checked_frame env (show (query req !! "state")) w)
    as (Ht & Hh & _).
  rewrite exchange_invalid_state, report_fresh by congruence. done.
Qed.

(** [state] is bound nowhere where line 126 is evaluated. *)
Lemma state_is_unbound : "state" ∉ bindings_at_line_126.
Proof.
  unfold bindings_at_line_126. intros Hin.
  repeat (apply elem_of_cons in Hin as [Heq | Hin]; [discriminate Heq|]).
  by apply elem_of_nil in Hin.
Qed.

(** C8, at a callback with a forged state.  The response is a 500 and
    the listener returns, but the body is [undefined: state is not
    defined]: it names neither the cause [Invalid State] nor the
    message that line 126 gives the error, whatever text [state] could
    have had. *)
Theorem invalid_state_body_lacks_cause :
  let outcome :=
    exchangeCodeForToken sample_cfg (sample_env [])
      (callback [("state", "forged"); ("code", "C1")]) sample_world in
  outcome.1 = Normal tt
  /\ res_head outcome.2 = Some 500
  /\ res_body outcome.2 = Some (Some "undefined: state is not defined")
  /\ forall expected,
       res_body outcome.2 <>
       Some (Some (show (cause (invalid_state_error expected (Some "forged")))
                   ++ ": " ++ message (invalid_state_error expected (Some "forged")))).
Proof.
  cbv zeta.
  assert (Hinv : state_invalid (sample_env []) sample_world
            (query (callback [("state", "forged"); ("code", "C1")]) !! "state")).
  { left. vm_compute. reflexivity. }
  destruct (abort_invalid_state sample_cfg (sample_env [])
              (callback [("state", "forged"); ("code", "C1")]) sample_world
              eq_refl Hinv) as (Hr & Hresp).
  assert (Hhead := f_equal fst Hresp). simpl in Hhead.
  assert (Hbody := f_equal snd Hresp). simpl in Hbody.
  split; [exact Hr|]. split; [exact Hhead|]. split; [exact Hbody|].
  intros expected. rewrite Hbody. simpl. discriminate.
Qed.

End ExchangeProperties.

(** ** The optional requests after the exchange *)

Section FollowUpProperties.
Import Js World Oauth Samples.
Local Open Scope handler_scope.

Implicit Types (cfg : Config) (env : Env) (req : Request) (w : World).

Lemma try_catch_bind_normal {A B} (m : M A) (k : A -> M B) h w a w' :
  m w = (Normal a, w') -> try_catch (bind m k) h w = try_catch (k a) h w'.
Proof. intros H. unfold try_catch, bind. by rewrite H. Qed.

Lemma try_catch_bind_throw {A B} (m : M A) (k : A -> M B) h w e w' :
  m w = (Throw e, w') -> try_catch (bind m k) h w = h e w'.
Proof. intros H. unfold try_catch, bind. by rewrite H. Qed.










(** A token whose profile request can be built has a success page. *)
Lemma successPage_defined cfg env token request profile :
  profile_request_of env token = Some request ->
  exists page, successPage cfg env token profile = Normal page.
Proof.
  unfold profile_request_of, successPage, get. intros Hreq.
  destruct (property token "id_token") as [id_token|]; [|done]. simpl in Hreq.
  destruct (property token "access_token") as [access_token|]; [|done]. simpl in Hreq.
  destruct (jwtDecode env id_token) as [decoded|] eqn:Hd; [|done].
  eauto.
Qed.


(** A successful exchange up to the saving of the token. *)
Lemma exchange_saved cfg env req w tokenResponse token :
  exchange_succeeds cfg env req w tokenResponse token ->
  exchangeCodeForToken cfg env req w =
  try_catch (deliver cfg env token) report (saved cfg env req w token).
Proof.
  intros (Hvalid & Herr & Hcode & Hnet & Hok & Hjson & Hdisk).
  rewrite exchange_requests_token by done.
  destruct (checked_frame env (show (query req !! "state")) w)
    as (Ht & Hh & Hb & Hf & Hn & Hu & _).
  unfold saved.
  set (w1 := checked env (show (query req !! "state")) w) in *.
  rewrite <- Hu, <- Hn in Hnet.
  erewrite try_catch_bind_normal; cycle 1.
  { unfold reading, fetch. rewrite Hnet. reflexivity. }
  unfold receive. rewrite Hok. simpl.
  erewrite try_catch_bind_normal; cycle 1.
  { unfold lift. rewrite Hjson. reflexivity. }
  erewrite try_catch_bind_normal; cycle 1.
  { unfold writeFileSync. rewrite Hdisk. reflexivity. }
  unfold log. simpl. by rewrite <- app_assoc.
Qed.

Lemma saved_frame cfg env req w token :
  res_head (saved cfg env req w token) = res_head w
  /\ res_body (saved cfg env req w token) = res_body w
  /\ fetched (saved cfg env req w token) = S (fetched w)
  /\ listening (saved cfg env req w token) = listening w
  /\ files (saved cfg env req w token) !! "./token.json"
     = Some (JSON_stringify_2 token).
Proof.
  destruct (checked_frame env (show (query req !! "state")) w)
    as (Ht & Hh & Hb & Hf & Hn & Hu & Hl & _).
  unfold saved. simpl. repeat split; try done.
  - congruence.
  - apply lookup_insert_eq.
Qed.




End FollowUpProperties.

(** ** The token record *)

Section RecordProperties.
Import Js World Oauth Samples.
Local Open Scope handler_scope.

Implicit Types (cfg : Config) (env : Env) (req : Request) (w : World).

(** A file written elsewhere leaves the token record. *)
Lemma keeps_record_writeFileSync env path content :
  path <> "./token.json" -> keeps token_record (writeFileSync env path content).
Proof.
  intros Hpath w. unfold writeFileSync, token_record.
  destruct (disk_error env path); simpl; [done|].
  by apply lookup_insert_ne.
Qed.

Lemma keeps_record_requestProfile env token :
  keeps token_record (requestProfile env token).
Proof. unfold requestProfile. repeat keeps_step. Qed.

Lemma keeps_record_testRequests cfg env token :
  keeps token_record (testRequests cfg env token).
Proof.
  unfold testRequests. repeat keeps_step.
  unfold testRequest.
  do 2 (apply keeps_bind; [keeps_step | intros ?]).
  case_match; [apply keeps_bind; [apply keeps_lift | intros ?; apply keeps_ret]|].
  do 2 (apply keeps_bind; [keeps_step | intros ?]).
  apply keeps_record_writeFileSync, response_file_not_token.
Qed.

Lemma keeps_record_deliver cfg env token :
  keeps token_record (deliver cfg env token).
Proof.
  unfold deliver. apply keeps_bind.
  { case_match; [apply keeps_record_requestProfile | apply keeps_ret]. }
  intros profile.
  do 3 (apply keeps_bind; [keeps_step | intros ?]).
  case_match; [apply keeps_record_testRequests | apply keeps_ret].
Qed.

Lemma keeps_record_report e : keeps token_record (report e).
Proof. unfold report. repeat keeps_step. Qed.

(** After a successful exchange the record holds what was written at
    line 164, whatever the rest of the handler does. *)
Lemma token_record_saved cfg env req w tokenResponse token :
  exchange_succeeds cfg env req w tokenResponse token ->
  token_record (exchangeCodeForToken cfg env req w).2
  = Some (JSON_stringify_2 token).
Proof.
  intros Hex. rewrite (exchange_saved _ _ _ _ _ _ Hex).
  rewrite (keeps_try_catch token_record _ _
             (keeps_record_deliver cfg env token) keeps_record_report).
  apply saved_frame.
Qed.

(** C1, as amended.  After every successful token exchange the token
    record is the JSON value of the body of the token endpoint written
    anew with an indentation of two spaces: when the body is the text
    of the token, the record parses as the same value as the body, and
    it has the bytes of the body exactly when the body already has that
    layout. *)
Theorem token_record_is_reserialized cfg env req w tokenResponse token :
  exchange_succeeds cfg env req w tokenResponse token ->
  JSON_parse (body_text tokenResponse) = Some token ->
  let outcome := exchangeCodeForToken cfg env req w in
  exists record,
    token_record outcome.2 = Some record
    /\ record = JSON_stringify_2 token
    /\ JSON_parse record = JSON_parse (body_text tokenResponse)
    /\ (record = body_text tokenResponse
        <-> body_text tokenResponse = JSON_stringify_2 token).
Proof.
  intros Hex Hbody. cbv zeta. exists (JSON_stringify_2 token).
  split; [by eapply token_record_saved|]. split; [done|].
  split; [by apply JSON_parse_reserialized|].
  split; congruence.
Qed.

Lemma token_record_is_reserialized_witness :
  let env := sample_env [Resolved token_response] in
  let req := callback [("state", sample_uuid); ("code", "C1")] in
  exchange_succeeds plain_cfg env req sample_world token_response sample_token
  /\ JSON_parse (body_text token_response) = Some sample_token
  /\ exists record,
       token_record (exchangeCodeForToken plain_cfg env req sample_world).2
       = Some record
       /\ JSON_parse record = JSON_parse (body_text token_response).
Proof.
  intros env req.
  assert (Hex : exchange_succeeds plain_cfg env req sample_world token_response
                  sample_token).
  { split; [|repeat split; reflexivity].
    exists 0. split; [reflexivity|]. vm_compute. discriminate. }
  assert (Hbody : JSON_parse (body_text token_response) = Some sample_token)
    by (vm_compute; reflexivity).
  split; [exact Hex|]. split; [exact Hbody|].
  destruct (token_record_is_reserialized plain_cfg env req sample_world
              token_response sample_token Hex Hbody)
    as (record & Hrecord & _ & Hparse & _).
  exists record. split; [exact Hrecord | exact Hparse].
Defined.

(** C1, as stated, fails on a token endpoint that sends its JSON on one
    line: the exchange succeeds and is answered with a 200, and the
    record has the value of the body but not its bytes. *)
Lemma token_record_differs_from_body :
  let env := sample_env [Resolved token_response] in
  let req := callback [("state", sample_uuid); ("code", "C1")] in
  let outcome := exchangeCodeForToken plain_cfg env req sample_world in
  exchange_succeeds plain_cfg env req sample_world token_response sample_token
  /\ JSON_parse (body_text token_response) = Some sample_token
  /\ res_head outcome.2 = Some 200
  /\ token_record outcome.2 = Some (JSON_stringify_2 sample_token)
  /\ token_record outcome.2 <> Some (body_text token_response).
Proof.
  intros env req outcome.
  assert (Hex : exchange_succeeds plain_cfg env req sample_world token_response
                  sample_token).
  { split; [|repeat split; reflexivity].
    exists 0. split; [reflexivity|]. vm_compute. discriminate. }
  assert (Hrecord : token_record outcome.2 = Some (JSON_stringify_2 sample_token))
    by (by eapply token_record_saved).
  split; [exact Hex|]. split; [vm_compute; reflexivity|].
  split; [vm_compute; reflexivity|]. split; [exact Hrecord|].
  rewrite Hrecord. vm_compute. discriminate.
Qed.

End RecordProperties.

(** ** The additional requests *)

Section ResourceProperties.
Import Js World Oauth Samples.
Local Open Scope handler_scope.

Implicit Types (cfg : Config) (env : Env) (w : World).

(** The iterator on a request that is answered. *)
Lemma testRequest_answered cfg env access_token bearer request w :
  ToString access_token = Normal bearer ->
  (forall path, disk_error env path = None) ->
  (exists res,
     network env (fetched w) (resource_request cfg bearer request) = Resolved res
     /\ (ok res = true -> exists jsonRes, body_json res = Normal jsonRes)
     /\ (ok res = false -> body_failure res = None)) ->
  exists chunk w',
    testRequest cfg env access_token request w = (Normal tt, w')
    /\ trace w' = (trace w ++ chunk)%list
    /\ fetched w' = S (fetched w)
    /\ handled cfg env bearer (fetched w) request chunk.
Proof.
  intros Hbearer Hdisk (res & Hnet & Hjson & Hread).
  unfold testRequest, bind, lift, fetch, Response_text. rewrite Hbearer, Hnet.
  destruct (ok res) eqn:Hok; simpl; [|rewrite (Hread eq_refl); simpl].
  - destruct (Hjson eq_refl) as (jsonRes & Hbody). rewrite Hbody.
    unfold now, writeFileSync. simpl. rewrite Hdisk. simpl.
    eexists _, _. split; [reflexivity|]. simpl. unfold log. simpl.
    split; [by rewrite <- app_assoc|]. split; [done|].
    exists res. rewrite Hok. split; [done|]. by eexists _, _.
  - eexists _, _. split; [reflexivity|]. simpl. unfold log.
    split; [done|]. split; [done|].
    exists res. by rewrite Hok.
Qed.

(** The iteration over resources that are all answered: one chunk per
    resource, in the order of the list. *)
Lemma each_answered cfg env access_token bearer :
  ToString access_token = Normal bearer ->
  (forall path, disk_error env path = None) ->
  forall items w,
    all_answered cfg env bearer (fetched w) items ->
    exists chunks w',
      Bluebird_each items (testRequest cfg env access_token) w = (Normal tt, w')
      /\ trace w' = (trace w ++ concat chunks)%list
      /\ length chunks = length items
      /\ forall i request chunk,
           items !! i = Some request -> chunks !! i = Some chunk ->
           handled cfg env bearer (fetched w + i) request chunk.
Proof.
  intros Hbearer Hdisk items.
  induction items as [|request rest IH]; intros w Hall.
  - exists [], w. simpl. rewrite app_nil_r. repeat split; done.
  - destruct (testRequest_answered cfg env access_token bearer request w
                Hbearer Hdisk) as (chunk & w1 & Hrun & Ht1 & Hn1 & Hh1).
    { specialize (Hall 0%nat request eq_refl). by rewrite Nat.add_0_r in Hall. }
    destruct (IH w1) as (chunks & w2 & Hrun2 & Ht2 & Hlen & Hh2).
    { intros i rq Hi. rewrite Hn1.
      specialize (Hall (S i) rq Hi). by rewrite Nat.add_succ_r in Hall. }
    exists (chunk :: chunks), w2. simpl.
    rewrite (bind_normal _ _ _ _ _ Hrun). split; [done|].
    split; [by rewrite Ht2, Ht1, <- app_assoc|]. split; [by rewrite Hlen|].
    intros [|i] rq c Hi Hc; simpl in Hi, Hc.
    + injection Hi as <-. injection Hc as <-. by rewrite Nat.add_0_r.
    + specialize (Hh2 i rq c Hi Hc). rewrite Hn1 in Hh2.
      by rewrite Nat.add_succ_r.
Qed.

(** The run of [testRequests] when every request is answered: a chunk
    of events per resource. *)
Lemma testRequests_answered cfg env token access_token bearer w :
  property token "access_token" = Some access_token ->
  ToString access_token = Normal bearer ->
  (forall path, disk_error env path = None) ->
  all_answered cfg env bearer (fetched w) (requests cfg) ->
  let outcome := testRequests cfg env token w in
  outcome.1 = Normal tt
  /\ exists chunks,
       trace outcome.2 =
         (trace w
          ++ (if bool_decide (RESPONSE_DIRECTORY ∈ dirs w) then []
              else [EMkdir RESPONSE_DIRECTORY])
          ++ concat chunks)%list
       /\ length chunks = length (requests cfg)
       /\ forall i request chunk,
            requests cfg !! i = Some request -> chunks !! i = Some chunk ->
            handled cfg env bearer (fetched w + i) request chunk.
Proof.
  intros Htoken Hbearer Hdisk Hall. cbv zeta.
  assert (Hrun : exists chunks w',
    testRequests cfg env token w = (Normal tt, w')
    /\ trace w' =
         (trace w
          ++ (if bool_decide (RESPONSE_DIRECTORY ∈ dirs w) then []
              else [EMkdir RESPONSE_DIRECTORY])
          ++ concat chunks)%list
    /\ length chunks = length (requests cfg)
    /\ forall i request chunk,
         requests cfg !! i = Some request -> chunks !! i = Some chunk ->
         handled cfg env bearer (fetched w + i) request chunk).
  { unfold testRequests, get. rewrite Htoken.
    unfold bind at 1, lift. unfold bind at 1, existsSync.
    case_bool_decide as Hdir; simpl.
    - unfold bind at 1, ret.
      destruct (each_answered cfg env access_token bearer Hbearer Hdisk
                  (requests cfg) w Hall) as (chunks & w' & Hrun & Ht & Hlen & Hh).
      by exists chunks, w'.
    - unfold bind at 1, mkdirSync. rewrite Hdisk.
      set (w1 := mkWorld _ _ _ _ _ _ _ _ _ _ _).
      destruct (each_answered cfg env access_token bearer Hbearer Hdisk
                  (requests cfg) w1 Hall) as (chunks & w' & Hrun & Ht & Hlen & Hh).
      exists chunks, w'. split; [done|]. split; [|done].
      rewrite Ht. unfold w1, log. simpl. by rewrite <- app_assoc. }
  destruct Hrun as (chunks & w' & -> & Ht & Hlen & Hh). simpl.
  split; [done|]. by exists chunks.
Qed.

(** The requests of the chunks are those of the resources, in order. *)
Lemma requests_of_app (a b : list Event) :
  requests_of (a ++ b)%list = (requests_of a ++ requests_of b)%list.
Proof.
  induction a as [|[] a IH]; simpl; try done. by rewrite IH.
Qed.

Lemma requests_of_handled cfg env bearer k request chunk :
  handled cfg env bearer k request chunk ->
  requests_of chunk = [resource_request cfg bearer request].
Proof.
  intros (res & _ & H). destruct (ok res).
  - by destruct H as (jsonRes & t & _ & ->).
  - by subst.
Qed.

Lemma requests_of_chunks cfg env bearer : forall items chunks k,
  length chunks = length items ->
  (forall i request chunk,
     items !! i = Some request -> chunks !! i = Some chunk ->
     handled cfg env bearer (k + i) request chunk) ->
  requests_of (concat chunks) = map (resource_request cfg bearer) items.
Proof.
  induction items as [|request items IH]; intros [|chunk chunks] k Hlen Hh;
    try discriminate Hlen; [done|].
  simpl. rewrite requests_of_app.
  rewrite (requests_of_handled cfg env bearer (k + 0) request chunk)
    by (by apply Hh).
  simpl. f_equal. apply (IH chunks (S k)); [by injection Hlen|].
  intros i rq c Hi Hc. replace (S k + i)%nat with (k + S i)%nat by lia.
  by apply Hh.
Qed.

(** The requests that [testRequests] issues are those of the configured
    resources, all of them, in the configured order. *)
Lemma resource_requests_in_order cfg env token access_token bearer w :
  property token "access_token" = Some access_token ->
  ToString access_token = Normal bearer ->
  (forall path, disk_error env path = None) ->
  all_answered cfg env bearer (fetched w) (requests cfg) ->
  exists evs,
    trace (testRequests cfg env token w).2 = (trace w ++ evs)%list
    /\ requests_of evs = map (resource_request cfg bearer) (requests cfg).
Proof.
  intros Htoken Hbearer Hdisk Hall.
  destruct (testRequests_answered cfg env token access_token
              bearer w Htoken Hbearer Hdisk Hall)
    as (_ & chunks & Ht & Hlen & Hh).
  eexists. split; [exact Ht|].
  rewrite requests_of_app, (requests_of_chunks cfg env bearer _ _ _ Hlen Hh).
  by case_bool_decide.
Qed.



(** Three resources, the second answered with a 404: the first and the
    third are requested and written. *)
Example second_of_three_not_found :
  let env := sample_env [Resolved bundle_response; Resolved not_found_response;
                         Resolved bundle_response] in
  trace (testRequests sample_cfg env sample_token sample_world).2 =
  [ EMkdir "./responses";
    EFetch (resource_request sample_cfg "AT-1" Patient);
    EWriteFile "./responses/1000-Patient.json" "[]";
    EFetch (resource_request sample_cfg "AT-1" Appointment);
    EFetch (resource_request sample_cfg "AT-1" Observation);
    EWriteFile "./responses/1001-Observation.json" "[]" ].
Proof. vm_compute. reflexivity. Qed.


End ResourceProperties.

(** ** The server *)

Section ServerProperties.
Import Js World Oauth Server Samples.
Local Open Scope handler_scope.

Implicit Types (cfg : Config) (env : Env) (req : Request) (w : World).













(** *** The redirect of the initialization path *)

Lemma header_value_ok_app (a b : string) :
  header_value_ok (a ++ b) = header_value_ok a && header_value_ok b.
Proof.
  induction a as [|c a IH]; simpl; [done|]. by rewrite IH, andb_assoc.
Qed.

Lemma header_value_ok_urlencode_byte (c : ascii) :
  header_value_ok (urlencode_byte c) = true.
Proof. by destruct c as [[] [] [] [] [] [] [] []]. Qed.

Lemma header_value_ok_urlencode (s : string) : header_value_ok (urlencode s) = true.
Proof.
  induction s as [|c s IH]; simpl; [done|].
  by rewrite header_value_ok_app, header_value_ok_urlencode_byte, IH.
Qed.

Lemma header_value_ok_join (sep : string) (parts : list string) :
  header_value_ok sep = true ->
  Forall (fun p => header_value_ok p = true) parts ->
  header_value_ok (join sep parts) = true.
Proof.
  intros Hsep. induction 1 as [|p rest Hp Hrest IH]; simpl; [done|].
  destruct rest as [|p' rest']; [done|].
  by rewrite !header_value_ok_app, Hp, Hsep, IH.
Qed.

Lemma header_value_ok_URLSearchParams (init : list (string * string)) :
  header_value_ok (URLSearchParams_toString init) = true.
Proof.
  unfold URLSearchParams_toString. apply header_value_ok_join; [done|].
  apply Forall_forall. intros p Hp%list_elem_of_In%in_map_iff.
  destruct Hp as (kv & <- & _).
  by rewrite !header_value_ok_app, !header_value_ok_urlencode.
Qed.

(** The redirect is sent whenever the authorization URI prints as a
    text that a header may hold. *)
Lemma requestEpicAuthorization_returns cfg env req w base :
  res_head w = None ->
  ToString (authUri w) = Normal base ->
  header_value_ok base = true ->
  (requestEpicAuthorization cfg env req w).1 = Normal tt
  /\ response (requestEpicAuthorization cfg env req w).2 = (Some 302, Some None).
Proof.
  intros Hfresh Hbase Hok.
  unfold requestEpicAuthorization, bind, World.generateState, reading, lift.
  simpl. rewrite Hbase. unfold writeHead. cbn [res_head]. rewrite Hfresh.
  cbn [List.find snd negb].
  rewrite !header_value_ok_app, Hok, header_value_ok_URLSearchParams.
  done.
Qed.





(** The routes of the sample configuration. *)
Example sample_routes :
  map (dispatch sample_cfg)
      [Some EmptyString; Some "/"; Some "/init"; Some "/oauth/callback";
       Some "/favicon.ico"; None]
  = [Home; Home; Initialization; Callback; Unknown; Unknown].
Proof. vm_compute. reflexivity. Qed.

End ServerProperties.

(** ** The state store over whole runs *)

Section StateStoreRuns.
Import StateManager Samples.

Implicit Types (s : gmap string Z) (k : string) (cs pre post : list call).

Lemma run_app pre post s :
  run (pre ++ post) s =
  ((run pre s).1 ++ (run post (run pre s).2).1, (run post (run pre s).2).2)%list.
Proof.
  revert s. induction pre as [|c pre IH]; intros s; simpl.
  - by destruct (run post s).
  - destruct (step c s) as [r s1]. rewrite IH.
    destruct (run pre s1) as [rs s2]. simpl.
    by destruct (run post s2).
Qed.

Lemma run_length cs s : length (run cs s).1 = length cs.
Proof.
  revert s. induction cs as [|c cs IH]; intros s; simpl; [done|].
  destruct (step c s) as [r s1]. specialize (IH s1).
  destruct (run cs s1) as [rs s2]. simpl in *. by rewrite IH.
Qed.

(** A slot of the store after a run was there before it, or was set by
    a [generateState] of the run. *)
Lemma slots_were_issued cs s k t :
  (run cs s).2 !! k = Some t -> s !! k = Some t \/ Generate k t ∈ cs.
Proof.
  revert s. induction cs as [|c cs IH]; intros s; simpl; [by left|].
  destruct (step c s) as [r s1] eqn:E1.
  specialize (IH s1). destruct (run cs s1) as [rs s2]. simpl in *.
  intros [H1 | Hin]%IH; [|right; by apply elem_of_cons; right].
  destruct c as [u now | k' now]; simpl in E1.
  - injection E1 as <- <-.
    destruct (decide (u = k)) as [->|Hne].
    + rewrite lookup_insert_eq in H1. injection H1 as ->.
      right. apply elem_of_cons. by left.
    + rewrite lookup_insert_ne in H1 by done. by left.
  - destruct (validateState k' now s) as [b s'] eqn:E.
    injection E1 as <- <-. left.
    destruct (decide (k' = k)) as [->|Hne].
    + pose proof (validateState_removes s k now) as Hrm.
      rewrite E in Hrm. simpl in Hrm. congruence.
    + pose proof (validateState_other s k' k now Hne) as Hoth.
      rewrite E in Hoth. simpl in Hoth. congruence.
Qed.

(** X1. Starting from the empty store, [validateState] answers [true]
    only for a state that an earlier [generateState] of the run handed
    out, at most [STATE_TTL_MS] before: no other text is ever accepted,
    whether it names nothing or a member of [Object.prototype] such as
    [constructor]. *)
Theorem accepted_state_was_issued pre k now post :
  issues_uuids pre = true ->
  (run (pre ++ Validate k now :: post) ∅).1 !! length pre = Some (Verdict true) ->
  exists t0, Generate k t0 ∈ pre /\ now - t0 <= STATE_TTL_MS.
Proof.
  intros _. rewrite run_app. cbn [fst].
  rewrite lookup_app_r by (rewrite run_length; lia).
  rewrite run_length, Nat.sub_diag.
  set (s1 := (run pre ∅).2). simpl.
  destruct (validateState k now s1) as [b s'] eqn:E.
  destruct (run post s') as [rs s2]. simpl. intros [= ->].
  destruct (s1 !! k) as [t|] eqn:Hk.
  - rewrite (validateState_present _ _ t) in E by done.
    injection E as Hb _. apply Z.leb_le in Hb.
    exists t. split; [|done].
    destruct (slots_were_issued pre ∅ k t Hk) as [Habs | Hin]; [|done].
    by rewrite lookup_empty in Habs.
  - by rewrite validateState_absent in E.
Qed.

Lemma accepted_state_was_issued_witness :
  issues_uuids [Generate sample_uuid 0; Validate "constructor" 5] = true
  /\ (run ([Generate sample_uuid 0; Validate "constructor" 5]
        ++ Validate sample_uuid 1000 :: [Validate sample_uuid 1001]) ∅).1
    !! length [Generate sample_uuid 0; Validate "constructor" 5]
  = Some (Verdict true)
  /\ exists t0,
       Generate sample_uuid t0 ∈ [Generate sample_uuid 0; Validate "constructor" 5]
       /\ 1000 - t0 <= STATE_TTL_MS.
Proof.
  split; [reflexivity|]. split; [vm_compute; reflexivity|].
  apply (accepted_state_was_issued
           [Generate sample_uuid 0; Validate "constructor" 5] sample_uuid 1000
           [Validate sample_uuid 1001]); vm_compute; reflexivity.
Defined.

(** X2. Nothing but its own validation removes a pending state: after
    any run that does not validate [k], whatever the clock readings of
    its calls, [k] is still pending, with the time it had or the time
    of a [generateState] of the run that handed it out again. *)
Theorem pending_state_is_never_purged cs s k t :
  issues_uuids cs = true ->
  s !! k = Some t ->
  not_validated k cs = true ->
  exists t', (run cs s).2 !! k = Some t' /\ (t' = t \/ Generate k t' ∈ cs).
Proof.
  intros _. revert s t. induction cs as [|c cs IH]; intros s t Hk Hnv; simpl.
  { exists t. by split; [|left]. }
  simpl in Hnv. apply andb_true_iff in Hnv as [Hc Hnv].
  destruct (step c s) as [r s1] eqn:E1.
  assert (Hs1 : exists t1, s1 !! k = Some t1 /\ (t1 = t \/ Generate k t1 = c)).
  { destruct c as [u now | k' now]; simpl in E1.
    - injection E1 as <- <-. destruct (decide (u = k)) as [->|Hne].
      + exists now. rewrite lookup_insert_eq. by split; [|right].
      + exists t. rewrite lookup_insert_ne by done. by split; [|left].
    - destruct (validateState k' now s) as [b s'] eqn:E.
      injection E1 as <- <-. exists t. split; [|by left].
      apply eqb_false_ne in Hc.
      pose proof (validateState_other s k' k now Hc) as Hoth.
      rewrite E in Hoth. simpl in Hoth. congruence. }
  destruct Hs1 as (t1 & Hk1 & Hfrom).
  destruct (IH s1 t1 Hk1 Hnv) as (t' & Hk' & Hfrom').
  destruct (run cs s1) as [rs s2]. simpl in *.
  exists t'. split; [done|].
  destruct Hfrom' as [-> | Hin].
  - destruct Hfrom as [-> | <-]; [by left|]. right. apply elem_of_cons. by left.
  - right. apply elem_of_cons. by right.
Qed.

Lemma pending_state_is_never_purged_witness :
  issues_uuids [Generate other_uuid 86400000; Validate other_uuid 172800000] = true
  /\ ({[ sample_uuid := 0 ]} : gmap string Z) !! sample_uuid = Some 0
  /\ not_validated sample_uuid
       [Generate other_uuid 86400000; Validate other_uuid 172800000] = true
  /\ exists t',
       (run [Generate other_uuid 86400000; Validate other_uuid 172800000]
            {[ sample_uuid := 0 ]}).2 !! sample_uuid = Some t'
       /\ (t' = 0 \/ Generate sample_uuid t'
                       ∈ [Generate other_uuid 86400000; Validate other_uuid 172800000]).
Proof.
  split; [reflexivity|]. split; [reflexivity|]. split; [reflexivity|].
  apply (pending_state_is_never_purged
           [Generate other_uuid 86400000; Validate other_uuid 172800000]
           {[ sample_uuid := 0 ]} sample_uuid 0); reflexivity.
Defined.

End StateStoreRuns.

(** ** The outcomes of a callback *)

Section CallbackOutcomes.
Import Js World Oauth Server Samples.
Local Open Scope handler_scope.

Implicit Types (cfg : Config) (env : Env) (req : Request) (w : World).

(** *** The state store during a callback *)

Lemma checked_store env k w :
  stateStore (checked env k w) = delete k (stateStore w).
Proof.
  unfold checked, World.validateState.
  destruct (stateStore w !! k) as [t|] eqn:Hk.
  - by rewrite (validateState_present _ _ t).
  - rewrite validateState_absent by done. simpl. by rewrite delete_id.
Qed.

Lemma keeps_store_report e : keeps stateStore (report e).
Proof. unfold report. repeat keeps_step. Qed.

Lemma keeps_store_requestProfile env token :
  keeps stateStore (requestProfile env token).
Proof. unfold requestProfile. repeat keeps_step. Qed.

Lemma keeps_store_testRequests cfg env token :
  keeps stateStore (testRequests cfg env token).
Proof.
  unfold testRequests. repeat keeps_step.
  unfold testRequest. repeat keeps_step.
Qed.

Lemma keeps_store_receive cfg env tokenResponse :
  keeps stateStore (receive cfg env tokenResponse).
Proof.
  unfold receive.
  case_match; [apply keeps_bind; [apply keeps_lift | intros ?; apply keeps_throw]|].
  do 2 (apply keeps_bind; [keeps_step | intros ?]).
  unfold deliver. apply keeps_bind.
  { case_match; [apply keeps_store_requestProfile | apply keeps_ret]. }
  intros profile.
  do 3 (apply keeps_bind; [keeps_step | intros ?]).
  case_match; [apply keeps_store_testRequests | apply keeps_ret].
Qed.

(** What follows a computation [m] in a [try] leaves a component that
    neither the continuation nor the [catch] block touches as [m] left
    it. *)
Lemma try_catch_keeps_after {A B X} (f : World -> X) (m : M A) (k : A -> M B) h w :
  (forall a, keeps f (k a)) -> (forall e, keeps f (h e)) ->
  f (try_catch (bind m k) h w).2 = f (m w).2.
Proof.
  intros Hk Hh. unfold try_catch, bind.
  destruct (m w) as [[a|e] w1]; simpl; [|apply Hh].
  specialize (Hk a w1). destruct (k a w1) as [[b|e] w2]; simpl in *; [done|].
  by rewrite Hh.
Qed.

(** X3. A callback consumes the state it presents, whatever becomes of
    the exchange: after the handler the store is the one before it
    without that state, and every other pending state is as it was. *)
Theorem callback_consumes_state cfg env req w :
  stateStore (exchangeCodeForToken cfg env req w).2
  = delete (show (query req !! "state")) (stateStore w).
Proof.
  unfold exchangeCodeForToken, exchange.
  rewrite try_catch_keeps_after.
  - rewrite validateState_run. apply checked_store.
  - intros valid. repeat case_match; try (by repeat keeps_step).
    apply keeps_bind; [repeat keeps_step | intros tokenResponse].
    apply keeps_store_receive.
  - apply keeps_store_report.
Qed.

(** *** The error responses *)

(** X4. A callback with a valid state and an [error] parameter is
    answered with a 500 whose body is the error, a colon and the
    [error_description] (nothing, when there is none); the handler
    returns, sends no request and writes no file, whatever [code] the
    callback carries. *)
Theorem provider_error_is_reported cfg env req w err :
  res_head w = None ->
  state_valid env w (query req !! "state") ->
  query req !! "error" = Some err ->
  err <> EmptyString ->
  let outcome := exchangeCodeForToken cfg env req w in
  outcome.1 = Normal tt
  /\ response outcome.2 =
     (Some 500,
      Some (Some (err ++ ": " ++ default EmptyString (query req !! "error_description"))))
  /\ fetched outcome.2 = fetched w
  /\ files outcome.2 = files w.
Proof.
  intros Hfresh Hvalid%state_valid_verdict Herr Hne. cbv zeta.
  destruct (checked_frame env (show (query req !! "state")) w)
    as (Ht & Hh & _ & Hf & Hn & _).
  assert (Hrun : exchangeCodeForToken cfg env req w =
    report (new_Error (query req !! "error_description") (Some err))
           (checked env (show (query req !! "state")) w)).
  { unfold exchangeCodeForToken, try_catch, exchange.
    rewrite (bind_normal _ _ _ _ _ (validateState_run _ _ _)), Hvalid, Herr.
    simpl. by destruct err. }
  rewrite Hrun, report_fresh by congruence. done.
Qed.

Lemma provider_error_is_reported_witness :
  let req := callback [("state", sample_uuid); ("error", "access_denied");
                       ("error_description", "The user refused"); ("code", "C1")] in
  res_head sample_world = None
  /\ state_valid (sample_env []) sample_world (query req !! "state")
  /\ query req !! "error" = Some "access_denied"
  /\ "access_denied" <> EmptyString
  /\ response (exchangeCodeForToken sample_cfg (sample_env []) req sample_world).2
     = (Some 500, Some (Some "access_denied: The user refused")).
Proof.
  intros req.
  assert (Hvalid : state_valid (sample_env []) sample_world (query req !! "state")).
  { exists 0. split; [reflexivity|]. vm_compute. discriminate. }
  split; [reflexivity|]. split; [exact Hvalid|]. split; [reflexivity|].
  split; [discriminate|].
  destruct (provider_error_is_reported sample_cfg (sample_env []) req sample_world
              "access_denied" eq_refl Hvalid eq_refl) as (_ & Hresp & _);
    [discriminate|].
  exact Hresp.
Defined.

(** X5. A callback with a valid state, no [error] and no [code] (or an
    empty one) is answered with a 500 whose body is [Missing code:
    Missing authorization code]; the handler returns, sends no request
    and writes no file. *)
Theorem missing_code_is_reported cfg env req w :
  res_head w = None ->
  state_valid env w (query req !! "state") ->
  truthy_string (query req !! "error") = false ->
  truthy_string (query req !! "code") = false ->
  let outcome := exchangeCodeForToken cfg env req w in
  outcome.1 = Normal tt
  /\ response outcome.2 =
     (Some 500, Some (Some "Missing code: Missing authorization code"))
  /\ fetched outcome.2 = fetched w
  /\ files outcome.2 = files w.
Proof.
  intros Hfresh Hvalid%state_valid_verdict Herr Hcode. cbv zeta.
  destruct (checked_frame env (show (query req !! "state")) w)
    as (Ht & Hh & _ & Hf & Hn & _).
  assert (Hrun : exchangeCodeForToken cfg env req w =
    report (new_Error (Some "Missing authorization code") (Some "Missing code"))
           (checked env (show (query req !! "state")) w)).
  { unfold exchangeCodeForToken, try_catch, exchange.
    rewrite (bind_normal _ _ _ _ _ (validateState_run _ _ _)), Hvalid, Herr, Hcode.
    reflexivity. }
  rewrite Hrun, report_fresh by congruence. done.
Qed.

Lemma missing_code_is_reported_witness :
  let req := callback [("state", sample_uuid); ("code", EmptyString)] in
  res_head sample_world = None
  /\ state_valid (sample_env []) sample_world (query req !! "state")
  /\ truthy_string (query req !! "error") = false
  /\ truthy_string (query req !! "code") = false
  /\ response (exchangeCodeForToken sample_cfg (sample_env []) req sample_world).2
     = (Some 500, Some (Some "Missing code: Missing authorization code")).
Proof.
  intros req.
  assert (Hvalid : state_valid (sample_env []) sample_world (query req !! "state")).
  { exists 0. split; [reflexivity|]. vm_compute. discriminate. }
  split; [reflexivity|]. split; [exact Hvalid|]. split; [reflexivity|].
  split; [reflexivity|].
  exact (proj1 (proj2 (missing_code_is_reported sample_cfg (sample_env []) req
                         sample_world eq_refl Hvalid eq_refl eq_refl))).
Defined.

(** X6. When the token endpoint answers with a status outside 200 to
    299, the callback is answered with a 500; the token request is the
    only request and no file is written.  When the text of the answer
    can be read, the body of the 500 is [Failed to get token from Epic:
    Token exchange failed: ], the status, a space and that text; when
    reading it fails ([await tokenResponse.text()] of line 159
    rejects), the body is the cause and the message of that failure. *)
Theorem token_endpoint_failure_is_reported cfg env req w tokenResponse :
  res_head w = None ->
  state_valid env w (query req !! "state") ->
  truthy_string (query req !! "error") = false ->
  truthy_string (query req !! "code") = true ->
  network env (fetched w) (token_request cfg (tokenUri w) (query req !! "code"))
    = Resolved tokenResponse ->
  ok tokenResponse = false ->
  let outcome := exchangeCodeForToken cfg env req w in
  let failure :=
    match Response_text tokenResponse with
    | Normal text =>
        "Failed to get token from Epic: Token exchange failed: "
        ++ pretty (status tokenResponse) ++ " " ++ text
    | Throw e => show (cause e) ++ ": " ++ message e
    end in
  outcome.1 = Normal tt
  /\ response outcome.2 = (Some 500, Some (Some failure))
  /\ trace outcome.2 =
     (trace w ++ [ EFetch (token_request cfg (tokenUri w) (query req !! "code"));
                   EWriteHead 500 []; EEnd (Some failure) ])%list
  /\ files outcome.2 = files w.
Proof.
  intros Hfresh Hvalid Herr Hcode Hnet Hok. cbv zeta.
  rewrite exchange_requests_token by done.
  destruct (checked_frame env (show (query req !! "state")) w)
    as (Ht & Hh & Hb & Hf & Hn & Hu & _).
  set (w1 := checked env (show (query req !! "state")) w) in *.
  unfold try_catch, bind, reading, fetch. rewrite Hu, Hn, Hnet.
  unfold receive. rewrite Hok. simpl. unfold bind, lift.
  destruct (Response_text tokenResponse) as [text|e]; simpl;
    (rewrite report_fresh by (simpl; congruence)); simpl;
    unfold log; rewrite Hf, Ht, <- app_assoc; done.
Qed.

Lemma token_endpoint_failure_is_reported_witness :
  let env := sample_env [Resolved unreadable_response] in
  let req := callback [("state", sample_uuid); ("code", "C1")] in
  res_head sample_world = None
  /\ state_valid env sample_world (query req !! "state")
  /\ truthy_string (query req !! "error") = false
  /\ truthy_string (query req !! "code") = true
  /\ network env (fetched sample_world)
       (token_request sample_cfg (tokenUri sample_world) (query req !! "code"))
     = Resolved unreadable_response
  /\ ok unreadable_response = false
  /\ response (exchangeCodeForToken sample_cfg env req sample_world).2
     = (Some 500, Some (Some "SocketError: other side closed: terminated")).
Proof.
  intros env req.
  assert (Hvalid : state_valid env sample_world (query req !! "state")).
  { exists 0. split; [reflexivity|]. vm_compute. discriminate. }
  split; [reflexivity|]. split; [exact Hvalid|]. split; [reflexivity|].
  split; [reflexivity|]. split; [reflexivity|]. split; [reflexivity|].
  exact (proj1 (proj2 (token_endpoint_failure_is_reported sample_cfg env req
                         sample_world unreadable_response
                         eq_refl Hvalid eq_refl eq_refl eq_refl eq_refl))).
Defined.

(** The same callback when the text of the answer can be read. *)
Example token_endpoint_failure_sample :
  response (exchangeCodeForToken sample_cfg (sample_env [Resolved bad_request_response])
              (callback [("state", sample_uuid); ("code", "C1")]) sample_world).2
  = (Some 500,
     Some (Some "Failed to get token from Epic: Token exchange failed: 400 invalid_grant")).
Proof. vm_compute. reflexivity. Qed.

(** X7. When the token endpoint answers with a status from 200 to 299
    and a body that is not JSON, the callback is answered with a 500
    whose body is the cause and the message of the parse error; no file
    is written. *)
Theorem unparsable_token_is_reported cfg env req w tokenResponse e :
  res_head w = None ->
  state_valid env w (query req !! "state") ->
  truthy_string (query req !! "error") = false ->
  truthy_string (query req !! "code") = true ->
  network env (fetched w) (token_request cfg (tokenUri w) (query req !! "code"))
    = Resolved tokenResponse ->
  ok tokenResponse = true ->
  body_json tokenResponse = Throw e ->
  let outcome := exchangeCodeForToken cfg env req w in
  outcome.1 = Normal tt
  /\ response outcome.2 = (Some 500, Some (Some (show (cause e) ++ ": " ++ message e)))
  /\ files outcome.2 = files w.
Proof.
  intros Hfresh Hvalid Herr Hcode Hnet Hok Hjson. cbv zeta.
  rewrite exchange_requests_token by done.
  destruct (checked_frame env (show (query req !! "state")) w)
    as (Ht & Hh & Hb & Hf & Hn & Hu & _).
  set (w1 := checked env (show (query req !! "state")) w) in *.
  unfold try_catch, bind, reading, fetch. rewrite Hu, Hn, Hnet.
  unfold receive. rewrite Hok. simpl. unfold bind, lift. rewrite Hjson.
  rewrite report_fresh by (simpl; congruence). simpl. by rewrite Hf.
Qed.

Lemma unparsable_token_is_reported_witness :
  let tokenResponse :=
    mkResponse 200 "<html>Sign in</html>"
      (Throw (mkError "SyntaxError" None "Unexpected token '<'")) in
  let env := sample_env [Resolved tokenResponse] in
  let req := callback [("state", sample_uuid); ("code", "C1")] in
  res_head sample_world = None
  /\ state_valid env sample_world (query req !! "state")
  /\ truthy_string (query req !! "error") = false
  /\ truthy_string (query req !! "code") = true
  /\ network env (fetched sample_world)
       (token_request sample_cfg (tokenUri sample_world) (query req !! "code"))
     = Resolved tokenResponse
  /\ ok tokenResponse = true
  /\ response (exchangeCodeForToken sample_cfg env req sample_world).2
     = (Some 500, Some (Some "undefined: Unexpected token '<'")).
Proof.
  intros tokenResponse env req.
  assert (Hvalid : state_valid env sample_world (query req !! "state")).
  { exists 0. split; [reflexivity|]. vm_compute. discriminate. }
  split; [reflexivity|]. split; [exact Hvalid|]. split; [reflexivity|].
  split; [reflexivity|]. split; [reflexivity|]. split; [reflexivity|].
  exact (proj1 (proj2 (unparsable_token_is_reported sample_cfg env req
                         sample_world tokenResponse _
                         eq_refl Hvalid eq_refl eq_refl eq_refl eq_refl eq_refl))).
Defined.

(** *** The successful callback *)

(** X8. The effects of a callback whose exchange succeeds, with no
    profile and no additional resources asked for, are five, in this
    order: the token request, the writing of token.json, the head of
    the 200, the success page that ends the response, and the closing
    of the server.  The token is on the disk before the browser is
    told of the success. *)
Theorem successful_callback_sequence cfg env req w tokenResponse token page :
  res_head w = None ->
  dispatch cfg (pathname req) = Callback ->
  FETCH_PROFILE cfg = false ->
  FETCH_ADDITIONAL_RESOURCES cfg = false ->
  exchange_succeeds cfg env req w tokenResponse token ->
  successPage cfg env token None = Normal page ->
  let outcome := listener cfg env req w in
  outcome.1 = Normal tt
  /\ trace outcome.2 =
     (trace w ++ [ EFetch (token_request cfg (tokenUri w) (query req !! "code"));
                   EWriteFile "./token.json" (JSON_stringify_2 token);
                   EWriteHead 200 [("Content-Type", "text/html")];
                   EEnd (Some page);
                   EClose ])%list
  /\ response outcome.2 = (Some 200, Some (Some page))
  /\ listening outcome.2 = false.
Proof.
  intros Hfresh Hroute Hprofile Hmore Hex Hpage. cbv zeta.
  unfold listener. rewrite Hroute.
  destruct (checked_frame env (show (query req !! "state")) w)
    as (Ht & _ & _ & _ & _ & Hu & _).
  assert (Hrun : exchangeCodeForToken cfg env req w =
    (Normal tt,
     let w3 := saved cfg env req w token in
     mkWorld (stateStore w3) (authUri w3) (tokenUri w3) (files w3) (dirs w3)
             (Some 200) (Some (Some page)) (listening w3) (ticks w3) (fetched w3)
             (trace w3 ++ [EWriteHead 200 [("Content-Type", "text/html")];
                           EEnd (Some page)]))).
  { rewrite (exchange_saved _ _ _ _ _ _ Hex).
    destruct (saved_frame cfg env req w token) as (Hh & _).
    set (w3 := saved cfg env req w token) in *. clearbody w3.
    unfold deliver. rewrite Hprofile, Hmore.
    erewrite try_catch_bind_normal; cycle 1.
    { reflexivity. }
    erewrite try_catch_bind_normal; cycle 1.
    { unfold writeHead. simpl. rewrite Hh, Hfresh. reflexivity. }
    erewrite try_catch_bind_normal; cycle 1.
    { unfold lift. rewrite Hpage. reflexivity. }
    erewrite try_catch_bind_normal; cycle 1.
    { unfold end_. reflexivity. }
    unfold try_catch, ret, log. simpl. by rewrite <- app_assoc. }
  unfold bind. rewrite Hrun. unfold server_close, response, log, saved.
  cbn [fst snd res_head res_body listening trace].
  rewrite Ht, Hu, <- !app_assoc. done.
Qed.

Lemma successful_callback_sequence_witness :
  let env := sample_env [Resolved token_response] in
  let req := callback [("state", sample_uuid); ("code", "C1")] in
  res_head sample_world = None
  /\ dispatch plain_cfg (pathname req) = Callback
  /\ FETCH_PROFILE plain_cfg = false
  /\ FETCH_ADDITIONAL_RESOURCES plain_cfg = false
  /\ exchange_succeeds plain_cfg env req sample_world token_response sample_token
  /\ exists page,
       successPage plain_cfg env sample_token None = Normal page
       /\ response (listener plain_cfg env req sample_world).2
          = (Some 200, Some (Some page))
       /\ listening (listener plain_cfg env req sample_world).2 = false.
Proof.
  intros env req.
  assert (Hex : exchange_succeeds plain_cfg env req sample_world
                  token_response sample_token).
  { split; [|repeat split; reflexivity].
    exists 0. split; [reflexivity|]. vm_compute. discriminate. }
  split; [reflexivity|]. split; [reflexivity|]. split; [reflexivity|].
  split; [reflexivity|]. split; [exact Hex|].
  eexists. split; [reflexivity|].
  destruct (successful_callback_sequence plain_cfg env req sample_world
              token_response sample_token _
              eq_refl eq_refl eq_refl eq_refl Hex eq_refl) as (_ & _ & Hresp & Hl).
  split; [exact Hresp | exact Hl].
Defined.

(** *** A success page that cannot be built *)

(** X9. When the exchange has succeeded, no profile is asked for and
    the success page cannot be built (the token is [null], or its
    [id_token] is missing or cannot be decoded), the failure comes
    after the head of the 200 has been written: the [catch] block
    throws in turn, the exception escapes the listener, the response is
    never ended and the server is not closed in an orderly way, while
    the token has been saved. *)
Theorem success_page_failure_escapes cfg env req w tokenResponse token e :
  res_head w = None ->
  dispatch cfg (pathname req) = Callback ->
  FETCH_PROFILE cfg = false ->
  exchange_succeeds cfg env req w tokenResponse token ->
  successPage cfg env token None = Throw e ->
  let outcome := listener cfg env req w in
  outcome.1 = Throw ERR_HTTP_HEADERS_SENT
  /\ response outcome.2 = (Some 200, res_body w)
  /\ token_record outcome.2 = Some (JSON_stringify_2 token)
  /\ listening outcome.2 = listening w
  /\ accepting outcome = false.
Proof.
  intros Hfresh Hroute Hprofile Hex Hpage. cbv zeta.
  unfold listener. rewrite Hroute.
  assert (Hrun : exchangeCodeForToken cfg env req w =
    (Throw ERR_HTTP_HEADERS_SENT,
     let w3 := saved cfg env req w token in
     mkWorld (stateStore w3) (authUri w3) (tokenUri w3) (files w3) (dirs w3)
             (Some 200) (res_body w3) (listening w3) (ticks w3) (fetched w3)
             (trace w3 ++ [EWriteHead 200 [("Content-Type", "text/html")]]))).
  { rewrite (exchange_saved _ _ _ _ _ _ Hex).
    destruct (saved_frame cfg env req w token) as (Hh & _).
    set (w3 := saved cfg env req w token) in *. clearbody w3.
    unfold deliver. rewrite Hprofile.
    erewrite try_catch_bind_normal; cycle 1.
    { reflexivity. }
    erewrite try_catch_bind_normal; cycle 1.
    { unfold writeHead. simpl. rewrite Hh, Hfresh. reflexivity. }
    erewrite try_catch_bind_throw; cycle 1.
    { unfold lift. rewrite Hpage. reflexivity. }
    by rewrite (report_begun e _ 200). }
  unfold bind. rewrite Hrun.
  destruct (saved_frame cfg env req w token) as (_ & Hb & _ & Hl & Hrec).
  unfold response, token_record, accepting.
  cbn [fst snd res_head res_body files listening]. by rewrite Hb, Hl, Hrec.
Qed.

Lemma success_page_failure_escapes_witness :
  let env := sample_env [Resolved opaque_token_response] in
  let req := callback [("state", sample_uuid); ("code", "C1")] in
  res_head sample_world = None
  /\ dispatch plain_cfg (pathname req) = Callback
  /\ FETCH_PROFILE plain_cfg = false
  /\ exchange_succeeds plain_cfg env req sample_world opaque_token_response opaque_token
  /\ (exists e, successPage plain_cfg env opaque_token None = Throw e)
  /\ (listener plain_cfg env req sample_world).1 = Throw ERR_HTTP_HEADERS_SENT
  /\ accepting (listener plain_cfg env req sample_world) = false.
Proof.
  intros env req.
  assert (Hex : exchange_succeeds plain_cfg env req sample_world
                  opaque_token_response opaque_token).
  { split; [|repeat split; reflexivity].
    exists 0. split; [reflexivity|]. vm_compute. discriminate. }
  split; [reflexivity|]. split; [reflexivity|]. split; [reflexivity|].
  split; [exact Hex|]. split; [eexists; reflexivity|].
  destruct (success_page_failure_escapes plain_cfg env req sample_world
              opaque_token_response opaque_token _
              eq_refl eq_refl eq_refl Hex eq_refl) as (Hthrow & _ & _ & _ & Hacc).
  split; [exact Hthrow | exact Hacc].
Defined.

(** X10. Unless [SHOW_TOKEN_IN_BROWSER] is [true], the success page says
    nothing of the token: two tokens for which a page is built give the
    same page for the same profile. *)
Theorem success_page_hides_token cfg env token token' profile page page' :
  SHOW_TOKEN_IN_BROWSER cfg = false ->
  successPage cfg env token profile = Normal page ->
  successPage cfg env token' profile = Normal page' ->
  page = page'.
Proof.
  unfold successPage. intros ->.
  destruct (get _ token _) as [id|]; [|done].
  destruct (jwtDecode env id) as [decoded|]; [|done].
  destruct (get _ token' _) as [id'|]; [|done].
  destruct (jwtDecode env id') as [decoded'|]; [|done].
  by intros [= <-] [= <-].
Qed.

Lemma success_page_hides_token_witness :
  SHOW_TOKEN_IN_BROWSER sample_cfg = false
  /\ exists page,
       successPage sample_cfg (sample_env []) sample_token None = Normal page
       /\ successPage sample_cfg (sample_env [])
            (JObject [ ("access_token", JString "AT-9");
                       ("id_token", JString sample_id_token) ]) None
          = Normal page.
Proof.
  split; [reflexivity|].
  eexists. split; [reflexivity|].
  rewrite (success_page_hides_token sample_cfg (sample_env []) sample_token
             (JObject [ ("access_token", JString "AT-9");
                        ("id_token", JString sample_id_token) ])
             None _ _ eq_refl eq_refl eq_refl).
  reflexivity.
Defined.

(** *** The fields of the token request *)

Lemma occurrences_app c (a b : string) :
  occurrences c (a ++ b) = (occurrences c a + occurrences c b)%nat.
Proof. induction a as [|c' a IH]; simpl; [done|]. rewrite IH. lia. Qed.

Lemma all_chars_app p (a b : string) :
  all_chars p (a ++ b) = all_chars p a && all_chars p b.
Proof. induction a as [|c a IH]; simpl; [done|]. by rewrite IH, andb_assoc. Qed.

Lemma form_char_urlencode_byte (c : ascii) :
  all_chars form_char (urlencode_byte c) = true.
Proof. by destruct c as [[] [] [] [] [] [] [] []]. Qed.

Lemma form_char_urlencode (s : string) : all_chars form_char (urlencode s) = true.
Proof.
  induction s as [|c s IH]; simpl; [done|].
  by rewrite all_chars_app, form_char_urlencode_byte, IH.
Qed.

(** A character that the serializer never writes in a name or a value
    does not occur in one. *)
Lemma occurrences_form_chars c (s : string) :
  form_char c = false -> all_chars form_char s = true -> occurrences c s = 0%nat.
Proof.
  intros Hc. induction s as [|c' s IH]; simpl; [done|].
  intros [Hc' Hs]%andb_true_iff. rewrite IH by done.
  destruct (Ascii.eqb_spec c' c) as [->|]; [congruence | done].
Qed.

Lemma occurrences_field c (kv : string * string) :
  form_char c = false ->
  occurrences c (urlencode kv.1 ++ "=" ++ urlencode kv.2)
  = if Ascii.eqb "="%char c then 1%nat else 0%nat.
Proof.
  intros Hc. rewrite !occurrences_app.
  rewrite (occurrences_form_chars c (urlencode kv.1)), (occurrences_form_chars c (urlencode kv.2))
    by (done || apply form_char_urlencode).
  cbn [occurrences]. destruct (Ascii.eqb "=" c); lia.
Qed.

Lemma occurrences_URLSearchParams (init : list (string * string)) :
  init <> [] ->
  occurrences "&" (URLSearchParams_toString init) = (length init - 1)%nat
  /\ occurrences "=" (URLSearchParams_toString init) = length init.
Proof.
  unfold URLSearchParams_toString.
  induction init as [|kv init IH]; [done|]. intros _.
  destruct init as [|kv' init].
  - cbn [map join length]. by rewrite !occurrences_field.
  - destruct IH as [IH1 IH2]; [done|].
    cbn [map length] in *. rewrite join_cons.
    rewrite !(occurrences_app _ _ (_ ++ join _ _)), !(occurrences_app _ "&").
    rewrite !occurrences_field by done.
    rewrite IH1, IH2. simpl. lia.
Qed.

Lemma query_char_URLSearchParams (init : list (string * string)) :
  all_chars query_char (URLSearchParams_toString init) = true.
Proof.
  assert (Hweak : forall s, all_chars form_char s = true -> all_chars query_char s = true).
  { induction s as [|c s IH]; simpl; [done|].
    intros [Hc Hs]%andb_true_iff. unfold query_char at 1. by rewrite Hc, IH. }
  unfold URLSearchParams_toString.
  induction init as [|kv init IH]; [done|].
  assert (Hkv : all_chars query_char (urlencode kv.1 ++ "=" ++ urlencode kv.2) = true).
  { rewrite !all_chars_app.
    rewrite (Hweak (urlencode kv.1)), (Hweak (urlencode kv.2))
      by apply form_char_urlencode.
    done. }
  destruct init as [|kv' init]; [exact Hkv|].
  cbn [map] in *. rewrite join_cons.
  rewrite (all_chars_app _ _ (_ ++ join _ _)), (all_chars_app _ "&"), Hkv, IH. done.
Qed.

(** X11. The body of the token request has the fields the handler puts
    in it and no other, whatever the [code] of the callback holds: four
    (five with a client secret) [name=value] pairs separated by [&], in
    which neither character occurs otherwise. *)
Theorem token_request_fields_are_fixed cfg tokenUri code :
  exists form,
    body (token_request cfg tokenUri code) = Some form
    /\ occurrences "&" form = (3 + length (secret_entry cfg))%nat
    /\ occurrences "=" form = (4 + length (secret_entry cfg))%nat
    /\ all_chars query_char form = true.
Proof.
  set (fields := ([ ("grant_type", "authorization_code");
                    ("code", show code);
                    ("redirect_uri", REDIRECT_URI cfg);
                    ("client_id", show (env_CLIENT_ID cfg)) ]
                  ++ secret_entry cfg)%list).
  exists (URLSearchParams_toString fields). split; [reflexivity|].
  destruct (occurrences_URLSearchParams fields) as [Hamp Heq]; [done|].
  rewrite Hamp, Heq.
  split; [|split]; [| |apply query_char_URLSearchParams];
    unfold fields; rewrite length_app; simpl; lia.
Qed.

End CallbackOutcomes.

(** ** The profile and the resources *)

Section FollowUpOutcomes.
Import Js World Oauth Samples.
Local Open Scope handler_scope.

Implicit Types (cfg : Config) (env : Env) (req : Request) (w : World).

(** The profile request answered with a status from 200 to 299 and a
    JSON body: [requestProfile] returns the parsed body. *)
Lemma requestProfile_success env token request profileResponse profile w :
  profile_request_of env token = Some request ->
  network env (fetched w) request = Resolved profileResponse ->
  ok profileResponse = true ->
  body_json profileResponse = Normal profile ->
  requestProfile env token w =
  (Normal (Some profile),
   mkWorld (stateStore w) (authUri w) (tokenUri w) (files w) (dirs w)
           (res_head w) (res_body w) (listening w) (ticks w)
           (S (fetched w)) (trace w ++ [EFetch request])).
Proof.
  unfold profile_request_of, requestProfile, get. intros Hreq Hnet Hok Hjson.
  destruct (property token "id_token") as [id_token|]; [|done]. simpl in Hreq.
  destruct (property token "access_token") as [access_token|]; [|done]. simpl in Hreq.
  destruct (jwtDecode env id_token) as [decoded|] eqn:Hd; [|done]. simpl in Hreq.
  destruct (property decoded "fhirUser") as [url|] eqn:Hu; [|done]. simpl in Hreq.
  destruct (ToString access_token) as [bearer|] eqn:Hb; [|done]. simpl in Hreq.
  injection Hreq as <-.
  unfold bind, lift. rewrite Hd. simpl. unfold get. rewrite Hu. simpl.
  rewrite Hb. unfold fetch. rewrite Hnet. simpl. by rewrite Hok, Hjson.
Qed.

(** X12. When profile-fetch is enabled (and the additional resources
    are not) and the profile request is answered with a status from 200
    to 299 and a JSON body, the profile is fetched after the token has
    been saved and before anything is sent to the browser, and the
    response is the 200 with the success page built from the token and
    that profile. *)
Theorem profile_is_fetched_before_the_page cfg env req w tokenResponse token
    request profileResponse profile :
  res_head w = None ->
  FETCH_PROFILE cfg = true ->
  FETCH_ADDITIONAL_RESOURCES cfg = false ->
  exchange_succeeds cfg env req w tokenResponse token ->
  profile_request_of env token = Some request ->
  network env (S (fetched w)) request = Resolved profileResponse ->
  ok profileResponse = true ->
  body_json profileResponse = Normal profile ->
  let outcome := exchangeCodeForToken cfg env req w in
  exists page,
    successPage cfg env token (Some profile) = Normal page
    /\ outcome.1 = Normal tt
    /\ response outcome.2 = (Some 200, Some (Some page))
    /\ trace outcome.2 =
       (trace w ++ [ EFetch (token_request cfg (tokenUri w) (query req !! "code"));
                     EWriteFile "./token.json" (JSON_stringify_2 token);
                     EFetch request;
                     EWriteHead 200 [("Content-Type", "text/html")];
                     EEnd (Some page) ])%list.
Proof.
  intros Hfresh Hprofile Hmore Hex Hreq Hnet Hok Hjson. cbv zeta.
  destruct (successPage_defined cfg env token request (Some profile) Hreq)
    as (page & Hpage).
  exists page. split; [done|].
  destruct (checked_frame env (show (query req !! "state")) w)
    as (Ht & _ & _ & _ & _ & Hu & _).
  assert (Hrun : exchangeCodeForToken cfg env req w =
    (Normal tt,
     let w3 := saved cfg env req w token in
     mkWorld (stateStore w3) (authUri w3) (tokenUri w3) (files w3) (dirs w3)
             (Some 200) (Some (Some page)) (listening w3) (ticks w3)
             (S (fetched w3))
             ((trace w3 ++ [EFetch request])
              ++ [EWriteHead 200 [("Content-Type", "text/html")];
                  EEnd (Some page)]))).
  { rewrite (exchange_saved _ _ _ _ _ _ Hex).
    destruct (saved_frame cfg env req w token) as (Hh & _ & Hn & _).
    set (w3 := saved cfg env req w token) in *. clearbody w3.
    unfold deliver. rewrite Hprofile, Hmore.
    erewrite try_catch_bind_normal; cycle 1.
    { apply (requestProfile_success env token request profileResponse profile);
        [done | by rewrite Hn | done | done]. }
    erewrite try_catch_bind_normal; cycle 1.
    { unfold writeHead. simpl. rewrite Hh, Hfresh. reflexivity. }
    erewrite try_catch_bind_normal; cycle 1.
    { unfold lift. rewrite Hpage. reflexivity. }
    erewrite try_catch_bind_normal; cycle 1.
    { unfold end_. reflexivity. }
    unfold try_catch, ret, log. simpl. by rewrite <- !app_assoc. }
  rewrite Hrun. unfold response, saved.
  cbn [fst snd res_head res_body trace].
  rewrite Ht, Hu, <- !app_assoc. done.
Qed.

Lemma profile_is_fetched_before_the_page_witness :
  let profile := JObject [("resourceType", JString "Practitioner")] in
  let profileResponse := mkResponse 200 EmptyString (Normal profile) in
  let cfg := mkConfig (Some "https://fhir.example/api/FHIR/R4") (Some "client-1") None
               None None (Some "/oauth/callback") (Some "/init") None
               (Some "true") None None [] in
  let env := sample_env [Resolved token_response; Resolved profileResponse] in
  let req := callback [("state", sample_uuid); ("code", "C1")] in
  res_head sample_world = None
  /\ FETCH_PROFILE cfg = true
  /\ FETCH_ADDITIONAL_RESOURCES cfg = false
  /\ exchange_succeeds cfg env req sample_world token_response sample_token
  /\ (exists request,
        profile_request_of env sample_token = Some request
        /\ network env 1 request = Resolved profileResponse)
  /\ ok profileResponse = true
  /\ exists page,
       successPage cfg env sample_token (Some profile) = Normal page
       /\ response (exchangeCodeForToken cfg env req sample_world).2
          = (Some 200, Some (Some page)).
Proof.
  intros profile profileResponse cfg env req.
  assert (Hex : exchange_succeeds cfg env req sample_world token_response sample_token).
  { split; [|repeat split; reflexivity].
    exists 0. split; [reflexivity|]. vm_compute. discriminate. }
  split; [reflexivity|]. split; [reflexivity|]. split; [reflexivity|].
  split; [exact Hex|]. split; [eexists; split; reflexivity|].
  split; [reflexivity|].
  destruct (profile_is_fetched_before_the_page cfg env req sample_world
              token_response sample_token _ profileResponse profile
              eq_refl eq_refl eq_refl Hex eq_refl eq_refl eq_refl eq_refl)
    as (page & Hpage & _ & Hresp & _).
  exists page. split; [exact Hpage | exact Hresp].
Defined.

(** X13. When profile-fetch is enabled and the ID token of the saved
    token cannot be decoded, [requestProfile] throws before any
    profile request and before the head of the response: the callback
    is answered with a 500 whose body is the cause and the message of
    the decoder's error, and the token request is the only request. *)
Theorem undecodable_id_token_is_reported cfg env req w tokenResponse token
    id_token e :
  res_head w = None ->
  FETCH_PROFILE cfg = true ->
  exchange_succeeds cfg env req w tokenResponse token ->
  property token "id_token" = Some id_token ->
  jwtDecode env id_token = Throw e ->
  let outcome := exchangeCodeForToken cfg env req w in
  outcome.1 = Normal tt
  /\ response outcome.2 = (Some 500, Some (Some (show (cause e) ++ ": " ++ message e)))
  /\ fetched outcome.2 = S (fetched w)
  /\ token_record outcome.2 = Some (JSON_stringify_2 token).
Proof.
  intros Hfresh Hprofile Hex Hid Hdecode. cbv zeta.
  assert (exists access_token, property token "access_token" = Some access_token)
    as [access_token Haccess].
  { destruct token; try discriminate Hid; by eexists. }
  rewrite (exchange_saved _ _ _ _ _ _ Hex).
  destruct (saved_frame cfg env req w token) as (Hh & Hb & Hn & _ & Hrec).
  set (w3 := saved cfg env req w token) in *. clearbody w3.
  unfold deliver. rewrite Hprofile.
  assert (Hthrow : requestProfile env token w3 = (Throw e, w3)).
  { unfold requestProfile, get, bind, lift. by rewrite Hid, Haccess, Hdecode. }
  erewrite try_catch_bind_throw by exact Hthrow.
  rewrite report_fresh by congruence.
  unfold response, token_record. simpl. by rewrite Hrec, Hn.
Qed.

Lemma undecodable_id_token_is_reported_witness :
  let env := sample_env [Resolved opaque_token_response] in
  let req := callback [("state", sample_uuid); ("code", "C1")] in
  res_head sample_world = None
  /\ FETCH_PROFILE sample_cfg = true
  /\ exchange_succeeds sample_cfg env req sample_world opaque_token_response opaque_token
  /\ property opaque_token "id_token" = Some None
  /\ jwtDecode env None
     = Throw (mkError "InvalidTokenError" None "Invalid token specified: must be a string")
  /\ response (exchangeCodeForToken sample_cfg env req sample_world).2
     = (Some 500, Some (Some "undefined: Invalid token specified: must be a string")).
Proof.
  intros env req.
  assert (Hex : exchange_succeeds sample_cfg env req sample_world
                  opaque_token_response opaque_token).
  { split; [|repeat split; reflexivity].
    exists 0. split; [reflexivity|]. vm_compute. discriminate. }
  split; [reflexivity|]. split; [reflexivity|]. split; [exact Hex|].
  split; [reflexivity|]. split; [reflexivity|].
  exact (proj1 (proj2 (undecodable_id_token_is_reported sample_cfg env req sample_world
                         opaque_token_response opaque_token None _
                         eq_refl eq_refl Hex eq_refl eq_refl))).
Defined.

(** X14. When profile-fetch is enabled and the profile request gets no
    answer (the promise of [fetch] is rejected) after a successful
    exchange, the callback is answered with a 500 whose body is the
    cause and the message of the rejection, although the token has been
    saved; the handler returns. *)
Theorem profile_rejection_is_reported cfg env req w tokenResponse token request e :
  res_head w = None ->
  FETCH_PROFILE cfg = true ->
  exchange_succeeds cfg env req w tokenResponse token ->
  profile_request_of env token = Some request ->
  network env (S (fetched w)) request = Rejected e ->
  let outcome := exchangeCodeForToken cfg env req w in
  outcome.1 = Normal tt
  /\ response outcome.2 = (Some 500, Some (Some (show (cause e) ++ ": " ++ message e)))
  /\ token_record outcome.2 = Some (JSON_stringify_2 token).
Proof.
  intros Hfresh Hprofile Hex Hreq Hnet. cbv zeta.
  rewrite (exchange_saved _ _ _ _ _ _ Hex).
  destruct (saved_frame cfg env req w token) as (Hh & Hb & Hn & _ & Hrec).
  set (w3 := saved cfg env req w token) in *. clearbody w3.
  unfold deliver. rewrite Hprofile.
  assert (Hthrow : requestProfile env token w3 =
    (Throw e,
     mkWorld (stateStore w3) (authUri w3) (tokenUri w3) (files w3) (dirs w3)
             (res_head w3) (res_body w3) (listening w3) (ticks w3)
             (S (fetched w3)) (trace w3 ++ [EFetch request]))).
  { revert Hreq. unfold profile_request_of, requestProfile, get.
    destruct (property token "id_token") as [id_token|]; [|done]. simpl.
    destruct (property token "access_token") as [access_token|]; [|done]. simpl.
    destruct (jwtDecode env id_token) as [decoded|] eqn:Hd; [|done]. simpl.
    destruct (property decoded "fhirUser") as [url|] eqn:Hu; [|done]. simpl.
    destruct (ToString access_token) as [bearer|] eqn:Hbearer; [|done]. simpl.
    intros [= <-].
    unfold bind, lift. rewrite Hd. simpl. unfold get. rewrite Hu. simpl.
    rewrite Hbearer. unfold fetch. by rewrite Hn, Hnet. }
  erewrite try_catch_bind_throw by exact Hthrow.
  rewrite report_fresh by (simpl; congruence).
  unfold response, token_record. simpl. by rewrite Hrec.
Qed.

Lemma profile_rejection_is_reported_witness :
  let env := sample_env [Resolved token_response; Rejected connection_refused] in
  let req := callback [("state", sample_uuid); ("code", "C1")] in
  res_head sample_world = None
  /\ FETCH_PROFILE sample_cfg = true
  /\ exchange_succeeds sample_cfg env req sample_world token_response sample_token
  /\ (exists request,
        profile_request_of env sample_token = Some request
        /\ network env 1 request = Rejected connection_refused)
  /\ (exchangeCodeForToken sample_cfg env req sample_world).1 = Normal tt
  /\ res_head (exchangeCodeForToken sample_cfg env req sample_world).2 = Some 500.
Proof.
  intros env req.
  assert (Hex : exchange_succeeds sample_cfg env req sample_world token_response sample_token).
  { split; [|repeat split; reflexivity].
    exists 0. split; [reflexivity|]. vm_compute. discriminate. }
  split; [reflexivity|]. split; [reflexivity|]. split; [exact Hex|].
  split; [eexists; split; reflexivity|].
  destruct (profile_rejection_is_reported sample_cfg env req sample_world
              token_response sample_token _ connection_refused
              eq_refl eq_refl Hex eq_refl eq_refl) as (Hr & Hresp & _).
  split; [exact Hr | exact (f_equal fst Hresp)].
Defined.

(** *** The iteration over the resources *)

Lemma Bluebird_each_app {A} (a b : list A) (it : A -> M unit) w :
  Bluebird_each (a ++ b) it w
  = bind (Bluebird_each a it) (fun _ => Bluebird_each b it) w.
Proof.
  revert w. induction a as [|x a IH]; intros w; simpl; [done|].
  unfold bind at 1 2 3. destruct (it x w) as [[[]|e] w1]; [|done].
  rewrite IH. reflexivity.
Qed.

Lemma each_answered_fetched cfg env access_token bearer :
  ToString access_token = Normal bearer ->
  (forall path, disk_error env path = None) ->
  forall items w,
    all_answered cfg env bearer (fetched w) items ->
    fetched (Bluebird_each items (testRequest cfg env access_token) w).2
    = (fetched w + length items)%nat.
Proof.
  intros Hbearer Hdisk items.
  induction items as [|request rest IH]; intros w Hall; simpl; [lia|].
  destruct (testRequest_answered cfg env access_token bearer request w
              Hbearer Hdisk) as (chunk & w1 & Hrun & _ & Hn1 & _).
  { specialize (Hall 0%nat request eq_refl). by rewrite Nat.add_0_r in Hall. }
  rewrite (bind_normal _ _ _ _ _ Hrun), IH, Hn1; [lia|].
  intros i rq Hi. rewrite Hn1.
  specialize (Hall (S i) rq Hi). by rewrite Nat.add_succ_r in Hall.
Qed.

(** X15. A request for a resource that gets no answer (the promise of
    [fetch] is rejected) ends the iteration of [testRequests], when the
    requests before it are answered, the answers with a status from 200
    to 299 with a JSON body and the others with a body that can be
    read, and the disk accepts the writes: the resources before it have
    been requested in order, the rejection is what [testRequests]
    throws, and none of the resources after it is requested. *)
Theorem rejected_request_ends_iteration cfg env token access_token bearer
    before request after w e :
  property token "access_token" = Some access_token ->
  ToString access_token = Normal bearer ->
  (forall path, disk_error env path = None) ->
  requests cfg = (before ++ request :: after)%list ->
  all_answered cfg env bearer (fetched w) before ->
  network env (fetched w + length before) (resource_request cfg bearer request)
    = Rejected e ->
  let outcome := testRequests cfg env token w in
  outcome.1 = Throw e
  /\ fetched outcome.2 = (fetched w + length before + 1)%nat
  /\ exists evs,
       trace outcome.2 = (trace w ++ evs)%list
       /\ requests_of evs = map (resource_request cfg bearer) (before ++ [request]).
Proof.
  intros Htoken Hbearer Hdisk Hitems Hall Hnet. cbv zeta.
  assert (Heach : forall w1, fetched w1 = fetched w ->
    exists evs w',
      Bluebird_each (requests cfg) (testRequest cfg env access_token) w1 = (Throw e, w')
      /\ fetched w' = (fetched w + length before + 1)%nat
      /\ trace w' = (trace w1 ++ evs)%list
      /\ requests_of evs = map (resource_request cfg bearer) (before ++ [request])).
  { intros w1 Hn. rewrite Hitems, Bluebird_each_app.
    rewrite <- Hn in Hall.
    pose proof (each_answered_fetched cfg env access_token bearer Hbearer Hdisk
                  before w1 Hall) as Hcount.
    destruct (each_answered cfg env access_token bearer Hbearer Hdisk before w1 Hall)
      as (chunks & w2 & Hrun & Ht & Hlen & Hh).
    rewrite Hrun in Hcount. simpl in Hcount.
    rewrite (bind_normal _ _ _ _ _ Hrun). simpl.
    unfold bind at 1, testRequest, bind at 1, lift. rewrite Hbearer.
    unfold bind at 1, fetch. rewrite Hcount, Hn, Hnet.
    eexists _, _. split; [reflexivity|]. simpl.
    split; [lia|]. unfold log. rewrite Ht, <- app_assoc. split; [reflexivity|].
    rewrite requests_of_app, map_app.
    by rewrite (requests_of_chunks cfg env bearer _ _ _ Hlen Hh). }
  assert (Hrun : exists evs w',
    testRequests cfg env token w = (Throw e, w')
    /\ fetched w' = (fetched w + length before + 1)%nat
    /\ trace w' = (trace w ++ evs)%list
    /\ requests_of evs = map (resource_request cfg bearer) (before ++ [request])).
  { unfold testRequests, get. rewrite Htoken.
    unfold bind at 1, lift. unfold bind at 1, existsSync.
    case_bool_decide as Hdir; simpl.
    - unfold bind at 1, ret.
      destruct (Heach w eq_refl) as (evs & w' & Hrun & Hn & Ht & Hreq).
      by exists evs, w'.
    - unfold bind at 1, mkdirSync. rewrite Hdisk.
      set (w1 := mkWorld _ _ _ _ _ _ _ _ _ _ _).
      destruct (Heach w1 eq_refl) as (evs & w' & Hrun & Hn & Ht & Hreq).
      exists (EMkdir RESPONSE_DIRECTORY :: evs), w'.
      split; [done|]. split; [done|]. split; [|done].
      rewrite Ht. unfold w1, log. simpl. by rewrite <- app_assoc. }
  destruct Hrun as (evs & w' & -> & Hn & Ht & Hreq). simpl.
  split; [done|]. split; [done|]. by exists evs.
Qed.

Lemma rejected_request_ends_iteration_witness :
  let env := sample_env [Resolved bundle_response; Rejected connection_refused] in
  property sample_token "access_token" = Some (Some (JString "AT-1"))
  /\ ToString (Some (JString "AT-1")) = Normal "AT-1"
  /\ (forall path, disk_error env path = None)
  /\ requests sample_cfg = ([Patient] ++ Appointment :: [Observation])%list
  /\ all_answered sample_cfg env "AT-1" (fetched sample_world) [Patient]
  /\ network env (fetched sample_world + length [Patient])
       (resource_request sample_cfg "AT-1" Appointment) = Rejected connection_refused
  /\ (testRequests sample_cfg env sample_token sample_world).1 = Throw connection_refused
  /\ fetched (testRequests sample_cfg env sample_token sample_world).2 = 2%nat.
Proof.
  intros env.
  assert (Hall : all_answered sample_cfg env "AT-1" (fetched sample_world) [Patient]).
  { intros [|i] request Hi; [|by destruct i].
    injection Hi as <-. eexists. split; [reflexivity|].
    split; [intros _; by eexists | discriminate]. }
  split; [reflexivity|]. split; [reflexivity|]. split; [reflexivity|].
  split; [reflexivity|]. split; [exact Hall|]. split; [reflexivity|].
  destruct (rejected_request_ends_iteration sample_cfg env sample_token
              (Some (JString "AT-1")) "AT-1" [Patient] Appointment [Observation]
              sample_world connection_refused eq_refl eq_refl
              (fun _ => eq_refl) eq_refl Hall eq_refl)
    as (Hthrow & Hn & _).
  split; [exact Hthrow | exact Hn].
Defined.

End FollowUpOutcomes.

(** ** The authorization redirect and the routes *)

Section AuthorizationProperties.
Import Js World Oauth Server Samples.
Local Open Scope handler_scope.

Implicit Types (cfg : Config) (env : Env) (req : Request) (w : World).

(** X16. Whatever the query of the request holds, the initialization
    handler answers with a 302 and no body once the authorization URI
    prints as a text a header may hold.  The [Location] is that text, a
    question mark and the serialized form of [response_type],
    [client_id], [scope], [redirect_uri] and [state], then [aud],
    [launch] and [secret] when [iss], [launch] and the client secret are
    given; the form is made of the characters of a form only, so no
    parameter of the request reaches the header as it came.  The state
    of the form is pending in the store from the time of the call. *)
Theorem authorization_redirect_is_well_formed cfg env req w base :
  res_head w = None ->
  ToString (authUri w) = Normal base ->
  header_value_ok base = true ->
  let outcome := requestEpicAuthorization cfg env req w in
  let launch := query req !! "launch" in
  let iss := query req !! "iss" in
  let form :=
    URLSearchParams_toString
      ([ ("response_type", "code");
         ("client_id", show (env_CLIENT_ID cfg));
         ("scope", if truthy_string launch then SCOPE cfg ++ " launch" else SCOPE cfg);
         ("redirect_uri", REDIRECT_URI cfg);
         ("state", uuidv4 env) ]
       ++ (if truthy_string iss then [("aud", show iss)] else [])
       ++ (if truthy_string launch then [("launch", show launch)] else [])
       ++ secret_entry cfg) in
  outcome.1 = Normal tt
  /\ trace outcome.2 =
     (trace w ++ [EWriteHead 302 [("Location", (base ++ "?" ++ form)%string)]; EEnd None])%list
  /\ response outcome.2 = (Some 302, Some None)
  /\ all_chars query_char form = true
  /\ stateStore outcome.2 = <[uuidv4 env := clock env (ticks w)]> (stateStore w).
Proof.
  intros Hfresh Hbase Hok outcome launch iss form.
  assert (Hchars : all_chars query_char form = true)
    by apply query_char_URLSearchParams.
  assert (Hheader : header_value_ok form = true)
    by apply header_value_ok_URLSearchParams.
  split; [|split; [|split; [|split; [exact Hchars|]]]];
    unfold outcome, requestEpicAuthorization;
    erewrite bind_normal by reflexivity; cbv beta zeta;
    change (URLSearchParams_toString _) with form; clearbody form;
    unfold bind, reading, lift; cbn [authUri]; rewrite Hbase;
    unfold writeHead, end_; cbn [res_head]; rewrite Hfresh;
    cbn [List.find snd negb];
    rewrite !header_value_ok_app, Hok, Hheader; simpl; try done.
  unfold log. simpl. by rewrite <- app_assoc.
Qed.

Lemma authorization_redirect_is_well_formed_witness :
  let req := mkReq (Some "/init")
               (list_to_map [("iss", "https://fhir.example/api?a=b&c"); ("launch", "x y")]) in
  res_head sample_world = None
  /\ ToString (authUri sample_world) = Normal "https://fhir.example/oauth2/authorize"
  /\ header_value_ok "https://fhir.example/oauth2/authorize" = true
  /\ response (requestEpicAuthorization sample_cfg (sample_env []) req sample_world).2
     = (Some 302, Some None).
Proof.
  intros req. split; [reflexivity|]. split; [reflexivity|]. split; [reflexivity|].
  exact (proj1 (proj2 (proj2
    (authorization_redirect_is_well_formed sample_cfg (sample_env []) req sample_world
       "https://fhir.example/oauth2/authorize" eq_refl eq_refl eq_refl)))).
Defined.

(** The world after the redirect. *)
Lemma requestEpicAuthorization_run cfg env req w base :
  res_head w = None ->
  ToString (authUri w) = Normal base ->
  header_value_ok base = true ->
  exists form,
    all_chars query_char form = true
    /\ requestEpicAuthorization cfg env req w =
       (Normal tt,
        mkWorld (<[uuidv4 env := clock env (ticks w)]> (stateStore w))
                (authUri w) (tokenUri w) (files w) (dirs w)
                (Some 302) (Some None) (listening w) (S (ticks w)) (fetched w)
                (trace w ++ [EWriteHead 302 [("Location", (base ++ "?" ++ form)%string)];
                             EEnd None])).
Proof.
  intros Hfresh Hbase Hok.
  unfold requestEpicAuthorization.
  erewrite bind_normal by reflexivity. cbv beta zeta.
  set (form := URLSearchParams_toString _).
  assert (Hchars : all_chars query_char form = true)
    by apply query_char_URLSearchParams.
  assert (Hheader : header_value_ok form = true)
    by apply header_value_ok_URLSearchParams.
  exists form. split; [exact Hchars|]. clearbody form.
  unfold bind, reading, lift. cbn [authUri]. rewrite Hbase.
  unfold writeHead, end_. cbn [res_head]. rewrite Hfresh.
  cbn [List.find snd negb].
  rewrite !header_value_ok_app, Hok, Hheader. simpl.
  unfold log. simpl. by rewrite <- app_assoc.
Qed.

(** X17. When the authorization URI prints as a text that a header
    may not hold (a control character, a character beyond U+00FF),
    [writeHead] refuses the [Location]: the handler throws, no response
    is begun, and the state it has handed out stays pending. *)
Theorem authorization_redirect_rejects_bad_uri cfg env req w base :
  res_head w = None ->
  ToString (authUri w) = Normal base ->
  header_value_ok base = false ->
  let outcome := requestEpicAuthorization cfg env req w in
  outcome.1 = Throw (ERR_INVALID_CHAR "Location")
  /\ response outcome.2 = (None, res_body w)
  /\ stateStore outcome.2 = <[uuidv4 env := clock env (ticks w)]> (stateStore w).
Proof.
  intros Hfresh Hbase Hbad outcome.
  unfold outcome, requestEpicAuthorization.
  erewrite bind_normal by reflexivity. cbv beta zeta.
  set (form := URLSearchParams_toString _). clearbody form.
  unfold bind, reading, lift. cbn [authUri]. rewrite Hbase.
  unfold writeHead. cbn [res_head]. rewrite Hfresh.
  cbn [List.find snd negb]. rewrite header_value_ok_app, Hbad.
  cbn [andb negb fst snd]. unfold response. cbn [res_head res_body stateStore].
  done.
Qed.

Lemma authorization_redirect_rejects_bad_uri_witness :
  let w := mkWorld ∅ (Some (JString ("https://fhir.example/" ++ nl ++ "authorize")))
             None ∅ ∅ None None true 0 0 [] in
  res_head w = None
  /\ ToString (authUri w) = Normal ("https://fhir.example/" ++ nl ++ "authorize")
  /\ header_value_ok ("https://fhir.example/" ++ nl ++ "authorize") = false
  /\ (requestEpicAuthorization sample_cfg (sample_env []) (mkReq (Some "/init") ∅) w).1
     = Throw (ERR_INVALID_CHAR "Location").
Proof.
  intros w. split; [reflexivity|]. split; [reflexivity|]. split; [reflexivity|].
  exact (proj1 (authorization_redirect_rejects_bad_uri sample_cfg (sample_env [])
                  (mkReq (Some "/init") ∅) w _ eq_refl eq_refl eq_refl)).
Defined.

(** X18. The state an initialization request hands out is accepted at
    the callback that presents it while no more than [STATE_TTL_MS]
    have passed, whether or not the redirect itself could be sent. *)
Theorem issued_state_is_accepted cfg env req w env' :
  StateManager.is_uuid (uuidv4 env) = true ->
  let w1 := incoming (requestEpicAuthorization cfg env req w).2 in
  clock env' (ticks w1) - clock env (ticks w) <= StateManager.STATE_TTL_MS ->
  state_valid env' w1 (Some (uuidv4 env)).
Proof.
  intros _. cbv zeta. intros Hin.
  assert (Hgen : forall X (f : World -> X) (k : string -> M unit),
    (forall state, keeps f (k state)) ->
    f (bind (World.generateState env) k w).2 = f (World.generateState env w).2).
  { intros X f k Hk. unfold bind. simpl. apply Hk. }
  assert (Hs : stateStore (requestEpicAuthorization cfg env req w).2
               = <[uuidv4 env := clock env (ticks w)]> (stateStore w)).
  { unfold requestEpicAuthorization. rewrite Hgen; [reflexivity|].
    intros state. repeat keeps_step. }
  exists (clock env (ticks w)). unfold incoming in *. cbn [stateStore ticks] in *.
  split; [|exact Hin]. rewrite Hs. apply lookup_insert_eq.
Qed.

Lemma issued_state_is_accepted_witness :
  let w1 := incoming (requestEpicAuthorization sample_cfg (sample_env [])
                        (mkReq (Some "/init") ∅) starting_world).2 in
  StateManager.is_uuid (uuidv4 (sample_env [])) = true
  /\ clock (sample_env []) (ticks w1) - clock (sample_env []) (ticks starting_world)
     <= StateManager.STATE_TTL_MS
  /\ state_valid (sample_env []) w1 (Some (uuidv4 (sample_env []))).
Proof.
  intros w1. split; [reflexivity|]. split; [vm_compute; discriminate|].
  apply (issued_state_is_accepted sample_cfg (sample_env []) (mkReq (Some "/init") ∅)
           starting_world (sample_env [])); [reflexivity|].
  vm_compute. discriminate.
Defined.

(** *** The routes *)

Lemma keeps_fetched_requestEpicAuthorization cfg env req :
  keeps fetched (requestEpicAuthorization cfg env req).
Proof. unfold requestEpicAuthorization. repeat keeps_step. Qed.

Lemma keeps_files_requestEpicAuthorization cfg env req :
  keeps files (requestEpicAuthorization cfg env req).
Proof. unfold requestEpicAuthorization. repeat keeps_step. Qed.

(** X19. The callback route is the last [case] of the [switch]: when
    [CALLBACK_PATH] is not set, is the path of the home page or is the
    initialization path, no request is routed to the token exchange,
    so that the listener never sends a request and never writes a
    file. *)
Theorem callback_route_can_be_shadowed cfg env req w :
  env_CALLBACK_PATH cfg = None
  \/ env_CALLBACK_PATH cfg = Some EmptyString
  \/ env_CALLBACK_PATH cfg = Some "/"
  \/ env_CALLBACK_PATH cfg = env_INITIALIZATION_PATH cfg ->
  dispatch cfg (pathname req) <> Callback
  /\ fetched (listener cfg env req w).2 = fetched w
  /\ files (listener cfg env req w).2 = files w.
Proof.
  intros Hcfg.
  assert (Hroute : dispatch cfg (pathname req) <> Callback).
  { unfold dispatch.
    case_bool_decide as Hempty; [done|]. case_bool_decide as Hroot; [done|].
    case_bool_decide as Hinit; [done|]. case_bool_decide as Hcall; [|done].
    intros _. destruct Hcall as [[p Hp] Heq].
    destruct Hcfg as [Hc | [Hc | [Hc | Hc]]]; try congruence.
    apply Hinit. split; [by exists p | congruence]. }
  split; [exact Hroute|]. unfold listener.
  destruct (dispatch cfg (pathname req)); [| |done|].
  - split; [assert (Hk : keeps fetched
               (writeHead 200 [("Content-Type", "text/html")] ;; end_ (Some (homePage cfg))))
             by repeat keeps_step; apply Hk
           |assert (Hk : keeps files
               (writeHead 200 [("Content-Type", "text/html")] ;; end_ (Some (homePage cfg))))
             by repeat keeps_step; apply Hk].
  - split; [apply keeps_fetched_requestEpicAuthorization
           |apply keeps_files_requestEpicAuthorization].
  - split; [assert (Hk : keeps fetched
               (writeHead 404 [] ;; end_ (Some "Not Found") ;; server_close))
             by repeat keeps_step; apply Hk
           |assert (Hk : keeps files
               (writeHead 404 [] ;; end_ (Some "Not Found") ;; server_close))
             by repeat keeps_step; apply Hk].
Qed.

Lemma callback_route_can_be_shadowed_witness :
  let cfg := mkConfig (Some "https://fhir.example/api/FHIR/R4") (Some "client-1") None
               None None (Some "/oauth") (Some "/oauth") None None None None [] in
  let req := mkReq (Some "/oauth") (list_to_map [("state", sample_uuid); ("code", "C1")]) in
  (env_CALLBACK_PATH cfg = None
   \/ env_CALLBACK_PATH cfg = Some EmptyString
   \/ env_CALLBACK_PATH cfg = Some "/"
   \/ env_CALLBACK_PATH cfg = env_INITIALIZATION_PATH cfg)
  /\ dispatch cfg (pathname req) <> Callback
  /\ fetched (listener cfg (sample_env []) req sample_world).2 = fetched sample_world.
Proof.
  intros cfg req.
  assert (Hcfg : env_CALLBACK_PATH cfg = None
                 \/ env_CALLBACK_PATH cfg = Some EmptyString
                 \/ env_CALLBACK_PATH cfg = Some "/"
                 \/ env_CALLBACK_PATH cfg = env_INITIALIZATION_PATH cfg).
  { right. right. right. reflexivity. }
  split; [exact Hcfg|].
  destruct (callback_route_can_be_shadowed cfg (sample_env []) req sample_world Hcfg)
    as (Hroute & Hfetched & _).
  split; [exact Hroute | exact Hfetched].
Defined.

End AuthorizationProperties.

(** ** The files of the responses *)

Section ResponseFiles.
Import Js World Oauth Samples.

Local Arguments String.append : simpl nomatch.

Lemma append_inv_tail (a b s : string) : a ++ s = b ++ s -> a = b.
Proof.
  revert b. induction a as [|c a IH]; intros [|c' b] H.
  - done.
  - apply (f_equal String.length) in H. rewrite !length_append in H.
    simpl in H. lia.
  - apply (f_equal String.length) in H. rewrite !length_append in H.
    simpl in H. lia.
  - simpl in H. injection H as -> H. f_equal. by apply IH.
Qed.

(** The digits of a natural number end where a hyphen follows. *)
Lemma pretty_N_hyphen (n1 n2 : N) (a b : string) :
  pretty n1 ++ "-" ++ a = pretty n2 ++ "-" ++ b -> n1 = n2 /\ a = b.
Proof.
  intros H. apply (f_equal span_digits) in H.
  rewrite !span_digits_pretty in H by reflexivity.
  injection H as Hn Hab. split; [by apply (inj pretty) | exact Hab].
Qed.

(** The text of an integer: the digits of a natural number, after a
    hyphen when the integer is negative. *)
Lemma pretty_Z_digits (z : Z) :
  (0 <= z /\ pretty z = pretty (Z.to_N z))
  \/ (z < 0 /\ pretty z = "-" ++ pretty (Z.to_N (- z))).
Proof.
  destruct z as [|p|p]; [left | left | right]; split; (lia || reflexivity).
Qed.

Lemma pretty_Z_hyphen (t1 t2 : Z) (a b : string) :
  pretty t1 ++ "-" ++ a = pretty t2 ++ "-" ++ b -> t1 = t2 /\ a = b.
Proof.
  destruct (pretty_Z_digits t1) as [[H1 ->] | [H1 ->]],
           (pretty_Z_digits t2) as [[H2 ->] | [H2 ->]]; intros H.
  - apply pretty_N_hyphen in H as [Hn ->]. split; [lia | done].
  - destruct (pretty_N_head (Z.to_N t1)) as (c & r & Hp & Hc).
    rewrite Hp in H. simpl in H. injection H as -> _. discriminate Hc.
  - destruct (pretty_N_head (Z.to_N t2)) as (c & r & Hp & Hc).
    rewrite Hp in H. simpl in H. injection H as <- _. discriminate Hc.
  - simpl in H. injection H as H.
    apply pretty_N_hyphen in H as [Hn ->]. split; [lia | done].
Qed.

(** X20. The file of a response is named by the clock reading and the
    resource alone: two responses go to the same file exactly when they
    are written at the same millisecond for resources of the same name,
    whatever the search parameters of the two requests are. *)
Theorem response_files_coincide t1 t2 (request1 request2 : ResourceRequest) :
  response_file t1 request1 = response_file t2 request2
  <-> t1 = t2 /\ resource request1 = resource request2.
Proof.
  unfold response_file. split.
  - intros H.
    apply (inj (String.append RESPONSE_DIRECTORY)) in H.
    apply (inj (String.append "/")) in H.
    apply pretty_Z_hyphen in H as [-> H]. split; [done|].
    by apply append_inv_tail in H.
  - by intros [-> ->].
Qed.

End ResponseFiles.

(** ** The endpoints read from the metadata *)

Section MetadataProperties.
Import Js World Oauth Samples.
Local Open Scope handler_scope.

Implicit Types (cfg : Config) (env : Env) (w : World) (props : list (string * json)).

(** The path of [fetchURIs] in a capability statement: the extensions
    of the first entry of the first security extension of the first
    [rest] entry. *)
Lemma lodash_get_extensions props rest0 rests security oauth exts entries :
  own props extension_path_text = None ->
  own props "rest" = Some (JArray (JObject rest0 :: rests)) ->
  own rest0 "security" = Some (JObject security) ->
  own security "extension" = Some (JArray (JObject oauth :: exts)) ->
  own oauth "extension" = Some entries ->
  lodash_get (JObject props) extension_path_text extension_path = Json entries.
Proof.
  intros Htext Hrest Hsecurity Hextension Hentries.
  unfold lodash_get, extension_path. cbn [nullish]. rewrite Htext.
  cbn [baseGet nullish member key_text]. rewrite Hrest.
  cbn [of_value nullish member key_text lookup list_lookup]. rewrite Hsecurity.
  cbn [of_value nullish member key_text]. rewrite Hextension.
  cbn [of_value nullish member key_text lookup list_lookup]. rewrite Hentries.
  reflexivity.
Qed.

(** A value without a [rest] property has no such path. *)
Lemma lodash_get_no_rest metadata :
  (forall v, property metadata extension_path_text <> Some (Some v)) ->
  (forall v, property metadata "rest" <> Some (Some v)) ->
  lodash_get metadata extension_path_text extension_path = Undefined.
Proof.
  intros Htext Hrest. unfold lodash_get, extension_path.
  destruct metadata as [|b|n|s|items|props]; try reflexivity.
  cbn [nullish]. simpl in Htext, Hrest.
  destruct (own props extension_path_text) as [v|]; [by destruct (Htext v)|].
  cbn [baseGet nullish member key_text].
  destruct (own props "rest") as [v|]; [by destruct (Hrest v)|].
  reflexivity.
Qed.

(** [extensions[i].valueUri] on an array of extensions. *)
Lemma valueUri_at_object (entries : list json) i entry :
  entries !! i = Some (JObject entry) ->
  valueUri_at (Json (JArray entries)) i = Normal (own entry "valueUri").
Proof.
  intros Hi. unfold valueUri_at, read, member. rewrite Hi.
  cbn [of_value key_text]. by destruct (own entry "valueUri").
Qed.

Lemma valueUri_at_missing (entries : list json) i :
  entries !! i = None ->
  valueUri_at (Json (JArray entries)) i = Throw (cannot_read_undefined "valueUri").
Proof. intros Hi. unfold valueUri_at, read, member. by rewrite Hi. Qed.

(** [fetchURIs] up to the reading of the extensions. *)
Lemma fetchURIs_fetched cfg env w metadataRes metadata :
  network env (fetched w) (metadata_request cfg) = Resolved metadataRes ->
  body_json metadataRes = Normal metadata ->
  fetchURIs cfg env w =
  (let extensions := lodash_get metadata extension_path_text extension_path in
   first <- lift (valueUri_at extensions 0) ;;
   set_authUri first ;;
   second <- lift (valueUri_at extensions 1) ;;
   set_tokenUri second ;;
   _ <- reading (fun w => lift (ToString (authUri w))) ;;
   _ <- reading (fun w => lift (ToString (tokenUri w))) ;;
   ret tt)
    (mkWorld (stateStore w) (authUri w) (tokenUri w) (files w) (dirs w)
             (res_head w) (res_body w) (listening w) (ticks w)
             (S (fetched w)) (trace w ++ [EFetch (metadata_request cfg)])).
Proof.
  intros Hnet Hjson. unfold fetchURIs.
  erewrite bind_normal; cycle 1.
  { unfold fetch. rewrite Hnet. reflexivity. }
  erewrite bind_normal; cycle 1.
  { unfold lift. rewrite Hjson. reflexivity. }
  reflexivity.
Qed.

(** X21. When the metadata is a capability statement that carries the
    OAuth extension at the place [fetchURIs] looks at, the
    authorization URI is the [valueUri] of the first entry of the
    extension and the token URI the one of the second, whatever the
    [url] names of the two entries and the status of the answer are;
    the metadata request is the only thing [fetchURIs] does besides.
    It returns when both values print as text; when one of them does
    not (an object with a [toString] of its own), it throws the
    [TypeError] of the template literal of line 62 or 63, after both
    assignments. *)
Theorem fetchURIs_reads_by_position cfg env w metadataRes props rest0 rests
    security oauth exts first second more :
  network env (fetched w) (metadata_request cfg) = Resolved metadataRes ->
  body_json metadataRes = Normal (JObject props) ->
  own props extension_path_text = None ->
  own props "rest" = Some (JArray (JObject rest0 :: rests)) ->
  own rest0 "security" = Some (JObject security) ->
  own security "extension" = Some (JArray (JObject oauth :: exts)) ->
  own oauth "extension" = Some (JArray (JObject first :: JObject second :: more)) ->
  let outcome := fetchURIs cfg env w in
  outcome.1 =
    match ToString (own first "valueUri"), ToString (own second "valueUri") with
    | Normal _, Normal _ => Normal tt
    | Throw e, _ => Throw e
    | Normal _, Throw e => Throw e
    end
  /\ authUri outcome.2 = own first "valueUri"
  /\ tokenUri outcome.2 = own second "valueUri"
  /\ trace outcome.2 = (trace w ++ [EFetch (metadata_request cfg)])%list
  /\ files outcome.2 = files w
  /\ stateStore outcome.2 = stateStore w.
Proof.
  intros Hnet Hjson Htext Hrest Hsecurity Hextension Hentries. cbv zeta.
  rewrite (fetchURIs_fetched cfg env w metadataRes _ Hnet Hjson).
  rewrite (lodash_get_extensions props rest0 rests security oauth exts _
             Htext Hrest Hsecurity Hextension Hentries).
  cbv zeta. unfold bind, lift, reading.
  rewrite (valueUri_at_object _ 0 first), (valueUri_at_object _ 1 second)
    by reflexivity.
  cbn [set_authUri set_tokenUri fst snd authUri tokenUri].
  destruct (ToString (own first "valueUri")) as [a|e]; [|done].
  by destruct (ToString (own second "valueUri")) as [b|e].
Qed.

Lemma fetchURIs_reads_by_position_witness :
  let metadataRes := mkResponse 200 EmptyString (Normal sample_metadata) in
  let env := sample_env [Resolved metadataRes] in
  let outcome := fetchURIs sample_cfg env starting_world in
  network env (fetched starting_world) (metadata_request sample_cfg) = Resolved metadataRes
  /\ body_json metadataRes = Normal sample_metadata
  /\ outcome.1 = Normal tt
  /\ authUri outcome.2 = Some (JString "https://fhir.example/oauth2/authorize")
  /\ tokenUri outcome.2 = Some (JString "https://fhir.example/oauth2/token").
Proof.
  intros metadataRes env outcome.
  split; [reflexivity|]. split; [reflexivity|].
  destruct (fetchURIs_reads_by_position sample_cfg env starting_world metadataRes
              _ _ _ _ _ _ _ _ _
              eq_refl eq_refl eq_refl eq_refl eq_refl eq_refl eq_refl)
    as (Hr & Ha & Ht & _).
  split; [exact Hr|]. split; [exact Ha | exact Ht].
Defined.

(** X22. When the answer to the metadata request is JSON that has no
    [rest] property (an operation outcome, an empty object, [null], a
    value that is no object), whatever its status is, [fetchURIs]
    throws a [TypeError] on [extensions[0]] and leaves both URIs as
    they were. *)
Theorem fetchURIs_without_extensions cfg env w metadataRes metadata :
  network env (fetched w) (metadata_request cfg) = Resolved metadataRes ->
  body_json metadataRes = Normal metadata ->
  (forall v, property metadata extension_path_text <> Some (Some v)) ->
  (forall v, property metadata "rest" <> Some (Some v)) ->
  let outcome := fetchURIs cfg env w in
  outcome.1 = Throw (cannot_read_undefined "0")
  /\ authUri outcome.2 = authUri w
  /\ tokenUri outcome.2 = tokenUri w.
Proof.
  intros Hnet Hjson Htext Hrest. cbv zeta.
  rewrite (fetchURIs_fetched cfg env w metadataRes _ Hnet Hjson).
  rewrite (lodash_get_no_rest metadata Htext Hrest).
  done.
Qed.

Lemma fetchURIs_without_extensions_witness :
  let metadataRes := mkResponse 404 "Not Found" (Normal operation_outcome) in
  let env := sample_env [Resolved metadataRes] in
  let outcome := fetchURIs sample_cfg env sample_world in
  network env (fetched sample_world) (metadata_request sample_cfg) = Resolved metadataRes
  /\ body_json metadataRes = Normal operation_outcome
  /\ (forall v, property operation_outcome extension_path_text <> Some (Some v))
  /\ (forall v, property operation_outcome "rest" <> Some (Some v))
  /\ outcome.1 = Throw (cannot_read_undefined "0")
  /\ authUri outcome.2 = authUri sample_world
  /\ tokenUri outcome.2 = tokenUri sample_world.
Proof.
  intros metadataRes env outcome.
  split; [reflexivity|]. split; [reflexivity|].
  split; [intros v; discriminate|]. split; [intros v; discriminate|].
  apply (fetchURIs_without_extensions sample_cfg env sample_world
           metadataRes operation_outcome eq_refl eq_refl); intros v; discriminate.
Defined.

(** X23. When the OAuth extension has one entry only, [fetchURIs] has
    assigned the authorization URI when it throws on the second entry:
    the authorization URI is the new one, the token URI the one from
    before. *)
Theorem fetchURIs_half_update cfg env w metadataRes props rest0 rests
    security oauth exts first :
  network env (fetched w) (metadata_request cfg) = Resolved metadataRes ->
  body_json metadataRes = Normal (JObject props) ->
  own props extension_path_text = None ->
  own props "rest" = Some (JArray (JObject rest0 :: rests)) ->
  own rest0 "security" = Some (JObject security) ->
  own security "extension" = Some (JArray (JObject oauth :: exts)) ->
  own oauth "extension" = Some (JArray [JObject first]) ->
  let outcome := fetchURIs cfg env w in
  outcome.1 = Throw (cannot_read_undefined "valueUri")
  /\ authUri outcome.2 = own first "valueUri"
  /\ tokenUri outcome.2 = tokenUri w.
Proof.
  intros Hnet Hjson Htext Hrest Hsecurity Hextension Hentries. cbv zeta.
  rewrite (fetchURIs_fetched cfg env w metadataRes _ Hnet Hjson).
  rewrite (lodash_get_extensions props rest0 rests security oauth exts _
             Htext Hrest Hsecurity Hextension Hentries).
  cbv zeta. unfold bind, lift.
  rewrite (valueUri_at_object _ 0 first), (valueUri_at_missing _ 1)
    by reflexivity.
  done.
Qed.

Lemma fetchURIs_half_update_witness :
  let metadataRes := mkResponse 200 EmptyString (Normal half_metadata) in
  let env := sample_env [Resolved metadataRes] in
  let outcome := fetchURIs sample_cfg env sample_world in
  network env (fetched sample_world) (metadata_request sample_cfg) = Resolved metadataRes
  /\ body_json metadataRes = Normal half_metadata
  /\ outcome.1 = Throw (cannot_read_undefined "valueUri")
  /\ authUri outcome.2 = Some (JString "https://fhir.example/oauth2/authorize")
  /\ tokenUri outcome.2 = tokenUri sample_world.
Proof.
  intros metadataRes env outcome.
  split; [reflexivity|]. split; [reflexivity|].
  apply (fetchURIs_half_update sample_cfg env sample_world metadataRes
           _ _ _ _ _ _ _
           eq_refl eq_refl eq_refl eq_refl eq_refl eq_refl eq_refl).
Defined.

(** The world after [fetchURIs] has read both endpoints. *)
Lemma fetchURIs_resolved cfg env w metadataRes props rest0 rests
    security oauth exts first second more a b :
  network env (fetched w) (metadata_request cfg) = Resolved metadataRes ->
  body_json metadataRes = Normal (JObject props) ->
  own props extension_path_text = None ->
  own props "rest" = Some (JArray (JObject rest0 :: rests)) ->
  own rest0 "security" = Some (JObject security) ->
  own security "extension" = Some (JArray (JObject oauth :: exts)) ->
  own oauth "extension" = Some (JArray (JObject first :: JObject second :: more)) ->
  ToString (own first "valueUri") = Normal a ->
  ToString (own second "valueUri") = Normal b ->
  fetchURIs cfg env w =
  (Normal tt,
   mkWorld (stateStore w) (own first "valueUri") (own second "valueUri")
           (files w) (dirs w) (res_head w) (res_body w) (listening w) (ticks w)
           (S (fetched w)) (trace w ++ [EFetch (metadata_request cfg)])).
Proof.
  intros Hnet Hjson Htext Hrest Hsecurity Hextension Hentries Ha Hb.
  rewrite (fetchURIs_fetched cfg env w metadataRes _ Hnet Hjson).
  rewrite (lodash_get_extensions props rest0 rests security oauth exts _
             Htext Hrest Hsecurity Hextension Hentries).
  cbv zeta. unfold bind, lift, reading.
  rewrite (valueUri_at_object _ 0 first), (valueUri_at_object _ 1 second)
    by reflexivity.
  cbn [set_authUri set_tokenUri fst snd authUri tokenUri].
  by rewrite Ha, Hb.
Qed.

(** X24. The endpoints read from the metadata are the ones the flow
    uses.  After [fetchURIs] has read a capability statement whose two
    URIs are texts, an initialization request is redirected to the
    first of them, followed by a question mark and the form; the
    second is the token URI that the callback will post to, and the
    state of the redirect is pending in the store. *)
Theorem flow_uses_metadata_endpoints cfg env env' req w metadataRes props rest0 rests
    security oauth exts first second more authorize token :
  res_head w = None ->
  network env (fetched w) (metadata_request cfg) = Resolved metadataRes ->
  body_json metadataRes = Normal (JObject props) ->
  own props extension_path_text = None ->
  own props "rest" = Some (JArray (JObject rest0 :: rests)) ->
  own rest0 "security" = Some (JObject security) ->
  own security "extension" = Some (JArray (JObject oauth :: exts)) ->
  own oauth "extension" = Some (JArray (JObject first :: JObject second :: more)) ->
  own first "valueUri" = Some (JString authorize) ->
  own second "valueUri" = Some (JString token) ->
  header_value_ok authorize = true ->
  let started := (fetchURIs cfg env w).2 in
  let outcome := requestEpicAuthorization cfg env' req started in
  outcome.1 = Normal tt
  /\ (exists form,
        all_chars query_char form = true
        /\ trace outcome.2 =
           (trace w ++ [ EFetch (metadata_request cfg);
                         EWriteHead 302 [("Location", (authorize ++ "?" ++ form)%string)];
                         EEnd None ])%list)
  /\ tokenUri outcome.2 = Some (JString token)
  /\ stateStore outcome.2 !! uuidv4 env' = Some (clock env' (ticks w)).
Proof.
  intros Hfresh Hnet Hjson Htext Hrest Hsecurity Hextension Hentries
         Hauthorize Htoken Hok. cbv zeta.
  rewrite (fetchURIs_resolved cfg env w metadataRes props rest0 rests security
             oauth exts first second more authorize token
             Hnet Hjson Htext Hrest Hsecurity Hextension Hentries)
    by (by rewrite ?Hauthorize, ?Htoken).
  cbn [snd]. rewrite Hauthorize, Htoken.
  destruct (requestEpicAuthorization_run cfg env' req
              (mkWorld (stateStore w) (Some (JString authorize)) (Some (JString token))
                 (files w) (dirs w) (res_head w) (res_body w) (listening w) (ticks w)
                 (S (fetched w)) (trace w ++ [EFetch (metadata_request cfg)]))
              authorize Hfresh eq_refl Hok) as (form & Hchars & ->).
  cbn [fst snd trace tokenUri stateStore ticks].
  split; [done|]. split; [|split; [done | apply lookup_insert_eq]].
  exists form. split; [exact Hchars|]. by rewrite <- app_assoc.
Qed.

Lemma flow_uses_metadata_endpoints_witness :
  let metadataRes := mkResponse 200 EmptyString (Normal sample_metadata) in
  let env := sample_env [Resolved metadataRes] in
  let started := (fetchURIs sample_cfg env starting_world).2 in
  let outcome := requestEpicAuthorization sample_cfg env (mkReq (Some "/init") ∅) started in
  res_head starting_world = None
  /\ network env (fetched starting_world) (metadata_request sample_cfg) = Resolved metadataRes
  /\ body_json metadataRes = Normal sample_metadata
  /\ header_value_ok "https://fhir.example/oauth2/authorize" = true
  /\ outcome.1 = Normal tt
  /\ tokenUri outcome.2 = Some (JString "https://fhir.example/oauth2/token").
Proof.
  intros metadataRes env started outcome.
  split; [reflexivity|]. split; [reflexivity|]. split; [reflexivity|].
  split; [reflexivity|].
  destruct (flow_uses_metadata_endpoints sample_cfg env env (mkReq (Some "/init") ∅)
              starting_world metadataRes _ _ _ _ _ _ _ _ _
              "https://fhir.example/oauth2/authorize" "https://fhir.example/oauth2/token"
              eq_refl eq_refl eq_refl eq_refl eq_refl eq_refl eq_refl eq_refl
              eq_refl eq_refl eq_refl)
    as (Hr & _ & Ht & _).
  split; [exact Hr | exact Ht].
Defined.

End MetadataProperties.

(** ** The logger *)

Section LoggerProperties.
Import Js Logger.

Implicit Types (level : string).

Lemma indexOf_from_absent (l : list string) (x : string) (i : Z) :
  x ∉ l -> indexOf_from i l x = -1.
Proof.
  revert i. induction l as [|y l IH]; intros i Hx; simpl; [done|].
  apply not_elem_of_cons in Hx as [Hne Hx].
  destruct (String.eqb_spec y x) as [->|_]; [done|]. by apply IH.
Qed.

(** X25. A level that is none of [error], [info] and [debug] in any
    letter case silences the logger: nothing is printed, not even an
    error. *)
Theorem unrecognised_level_silences_logger {V : Type} level (args : list V) :
  level <> EmptyString ->
  toLowerCase level ∉ levels ->
  let lg := logger (Some level) in
  error lg args = None /\ info lg args = None /\ debug lg args = None.
Proof.
  intros Hne Hlevel. cbv zeta. unfold logger, createLogger, LOG_LEVEL.
  destruct level as [|c level]; [done|].
  cbn [truthy_string show error info debug].
  change (default INFO (Some (String c level))) with (String c level).
  unfold log, indexOf. rewrite indexOf_from_absent by done.
  done.
Qed.

Lemma unrecognised_level_silences_logger_witness :
  "warn" <> EmptyString
  /\ (toLowerCase "warn" ∉ levels)
  /\ error (logger (Some "warn")) ["Token exchange failed:"; "fetch failed"] = None.
Proof.
  assert (Hlevel : toLowerCase "warn" ∉ levels).
  { unfold levels. intros Hin.
    repeat (apply elem_of_cons in Hin as [Heq | Hin]; [discriminate Heq|]).
    by apply elem_of_nil in Hin. }
  split; [discriminate|]. split; [exact Hlevel|].
  apply (unrecognised_level_silences_logger "warn"
           ["Token exchange failed:"; "fetch failed"]); [discriminate | exact Hlevel].
Defined.

(** X26. At the [n]-th of the levels [error], [info] and [debug],
    written in any letter case ([info] when [LOG_LEVEL] is not set or
    empty), an error is printed through [console.error], an info
    message through [console.info] from [info] on, a debug message
    through [console.info] at [debug] only: each with its colour and
    tag first, the arguments in their order, and the reset sequence
    last. *)
Theorem logger_prints_up_to_level {V : Type} env_LOG_LEVEL (n : nat) name (args : list V) :
  levels !! n = Some name ->
  toLowerCase (LOG_LEVEL env_LOG_LEVEL) = name ->
  let lg := logger env_LOG_LEVEL in
  let line via colour tag :=
    mkCall via ([Text (esc colour); Text tag] ++ map Value args ++ [Text (esc "[0m")])%list in
  error lg args = Some (line console_error "[31m" "[ERROR]")
  /\ info lg args = (if (1 <=? n)%nat then Some (line console_info "[32m" "[INFO]") else None)
  /\ debug lg args = (if (2 <=? n)%nat then Some (line console_info "[34m" "[DEBUG]") else None).
Proof.
  intros Hn Hname. cbv zeta. unfold logger, createLogger.
  change (default INFO (Some (LOG_LEVEL env_LOG_LEVEL))) with (LOG_LEVEL env_LOG_LEVEL).
  cbn [error info debug]. rewrite Hname.
  destruct n as [|[|[|n]]]; simpl in Hn; [| | |done];
    injection Hn as <-; done.
Qed.

Lemma logger_prints_up_to_level_witness :
  levels !! 2%nat = Some "debug"
  /\ toLowerCase (LOG_LEVEL (Some "DEBUG")) = "debug"
  /\ exists call, debug (logger (Some "DEBUG")) ["Profile URL:"] = Some call
                  /\ via call = console_info.
Proof.
  split; [reflexivity|]. split; [reflexivity|].
  destruct (logger_prints_up_to_level (Some "DEBUG") 2 "debug" ["Profile URL:"]
              eq_refl eq_refl) as (_ & _ & Hdebug).
  eexists. split; [exact Hdebug | reflexivity].
Defined.

End LoggerProperties.
